(** * issy: core issue library (issues.ts, query-parser.ts, search.ts)

    A shallow embedding of the roadmap order-key engine, the frontmatter
    codec, the issue store's [getIssue]/[updateIssue], the query parser and
    the filter/sort/search composition of the issy core library.

    Strings are JavaScript strings restricted to one-byte code units
    ([Stdlib.Strings.String.string]); JavaScript's [<] on strings is the
    code-unit lexicographic order [str_ltb] below. A JavaScript object used
    as a record of string fields (the parsed frontmatter, the query
    qualifiers) is a [gmap string string]: a missing key and a key bound to
    [undefined] read the same in every function modelled here. *)

From Stdlib Require Import Ascii String.
From stdpp Require Import base gmap strings list sorting.
From Stdlib Require Import QArith.
From Stdlib Require DecimalPos.

Close Scope Q_scope.
Local Open Scope string_scope.
Local Open Scope list_scope.

Infix "+++" := String.append (at level 60, right associativity).
(** stdpp blocks [simpl] on string append; the proofs compute with it. *)
Arguments String.append : simpl nomatch.

(* ------------------------------------------------------------------ *)
(** ** JavaScript string primitives *)

Module JS.

(** [a < b] on strings: code-unit lexicographic order. *)
Fixpoint str_ltb (a b : string) : bool :=
  match a, b with
  | _, EmptyString => false
  | EmptyString, String _ _ => true
  | String x xs, String y ys =>
      if Nat.ltb (nat_of_ascii x) (nat_of_ascii y) then true
      else if Ascii.eqb x y then str_ltb xs ys else false
  end.

(** [a.localeCompare(b)], modelled by the code-unit comparison. The two
    agree on strings of digits of one length, such as issue ids; they
    differ on letters of mixed case ([apple] against [Banana]) and other
    text the locale collation reorders, which is outside the model. *)
Definition str_compare (a b : string) : comparison :=
  if str_ltb a b then Lt else if String.eqb a b then Eq else Gt.

(** [s.startsWith(p)] *)
Fixpoint startsWith (s p : string) {struct p} : bool :=
  match p, s with
  | EmptyString, _ => true
  | String c p', String d s' => Ascii.eqb c d && startsWith s' p'
  | String _ _, EmptyString => false
  end.

(** [s.includes(p)] *)
Fixpoint includes (s p : string) : bool :=
  startsWith s p ||
  match s with
  | EmptyString => false
  | String _ s' => includes s' p
  end.

(** The characters [String.prototype.trim] removes, among one-byte code
    units: TAB, LF, VT, FF, CR, SPACE and NO-BREAK SPACE. *)
Definition is_ws (c : ascii) : bool :=
  let n := nat_of_ascii c in
  (Nat.leb 9 n && Nat.leb n 13) || Nat.eqb n 32 || Nat.eqb n 160.

Fixpoint trimStart (s : string) : string :=
  match s with
  | String c s' => if is_ws c then trimStart s' else s
  | EmptyString => EmptyString
  end.

Definition rev_str (s : string) : string :=
  string_of_list_ascii (rev (list_ascii_of_string s)).

Definition trimEnd (s : string) : string := rev_str (trimStart (rev_str s)).

(** [s.trim()] *)
Definition trim (s : string) : string := trimEnd (trimStart s).

(** [s.toLowerCase()] on one-byte code units (Latin-1): A-Z and the
    capitals U+00C0-U+00DE other than the multiplication sign U+00D7
    map 32 positions up; every other unit is its own lowercase. *)
Definition lower_char (c : ascii) : ascii :=
  let n := nat_of_ascii c in
  if (Nat.leb 65 n && Nat.leb n 90) ||
     (Nat.leb 192 n && Nat.leb n 222 && negb (Nat.eqb n 215))
  then ascii_of_nat (n + 32) else c.

Fixpoint toLowerCase (s : string) : string :=
  match s with
  | EmptyString => EmptyString
  | String c s' => String (lower_char c) (toLowerCase s')
  end.

(** [s.padStart(n, '0')] *)
Definition padStart0 (n : nat) (s : string) : string :=
  String.append (String.concat "" (repeat "0" (n - String.length s))) s.

(** [s.replace(/^0+/, '')] *)
Fixpoint stripLeadingZeros (s : string) : string :=
  match s with
  | String "0" s' => stripLeadingZeros s'
  | _ => s
  end.

(** Truthiness of a string: [""] is falsy. *)
Definition truthy (s : string) : bool :=
  match s with EmptyString => false | _ => true end.

(** [o || null] for an optional string field. *)
Definition or_null (o : option string) : option string :=
  match o with Some s => if truthy s then Some s else None | None => None end.

(** [arr.findIndex(p)], with [-1] as [None]. *)
Fixpoint findIndex {A} (p : A -> bool) (l : list A) : option nat :=
  match l with
  | [] => None
  | x :: r => if p x then Some 0 else option_map S (findIndex p r)
  end.

(** [arr.sort(cmp)]: ECMAScript requires a stable sort; for the
    comparators of this library (total preorders) every stable sort
    returns the same array, so a stable insertion sort stands for it. *)
Fixpoint sort_insert {A} (cmp : A -> A -> comparison) (x : A) (l : list A)
    : list A :=
  match l with
  | [] => [x]
  | y :: r =>
      match cmp x y with
      | Gt => y :: sort_insert cmp x r
      | _ => x :: y :: r
      end
  end.

Fixpoint sort {A} (cmp : A -> A -> comparison) (l : list A) : list A :=
  match l with
  | [] => []
  | x :: r => sort_insert cmp x (sort cmp r)
  end.

End JS.

Import JS.

(* ------------------------------------------------------------------ *)
(** ** Data model (types.ts) *)

(** [Issue]: [frontmatter] is the object produced by [parseFrontmatter],
    a map from field names to string values. *)
Record Issue := mkIssue {
  id : string;
  filename : string;
  frontmatter : gmap string string;
  content : string
}.

Definition fm_field (i : Issue) (k : string) : option string :=
  frontmatter i !! k.

(** [issue.frontmatter.order || null] *)
Definition order_of (i : Issue) : option string := or_null (fm_field i "order").

(* ------------------------------------------------------------------ *)
(** ** Roadmap ordering (issues.ts, computeOrderKey) *)

(** The positioning options [{ before?, after?, first?, last? }];
    an absent string option is [None], an absent boolean is [false]. *)
Record PositionOptions := mkPos {
  opt_before : option string;
  opt_after : option string;
  opt_first : bool;
  opt_last : bool
}.

Definition opt_truthy (o : option string) : option string :=
  match o with Some s => if truthy s then Some s else None | None => None end.

Inductive OrderError :=
| NotFound (msg : string)      (** the [throw new Error(...)] of a missing target *)
| KeyGenFailed.                (** an exception of [generateKeyBetween] *)

Section ComputeOrderKey.

(** [generateKeyBetween] of the [fractional-indexing] package, imported by
    issues.ts; [None] is a thrown exception. *)
Variable generateKeyBetween : option string -> option string -> option string.

Definition gen (lo hi : option string) : OrderError + string :=
  match generateKeyBetween lo hi with
  | Some k => inr k
  | None => inl KeyGenFailed
  end.

Definition not_found_msg (target flag : string) : string :=
  "Issue #" +++ target +++ " not found among open issues. The --" +++ flag
  +++ " target must be an open issue.".

Definition last_order (issues : list Issue) : option string :=
  match last issues with Some i => order_of i | None => None end.

Definition computeOrderKey (openIssues : list Issue) (options : PositionOptions)
    (excludeId : option string) : OrderError + string :=
  let issues :=
    match opt_truthy excludeId with
    | Some ex => filter (fun i => negb (String.eqb (id i) (padStart0 4 ex))) openIssues
    | None => openIssues
    end in
  if opt_first options then
    match issues with
    | [] => gen None None
    | i0 :: _ => gen None (order_of i0)
    end
  else if opt_last options then
    match issues with
    | [] => gen None None
    | _ => gen (last_order issues) None
    end
  else match opt_truthy (opt_after options) with
  | Some after =>
      let targetId := padStart0 4 after in
      match findIndex (fun i => String.eqb (id i) targetId) issues with
      | None => inl (NotFound (not_found_msg after "after"))
      | Some idx =>
          let afterOrder := match nth_error issues idx with
                            | Some i => order_of i | None => None end in
          let nextOrder := match nth_error issues (S idx) with
                           | Some i => order_of i | None => None end in
          gen afterOrder nextOrder
      end
  | None =>
  match opt_truthy (opt_before options) with
  | Some before =>
      let targetId := padStart0 4 before in
      match findIndex (fun i => String.eqb (id i) targetId) issues with
      | None => inl (NotFound (not_found_msg before "before"))
      | Some idx =>
          let beforeOrder := match nth_error issues idx with
                             | Some i => order_of i | None => None end in
          let prevOrder := match idx with
                           | 0 => None
                           | S p => match nth_error issues p with
                                    | Some i => order_of i | None => None end
                           end in
          gen prevOrder beforeOrder
      end
  | None =>
      match issues with
      | [] => gen None None
      | _ => gen (last_order issues) None
      end
  end
  end.

End ComputeOrderKey.

(** *** The key generator's contract

    [generateKeyBetween] comes from the [fractional-indexing] package,
    outside this repository. The package documents (and §4.2 of the spec
    requires) that for valid keys [lo < hi], either bound possibly absent
    (unbounded), it returns a valid key strictly between them. Results
    about [computeOrderKey] hold for every generator with this contract. *)

Definition above (lo : option string) (k : string) : bool :=
  match lo with Some a => str_ltb a k | None => true end.

Definition below (k : string) (hi : option string) : bool :=
  match hi with Some b => str_ltb k b | None => true end.

Definition opt_valid (valid_key : string -> bool) (o : option string) : bool :=
  match o with Some k => valid_key k | None => true end.

Definition bounds_ordered (lo hi : option string) : bool :=
  match lo, hi with Some a, Some b => str_ltb a b | _, _ => true end.

Definition KeyGenContract (valid_key : string -> bool)
    (g : option string -> option string -> option string) : Prop :=
  forall lo hi,
    opt_valid valid_key lo = true -> opt_valid valid_key hi = true ->
    bounds_ordered lo hi = true ->
    exists k, g lo hi = Some k /\ valid_key k = true /\
              above lo k = true /\ below k hi = true.

(** *** A concrete generator with the contract

    Modelled from the spec: the key generation of §4.2 ("keys are strings
    over a defined ordered alphabet ... a new key k can always be produced
    with lo < k < hi"), standing in for the package's [generateKeyBetween]
    where a concrete run is needed. Keys are non-empty base-62 digit
    strings not ending in the smallest digit ["0"]; like the package, it
    throws ([None]) on invalid or unordered bounds. *)
Module FracModel.

Definition digit62 (c : ascii) : bool :=
  let n := nat_of_ascii c in
  (Nat.leb 48 n && Nat.leb n 57) || (Nat.leb 65 n && Nat.leb n 90)
  || (Nat.leb 97 n && Nat.leb n 122).

Fixpoint valid_key (s : string) : bool :=
  match s with
  | EmptyString => false
  | String c EmptyString => digit62 c && negb (Ascii.eqb c "0")
  | String c r => digit62 c && valid_key r
  end.

Fixpoint str_drop (n : nat) (s : string) : string :=
  match n, s with
  | 0, _ => s
  | S n', String _ s' => str_drop n' s'
  | S _, EmptyString => EmptyString
  end.

Definition generateKeyBetween (lo hi : option string) : option string :=
  if negb (opt_valid valid_key lo && opt_valid valid_key hi
           && bounds_ordered lo hi) then None
  else match lo, hi with
  | None, None => Some "V"
  | Some a, None => Some (a +++ "V")
  | None, Some b => Some ("0" +++ b)
  | Some a, Some b =>
      if startsWith b a then Some (a +++ "0" +++ str_drop (String.length a) b)
      else Some (a +++ "V")
  end.

End FracModel.

(* ------------------------------------------------------------------ *)
(** ** The roadmap: open issues sorted by order *)

(** The orders of a list of issues, when every one is defined. *)
Fixpoint orders (l : list Issue) : option (list string) :=
  match l with
  | [] => Some []
  | i :: r =>
      match order_of i, orders r with
      | Some k, Some ks => Some (k :: ks)
      | _, _ => None
      end
  end.

(** Valid keys, each strictly below the next. *)
Fixpoint chain (valid_key : string -> bool) (ks : list string) : bool :=
  match ks with
  | [] => true
  | [k] => valid_key k
  | k :: ((k' :: _) as r) => valid_key k && str_ltb k k' && chain valid_key r
  end.

(** The roadmap invariant of §3: every issue has a valid order, and the
    orders strictly increase along the list. *)
Definition roadmap_ok (valid_key : string -> bool) (l : list Issue) : bool :=
  match orders l with Some ks => chain valid_key ks | None => false end.

(** The comparator of [getAllIssues]: ordered issues first, by order,
    then by id. *)
Definition roadmap_cmp (a b : Issue) : comparison :=
  match order_of a, order_of b with
  | Some oa, Some ob => if str_ltb oa ob then Lt else if str_ltb ob oa then Gt else Eq
  | Some _, None => Lt
  | None, Some _ => Gt
  | None, None =>
      if str_ltb (id a) (id b) then Lt else if str_ltb (id b) (id a) then Gt else Eq
  end.

(** A positioning request and the options object the CLI passes for it. *)
Inductive Position := PFirst | PLast | PAfter (t : string) | PBefore (t : string).

Definition pos_options (p : Position) : PositionOptions :=
  match p with
  | PFirst => mkPos None None true false
  | PLast => mkPos None None false true
  | PAfter t => mkPos None (Some t) false false
  | PBefore t => mkPos (Some t) None false false
  end.

Definition target_index (l : list Issue) (t : string) : option nat :=
  findIndex (fun i => String.eqb (id i) (padStart0 4 t)) l.

(** The intended place of the new issue: first, last, right after or
    right before the target. *)
Definition intended_index (l : list Issue) (p : Position) : option nat :=
  match p with
  | PFirst => Some 0
  | PLast => Some (length l)
  | PAfter t => option_map S (target_index l t)
  | PBefore t => target_index l t
  end.

Definition place (l : list Issue) (p : Position) (x : Issue) : list Issue :=
  match intended_index l p with
  | Some n => firstn n l ++ x :: skipn n l
  | None => l
  end.

Definition request_ok (p : Position) : bool :=
  match p with PAfter t | PBefore t => truthy t | _ => true end.

(** A new open issue holding order key [k]. *)
Definition roadmap_issue (nid k : string) : Issue :=
  mkIssue nid (nid +++ ".md") (<["order" := k]> {["status" := "open"]}) "".

Section Roadmap.
Variable generateKeyBetween : option string -> option string -> option string.

(** One insertion: compute the key for the request, and put the new issue
    at its intended place; a failed request changes nothing. The keys
    produced are collected in insertion order. *)
Fixpoint roadmap_run (l : list Issue) (reqs : list (Position * string))
    : list Issue * list string :=
  match reqs with
  | [] => (l, [])
  | (p, nid) :: rest =>
      match computeOrderKey generateKeyBetween l (pos_options p) None with
      | inr k =>
          let '(lf, ks) := roadmap_run (place l p (roadmap_issue nid k)) rest in
          (lf, k :: ks)
      | inl _ => roadmap_run l rest
      end
  end.

End Roadmap.

Example fracmodel_between :
  FracModel.generateKeyBetween (Some "a1") (Some "a2") = Some "a1V" /\
  FracModel.generateKeyBetween (Some "a1") (Some "a1V") = Some "a10V" /\
  FracModel.generateKeyBetween None (Some "a1") = Some "0a1".
Proof. vm_compute. repeat split. Qed.

Example run_after_three :
  snd (roadmap_run FracModel.generateKeyBetween
         [roadmap_issue "0001" "a1"; roadmap_issue "0002" "a2"]
         [(PAfter "1", "0003"); (PAfter "1", "0004"); (PFirst, "0005")])
  = ["a1V"; "a10V"; "0a1"].
Proof. vm_compute. reflexivity. Qed.

(* ------------------------------------------------------------------ *)
(** ** Lemmas on the string order *)

Module StrOrder.

Lemma ascii_eqb_refl (c : ascii) : Ascii.eqb c c = true.
Proof. apply Ascii.eqb_eq. reflexivity. Qed.

Lemma str_app_nil_r (s : string) : s +++ "" = s.
Proof. induction s as [|c s IH]; [done | simpl; by rewrite IH]. Qed.

Lemma str_app_assoc (a b c : string) : (a +++ b) +++ c = a +++ b +++ c.
Proof. induction a as [|x a IH]; [done | simpl; by rewrite IH]. Qed.

Lemma str_ltb_cons (x y : ascii) (xs ys : string) :
  str_ltb (String x xs) (String y ys) = true <->
  nat_of_ascii x < nat_of_ascii y \/ (x = y /\ str_ltb xs ys = true).
Proof.
  simpl. destruct (Nat.ltb_spec (nat_of_ascii x) (nat_of_ascii y)) as [Hl|Hl].
  - split; [by left | done].
  - destruct (Ascii.eqb_spec x y) as [->|Hne].
    + split; [by right | intros [H|[_ H]]; [lia | done]].
    + split; [done | intros [H|[H _]]; [lia | done]].
Qed.

Lemma str_ltb_irrefl (a : string) : str_ltb a a = false.
Proof.
  induction a as [|c a IH]; [done |]. simpl.
  rewrite Nat.ltb_irrefl, ascii_eqb_refl. exact IH.
Qed.

Lemma str_ltb_trans (a b c : string) :
  str_ltb a b = true -> str_ltb b c = true -> str_ltb a c = true.
Proof.
  revert b c. induction a as [|x a IH]; intros b c Hab Hbc.
  - destruct b; [done |]. destruct c; done.
  - destruct b as [|y b]; [done |]. destruct c as [|z c]; [done |].
    apply str_ltb_cons in Hab, Hbc. apply str_ltb_cons.
    destruct Hab as [Hab|[-> Hab]], Hbc as [Hbc|[-> Hbc]].
    + left. lia.
    + by left.
    + by left.
    + right. split; [done | by eapply IH].
Qed.

Lemma str_ltb_asym (a b : string) : str_ltb a b = true -> str_ltb b a = false.
Proof.
  intros H. destruct (str_ltb b a) eqn:E; [| done].
  pose proof (str_ltb_trans _ _ _ H E) as Hc. by rewrite str_ltb_irrefl in Hc.
Qed.

Lemma str_ltb_prefix (a s : string) : s <> "" -> str_ltb a (a +++ s) = true.
Proof.
  intros Hs. induction a as [|c a IH]; simpl.
  - by destruct s.
  - rewrite Nat.ltb_irrefl, ascii_eqb_refl. exact IH.
Qed.

Lemma str_ltb_app_same (a x y : string) : str_ltb (a +++ x) (a +++ y) = str_ltb x y.
Proof.
  induction a as [|c a IH]; simpl; [done |].
  rewrite Nat.ltb_irrefl, ascii_eqb_refl. exact IH.
Qed.

Lemma str_ltb_extend (a b s : string) :
  str_ltb a b = true -> startsWith b a = false -> str_ltb (a +++ s) b = true.
Proof.
  revert b. induction a as [|x a IH]; intros b Hab Hpre.
  - simpl in Hpre. discriminate.
  - destruct b as [|y b]; [done |].
    apply str_ltb_cons in Hab. simpl in Hpre.
    destruct Hab as [Hl|[-> Hab]].
    + simpl. by rewrite (proj2 (Nat.ltb_lt _ _) Hl).
    + rewrite ascii_eqb_refl in Hpre. simpl.
      rewrite Nat.ltb_irrefl, ascii_eqb_refl. by apply IH.
Qed.

Lemma startsWith_drop (a b : string) :
  startsWith b a = true -> b = a +++ FracModel.str_drop (String.length a) b.
Proof.
  revert b. induction a as [|x a IH]; intros b H; [done |].
  destruct b as [|y b]; [done |]. simpl in H.
  apply andb_prop in H as [Hxy H]. apply Ascii.eqb_eq in Hxy as ->.
  simpl. rewrite <- (IH b H). reflexivity.
Qed.

End StrOrder.

Import StrOrder.

(** *** The concrete generator meets the contract *)
Module FracModelProofs.
Import FracModel.

Lemma valid_key_nonempty (s : string) : valid_key s = true -> s <> "".
Proof. by destruct s. Qed.

Lemma valid_key_cons (c : ascii) (r : string) :
  r <> "" -> valid_key (String c r) = digit62 c && valid_key r.
Proof. intros Hr. destruct r; [done | reflexivity]. Qed.

Lemma digit62_ge_zero (c : ascii) :
  digit62 c = true -> 48 <= nat_of_ascii c.
Proof.
  unfold digit62. intros H.
  repeat (apply orb_prop in H as [H|H]); apply andb_prop in H as [H _];
    apply Nat.leb_le in H; lia.
Qed.

Lemma nat_of_ascii_zero (c : ascii) : nat_of_ascii c = 48 -> c = "0"%char.
Proof.
  intros H. rewrite <- (ascii_nat_embedding c), H. reflexivity.
Qed.

(** Prefixing the smallest digit lowers a valid key. *)
Lemma zero_prefix_below (b : string) :
  valid_key b = true -> str_ltb ("0" +++ b) b = true.
Proof.
  induction b as [|c r IH]; intros Hb; [done |].
  apply str_ltb_cons.
  destruct r as [|c' r'].
  - simpl in Hb. apply andb_prop in Hb as [Hd Hz].
    pose proof (digit62_ge_zero c Hd).
    destruct (decide (nat_of_ascii c = 48)) as [E|E].
    + apply nat_of_ascii_zero in E as ->. by rewrite ascii_eqb_refl in Hz.
    + left. change (48 < nat_of_ascii c). lia.
  - rewrite valid_key_cons in Hb by done. apply andb_prop in Hb as [Hd Hr].
    pose proof (digit62_ge_zero c Hd).
    destruct (decide (nat_of_ascii c = 48)) as [E|E].
    + apply nat_of_ascii_zero in E as ->. right. split; [done |]. by apply IH.
    + left. change (48 < nat_of_ascii c). lia.
Qed.

Lemma valid_key_app (a s : string) :
  valid_key a = true -> valid_key s = true -> valid_key (a +++ s) = true.
Proof.
  intros Ha Hs. induction a as [|c a IH]; [done |].
  destruct a as [|c' a'].
  - simpl in Ha. apply andb_prop in Ha as [Hd _].
    change ("" +++ s) with s. change (String c "" +++ s) with (String c s).
    rewrite valid_key_cons by (by apply valid_key_nonempty).
    by rewrite Hd, Hs.
  - rewrite valid_key_cons in Ha by done. apply andb_prop in Ha as [Hd Ha].
    change (String c (String c' a') +++ s) with (String c (String c' a' +++ s)).
    rewrite valid_key_cons.
    + rewrite Hd. by apply IH.
    + done.
Qed.

Lemma valid_key_suffix (a d : string) :
  d <> "" -> valid_key (a +++ d) = true -> valid_key d = true.
Proof.
  intros Hd. induction a as [|c a IH]; [done |]. intros H.
  change (String c a +++ d) with (String c (a +++ d)) in H.
  rewrite valid_key_cons in H.
  - apply andb_prop in H as [_ H]. by apply IH.
  - destruct a; [done | discriminate].
Qed.

Lemma generateKeyBetween_contract : KeyGenContract valid_key generateKeyBetween.
Proof.
  intros lo hi Hlo Hhi Hord. unfold generateKeyBetween.
  rewrite Hlo, Hhi, Hord. simpl.
  destruct lo as [a|], hi as [b|]; simpl in *.
  - destruct (startsWith b a) eqn:Hpre.
    + pose proof (startsWith_drop a b Hpre) as Eb.
      set (d := str_drop (String.length a) b) in *.
      assert (Hd : d <> "").
      { intros E. rewrite E in Eb. rewrite str_app_nil_r in Eb.
        subst b. by rewrite str_ltb_irrefl in Hord. }
      assert (Hvd : valid_key d = true) by (rewrite Eb in Hhi; by eapply valid_key_suffix).
      exists (a +++ "0" +++ d). split; [done |]. split; [| split].
      * apply valid_key_app; [done |].
        change ("0" +++ d) with (String "0" d).
        rewrite valid_key_cons by done. by rewrite Hvd.
      * apply str_ltb_prefix. done.
      * rewrite Eb. rewrite str_ltb_app_same.
        by apply zero_prefix_below.
    + exists (a +++ "V"). split; [done |]. split; [| split].
      * by apply valid_key_app.
      * by apply str_ltb_prefix.
      * by apply str_ltb_extend.
  - exists (a +++ "V"). split; [done |]. split; [| split].
    + by apply valid_key_app.
    + by apply str_ltb_prefix.
    + done.
  - exists ("0" +++ b). split; [done |]. split; [| split].
    + change ("0" +++ b) with (String "0" b).
      rewrite valid_key_cons by (by apply valid_key_nonempty). by rewrite Hhi.
    + done.
    + by apply zero_prefix_below.
  - exists "V". done.
Qed.

End FracModelProofs.

(* ------------------------------------------------------------------ *)
(** ** The roadmap invariant under insertions *)

Definition order_at (l : list Issue) (n : nat) : option string :=
  match nth_error l n with Some i => order_of i | None => None end.

Definition prev_order (l : list Issue) (n : nat) : option string :=
  match n with 0 => None | S m => order_at l m end.

Module RoadmapLemmas.

Lemma orders_order_at (l : list Issue) (ks : list string) (n : nat) :
  orders l = Some ks -> order_at l n = nth_error ks n.
Proof.
  revert ks n. induction l as [|i l IH]; intros ks n H; simpl in H.
  - injection H as <-. unfold order_at. by destruct n.
  - destruct (order_of i) eqn:Ei; [| done].
    destruct (orders l) as [ks'|] eqn:El; [| done]. injection H as <-.
    destruct n as [|n]; unfold order_at; simpl; [done |]. by apply IH.
Qed.

Lemma orders_length (l : list Issue) (ks : list string) :
  orders l = Some ks -> length l = length ks.
Proof.
  revert ks. induction l as [|i l IH]; intros ks H; simpl in H.
  - by injection H as <-.
  - destruct (order_of i); [| done].
    destruct (orders l) as [ks'|] eqn:El; [| done]. injection H as <-.
    simpl. f_equal. by apply IH.
Qed.

Lemma orders_insert (l : list Issue) (ks : list string) (n : nat) (x : Issue) (k : string) :
  orders l = Some ks -> order_of x = Some k ->
  orders (firstn n l ++ x :: skipn n l) = Some (firstn n ks ++ k :: skipn n ks).
Proof.
  revert ks n. induction l as [|i l IH]; intros ks n H Hx; simpl in H.
  - injection H as <-. destruct n; simpl; by rewrite Hx.
  - destruct (order_of i) as [ki|] eqn:Ei; [| done].
    destruct (orders l) as [ks'|] eqn:El; [| done]. injection H as <-.
    destruct n as [|n]; simpl.
    + by rewrite Hx, Ei, El.
    + rewrite Ei. by rewrite (IH ks' n eq_refl Hx).
Qed.

Lemma chain_cons (v : string -> bool) (a : string) (r : list string) :
  chain v (a :: r) =
  v a && match r with [] => true | b :: _ => str_ltb a b end && chain v r.
Proof. destruct r; simpl; [by rewrite !andb_true_r | reflexivity]. Qed.

Lemma chain_nth_valid (v : string -> bool) (ks : list string) (n : nat) (k : string) :
  chain v ks = true -> nth_error ks n = Some k -> v k = true.
Proof.
  revert n. induction ks as [|a ks IH]; intros n H Hn; [by destruct n |].
  rewrite chain_cons in H. apply andb_prop in H as [H Hr].
  apply andb_prop in H as [Ha _].
  destruct n as [|n]; simpl in Hn; [by injection Hn as <- | by eapply IH].
Qed.

Lemma chain_nth_lt (v : string -> bool) (ks : list string) (n : nat) (a b : string) :
  chain v ks = true -> nth_error ks n = Some a -> nth_error ks (S n) = Some b ->
  str_ltb a b = true.
Proof.
  revert n. induction ks as [|c ks IH]; intros n H Ha Hb; [by destruct n |].
  rewrite chain_cons in H. apply andb_prop in H as [H Hr].
  apply andb_prop in H as [_ Hc].
  destruct n as [|n]; simpl in Ha, Hb.
  - injection Ha as <-. destruct ks as [|d ks]; [done |]. simpl in Hb.
    by injection Hb as <-.
  - by eapply IH.
Qed.

Lemma chain_insert (v : string -> bool) (ks : list string) (n : nat) (k : string) :
  chain v ks = true -> v k = true -> n <= length ks ->
  above (match n with 0 => None | S m => nth_error ks m end) k = true ->
  below k (nth_error ks n) = true ->
  chain v (firstn n ks ++ k :: skipn n ks) = true.
Proof.
  revert n. induction ks as [|a ks IH]; intros n Hc Hk Hn Hlo Hhi.
  - simpl in Hn. assert (n = 0) as -> by lia. simpl. done.
  - destruct n as [|n].
    + simpl in Hhi |- *. rewrite Hk, Hhi. simpl. exact Hc.
    + rewrite chain_cons in Hc. apply andb_prop in Hc as [Hc Hr].
      apply andb_prop in Hc as [Ha Hab].
      change (firstn (S n) (a :: ks)) with (a :: firstn n ks).
      change (skipn (S n) (a :: ks)) with (skipn n ks).
      rewrite <- app_comm_cons, chain_cons, Ha. simpl.
      apply andb_true_intro. split.
      * destruct n as [|n]; simpl.
        -- exact Hlo.
        -- destruct ks as [|b ks]; [simpl in Hn; lia |]. exact Hab.
      * apply IH; [done | done | simpl in Hn; lia | | exact Hhi].
        destruct n as [|n]; [done |]. exact Hlo.
Qed.

Lemma findIndex_some {A} (p : A -> bool) (l : list A) (i : nat) :
  findIndex p l = Some i -> exists x, nth_error l i = Some x /\ p x = true.
Proof.
  revert i. induction l as [|y l IH]; intros i H; simpl in H; [done |].
  destruct (p y) eqn:Ey.
  - injection H as <-. by exists y.
  - destruct (findIndex p l) as [j|] eqn:Ej; simpl in H; [| done].
    injection H as <-. simpl. by apply IH.
Qed.

Lemma findIndex_lt {A} (p : A -> bool) (l : list A) (i : nat) :
  findIndex p l = Some i -> i < length l.
Proof.
  intros H. apply findIndex_some in H as [x [Hx _]].
  apply nth_error_Some. by rewrite Hx.
Qed.

Lemma findIndex_prefix {A} (p : A -> bool) (l r : list A) (i : nat) :
  findIndex p l = Some i -> findIndex p (firstn (S i) l ++ r) = Some i.
Proof.
  revert i. induction l as [|y l IH]; intros i H; simpl in H; [done |].
  destruct (p y) eqn:Ey.
  - injection H as <-. simpl. by rewrite Ey.
  - destruct (findIndex p l) as [j|] eqn:Ej; simpl in H; [| done].
    injection H as <-. simpl. rewrite Ey. by rewrite (IH j eq_refl).
Qed.

End RoadmapLemmas.

Definition after_requests (t : string) (ids : list string) : list (Position * string) :=
  map (fun nid => (PAfter t, nid)) ids.

Section OrderKeyProofs.
Import RoadmapLemmas.

Variable valid_key : string -> bool.
Variable generateKeyBetween : option string -> option string -> option string.
Hypothesis Hgen : KeyGenContract valid_key generateKeyBetween.

Lemma contract_empty_invalid : valid_key "" = false.
Proof.
  destruct (valid_key "") eqn:E; [| done].
  destruct (Hgen None (Some "") eq_refl E eq_refl) as (k & _ & _ & _ & Hb).
  simpl in Hb. by destruct k.
Qed.

Lemma gen_between (lo hi : option string) :
  opt_valid valid_key lo = true -> opt_valid valid_key hi = true ->
  bounds_ordered lo hi = true ->
  exists k, gen generateKeyBetween lo hi = inr k /\ valid_key k = true /\
            above lo k = true /\ below k hi = true.
Proof.
  intros Hlo Hhi Ho. destruct (Hgen lo hi Hlo Hhi Ho) as (k & Hk & Hv & Ha & Hb).
  exists k. unfold gen. by rewrite Hk.
Qed.

Lemma roadmap_orders (l : list Issue) :
  roadmap_ok valid_key l = true ->
  exists ks, orders l = Some ks /\ chain valid_key ks = true.
Proof.
  unfold roadmap_ok. destruct (orders l) as [ks|]; [| done]. intros H. by exists ks.
Qed.

Lemma adjacent_bounds (l : list Issue) (n : nat) :
  roadmap_ok valid_key l = true ->
  opt_valid valid_key (prev_order l n) = true /\
  opt_valid valid_key (order_at l n) = true /\
  bounds_ordered (prev_order l n) (order_at l n) = true.
Proof.
  intros H. destruct (roadmap_orders l H) as (ks & Ho & Hc).
  assert (Hv : forall m, opt_valid valid_key (order_at l m) = true).
  { intros m. rewrite (orders_order_at _ _ m Ho).
    destruct (nth_error ks m) eqn:E; [| done]. simpl. by eapply chain_nth_valid. }
  split; [| split; [apply Hv |]].
  - destruct n; [done | apply Hv].
  - destruct n as [|m]; [done |]. simpl.
    rewrite !(orders_order_at _ _ _ Ho).
    destruct (nth_error ks m) eqn:Ea, (nth_error ks (S m)) eqn:Eb; try done.
    by eapply chain_nth_lt.
Qed.

Lemma last_order_at (l : list Issue) :
  last_order l = order_at l (pred (length l)).
Proof.
  unfold last_order, order_at. induction l as [|x l IH]; [done |].
  destruct l as [|y l]; [done |]. exact IH.
Qed.

Lemma cok_first (l : list Issue) :
  computeOrderKey generateKeyBetween l (pos_options PFirst) None =
  gen generateKeyBetween (prev_order l 0) (order_at l 0).
Proof. by destruct l. Qed.

Lemma cok_last (l : list Issue) :
  computeOrderKey generateKeyBetween l (pos_options PLast) None =
  gen generateKeyBetween (prev_order l (length l)) (order_at l (length l)).
Proof.
  destruct l as [|x r]; [done |].
  unfold computeOrderKey. simpl opt_truthy. cbv iota beta. simpl opt_first.
  simpl opt_last. cbv iota.
  rewrite last_order_at. unfold order_at at 2. simpl length.
  rewrite (proj2 (nth_error_None (x :: r) (S (length r)))) by (simpl; lia).
  reflexivity.
Qed.

Lemma cok_after (l : list Issue) (t : string) :
  truthy t = true ->
  computeOrderKey generateKeyBetween l (pos_options (PAfter t)) None =
  match target_index l t with
  | None => inl (NotFound (not_found_msg t "after"))
  | Some idx => gen generateKeyBetween (order_at l idx) (order_at l (S idx))
  end.
Proof. destruct t as [|c t]; [done |]. intros _. reflexivity. Qed.

Lemma cok_before (l : list Issue) (t : string) :
  truthy t = true ->
  computeOrderKey generateKeyBetween l (pos_options (PBefore t)) None =
  match target_index l t with
  | None => inl (NotFound (not_found_msg t "before"))
  | Some idx => gen generateKeyBetween (prev_order l idx) (order_at l idx)
  end.
Proof.
  destruct t as [|c t]; [done |]. intros _. unfold computeOrderKey. simpl.
  unfold target_index. destruct (findIndex _ l) as [[|m]|]; reflexivity.
Qed.

(** Every request whose target exists yields a valid key strictly between
    the neighbours of its intended place; a missing target is [NotFound]. *)
Lemma computeOrderKey_intended (l : list Issue) (p : Position) :
  roadmap_ok valid_key l = true -> request_ok p = true ->
  match intended_index l p with
  | Some n => exists k,
      computeOrderKey generateKeyBetween l (pos_options p) None = inr k /\
      valid_key k = true /\ above (prev_order l n) k = true /\
      below k (order_at l n) = true
  | None => exists msg,
      computeOrderKey generateKeyBetween l (pos_options p) None = inl (NotFound msg)
  end.
Proof.
  intros Hl Hp.
  destruct p as [| |t|t]; simpl intended_index.
  - rewrite cok_first. destruct (adjacent_bounds l 0 Hl) as (H1 & H2 & H3).
    by apply gen_between.
  - rewrite cok_last. destruct (adjacent_bounds l (length l) Hl) as (H1 & H2 & H3).
    by apply gen_between.
  - simpl in Hp. rewrite (cok_after l t Hp).
    destruct (target_index l t) as [idx|]; simpl; [| by eexists].
    destruct (adjacent_bounds l (S idx) Hl) as (H1 & H2 & H3).
    by apply gen_between.
  - simpl in Hp. rewrite (cok_before l t Hp).
    destruct (target_index l t) as [idx|]; [| by eexists].
    destruct (adjacent_bounds l idx Hl) as (H1 & H2 & H3).
    by apply gen_between.
Qed.

Lemma intended_index_le (l : list Issue) (p : Position) (n : nat) :
  intended_index l p = Some n -> n <= length l.
Proof.
  destruct p as [| |t|t]; simpl; intros H.
  - injection H as <-. lia.
  - injection H as <-. lia.
  - destruct (target_index l t) as [i|] eqn:E; simpl in H; [| done].
    injection H as <-. apply findIndex_lt in E. lia.
  - apply findIndex_lt in H. lia.
Qed.

Lemma order_of_roadmap_issue (nid k : string) :
  valid_key k = true -> order_of (roadmap_issue nid k) = Some k.
Proof.
  intros Hk. unfold order_of, fm_field, roadmap_issue. simpl.
  rewrite lookup_insert_eq. simpl.
  destruct k; [by rewrite contract_empty_invalid in Hk | reflexivity].
Qed.

Lemma place_roadmap_ok (l : list Issue) (p : Position) (n : nat) (nid k : string) :
  roadmap_ok valid_key l = true -> intended_index l p = Some n ->
  valid_key k = true -> above (prev_order l n) k = true ->
  below k (order_at l n) = true ->
  roadmap_ok valid_key (place l p (roadmap_issue nid k)) = true.
Proof.
  intros Hl Hn Hk Ha Hb. destruct (roadmap_orders l Hl) as (ks & Ho & Hc).
  unfold place. rewrite Hn. unfold roadmap_ok.
  rewrite (orders_insert l ks n _ k Ho (order_of_roadmap_issue nid k Hk)).
  apply chain_insert; [done | done | | |].
  - rewrite <- (orders_length l ks Ho). by eapply intended_index_le.
  - destruct n as [|m]; [done |]. simpl in Ha.
    by rewrite <- (orders_order_at l ks m Ho).
  - by rewrite <- (orders_order_at l ks n Ho).
Qed.

Lemma roadmap_run_ok (l : list Issue) (reqs : list (Position * string)) :
  roadmap_ok valid_key l = true -> Forall (fun r => request_ok r.1 = true) reqs ->
  roadmap_ok valid_key (fst (roadmap_run generateKeyBetween l reqs)) = true.
Proof.
  revert l. induction reqs as [|[p nid] rest IH]; intros l Hl Hreq; [done |].
  inversion Hreq as [|? ? Hp Hrest]; subst. simpl in Hp.
  pose proof (computeOrderKey_intended l p Hl Hp) as Hspec.
  simpl. destruct (computeOrderKey generateKeyBetween l (pos_options p) None)
    as [e|k] eqn:Ec.
  - by apply IH.
  - destruct (intended_index l p) as [n|] eqn:Hn.
    + destruct Hspec as (k' & Hk' & Hv & Ha & Hb).
      injection Hk' as <-.
      destruct (roadmap_run generateKeyBetween (place l p (roadmap_issue nid k)) rest)
        as [lf ks] eqn:Er.
      simpl. change lf with (fst (lf, ks)). rewrite <- Er.
      apply IH; [| done]. by eapply place_roadmap_ok.
    + destruct Hspec as [msg Hm]. discriminate Hm.
Qed.

Lemma sort_roadmap_cmp_id (l : list Issue) :
  roadmap_ok valid_key l = true -> sort roadmap_cmp l = l.
Proof.
  induction l as [|x r IH]; intros Hl; [done |].
  assert (Hr : roadmap_ok valid_key r = true).
  { unfold roadmap_ok in *. simpl in Hl.
    destruct (order_of x), (orders r) as [ks|]; try done.
    rewrite chain_cons in Hl. by apply andb_prop in Hl as [_ ?]. }
  simpl. rewrite (IH Hr).
  destruct r as [|y r']; [done |].
  unfold roadmap_ok in Hl. simpl in Hl.
  destruct (order_of x) as [kx|] eqn:Ex; [| done].
  destruct (order_of y) as [ky|] eqn:Ey; [| done].
  destruct (orders r') as [ks|]; [| done].
  simpl in Hl. apply andb_prop in Hl as [Hl _]. apply andb_prop in Hl as [_ Hxy].
  simpl sort_insert. unfold roadmap_cmp. rewrite Ex, Ey, Hxy. reflexivity.
Qed.

Lemma order_at_defined (l : list Issue) (n : nat) :
  roadmap_ok valid_key l = true -> n < length l ->
  exists a, order_at l n = Some a.
Proof.
  intros Hl Hn. destruct (roadmap_orders l Hl) as (ks & Ho & _).
  rewrite (orders_order_at l ks n Ho).
  destruct (nth_error ks n) as [a|] eqn:E; [by exists a |].
  apply nth_error_None in E. rewrite <- (orders_length l ks Ho) in E. lia.
Qed.

Lemma roadmap_run_cons (l : list Issue) (p : Position) (nid : string)
    (rest : list (Position * string)) :
  roadmap_run generateKeyBetween l ((p, nid) :: rest) =
  match computeOrderKey generateKeyBetween l (pos_options p) None with
  | inr k =>
      let '(lf, ks) := roadmap_run generateKeyBetween (place l p (roadmap_issue nid k)) rest in
      (lf, k :: ks)
  | inl _ => roadmap_run generateKeyBetween l rest
  end.
Proof. reflexivity. Qed.

Lemma place_after_shape (l : list Issue) (t : string) (idx : nat) (x : Issue) :
  target_index l t = Some idx ->
  place l (PAfter t) x = firstn (S idx) l ++ x :: skipn (S idx) l.
Proof. intros H. unfold place. simpl. by rewrite H. Qed.

(** Inserting one issue after another, over and over: every key lands
    above the target, below the issue that followed it, and each new key
    below the previous one (it goes right after the target, in front of
    the last inserted issue). *)
Lemma after_run_keys (l : list Issue) (t : string) (idx : nat) (a : string)
    (ids : list string) :
  roadmap_ok valid_key l = true -> truthy t = true ->
  target_index l t = Some idx -> order_at l idx = Some a ->
  let ks := snd (roadmap_run generateKeyBetween l (after_requests t ids)) in
  length ks = length ids /\ Forall (fun k => str_ltb a k = true) ks /\
  Forall (fun k => below k (order_at l (S idx)) = true) ks /\
  StronglySorted (fun x y => str_ltb y x = true) ks.
Proof.
  revert l. induction ids as [|nid ids IH]; intros l Hl Ht Hi Ha.
  - simpl. repeat split; constructor.
  - pose proof (computeOrderKey_intended l (PAfter t) Hl Ht) as Hspec.
    unfold intended_index in Hspec. rewrite Hi in Hspec. cbn [option_map] in Hspec.
    destruct Hspec as (k & Hk & Hv & Hab & Hbe).
    unfold prev_order in Hab. rewrite Ha in Hab. simpl in Hab.
    change (after_requests t (nid :: ids)) with ((PAfter t, nid) :: after_requests t ids).
    rewrite roadmap_run_cons, Hk.
    set (l' := place l (PAfter t) (roadmap_issue nid k)).
    assert (Hl' : roadmap_ok valid_key l' = true).
    { eapply place_roadmap_ok; [exact Hl | | exact Hv | | exact Hbe].
      - simpl. by rewrite Hi.
      - simpl. by rewrite Ha. }
    assert (Hlen : idx < length l) by (eapply findIndex_lt; exact Hi).
    assert (Hfirst : length (firstn (S idx) l) = S idx)
      by (rewrite length_firstn; lia).
    assert (Hshape : l' = firstn (S idx) l ++ roadmap_issue nid k :: skipn (S idx) l)
      by (apply place_after_shape; exact Hi).
    assert (Hi' : target_index l' t = Some idx).
    { unfold target_index. rewrite Hshape. by apply findIndex_prefix. }
    assert (Ha' : order_at l' idx = Some a).
    { unfold order_at. rewrite Hshape, nth_error_app1 by lia.
      rewrite <- (nth_error_app1 _ (skipn (S idx) l)) by lia.
      rewrite firstn_skipn. exact Ha. }
    assert (Hk' : order_at l' (S idx) = Some k).
    { unfold order_at. rewrite Hshape, nth_error_app2 by lia.
      rewrite Hfirst, Nat.sub_diag. simpl. by apply order_of_roadmap_issue. }
    destruct (IH l' Hl' Ht Hi' Ha') as (Hlen' & Hgt & Hbel & Hss).
    destruct (roadmap_run generateKeyBetween l' (after_requests t ids)) as [lf ks].
    simpl in *. rewrite Hk' in Hbel. simpl in Hbel.
    split; [by rewrite Hlen' |].
    split; [by constructor |].
    split; [constructor; [exact Hbe |] | constructor; [exact Hss |]].
    + rewrite Forall_forall in *. intros y Hy. specialize (Hbel y Hy).
      destruct (order_at l (S idx)) as [b|]; [| done]. simpl in *.
      by eapply str_ltb_trans.
    + exact Hbel.
Qed.

Lemma ssorted_nodup (ks : list string) :
  StronglySorted (fun x y => str_ltb y x = true) ks -> NoDup ks.
Proof.
  induction 1 as [|k ks _ IH Hall]; constructor; [| exact IH].
  intros Hin. rewrite Forall_forall in Hall. specialize (Hall k Hin).
  by rewrite str_ltb_irrefl in Hall.
Qed.

End OrderKeyProofs.

(* ------------------------------------------------------------------ *)
(** ** Frontmatter (issues.ts: parseFrontmatter, yamlQuote, yamlUnquote,
    generateFrontmatter) *)

Definition LF : ascii := "010"%char.
Definition DQ : ascii := "034"%char.
Definition BS : ascii := "092"%char.
Definition SQ : ascii := "039"%char.

Definition NL : string := String LF EmptyString.
Definition DQs : string := String DQ EmptyString.
Definition SQs : string := String SQ EmptyString.

(** [s.slice(n)] for [n >= 0] *)
Fixpoint slice_from (n : nat) (s : string) : string :=
  match n, s with
  | 0, _ => s
  | S n', String _ s' => slice_from n' s'
  | S _, EmptyString => EmptyString
  end.

(** [s.endsWith(p)] *)
Definition endsWith (s p : string) : bool :=
  Nat.leb (String.length p) (String.length s) &&
  String.eqb (substring (String.length s - String.length p) (String.length p) s) p.

(** [s.indexOf(c)] for a one-character [c], with [-1] as [None]. *)
Fixpoint index_of (c : ascii) (s : string) : option nat :=
  match s with
  | EmptyString => None
  | String d s' => if Ascii.eqb c d then Some 0 else option_map S (index_of c s')
  end.

(** [s.split(sep)] for a one-character separator. *)
Fixpoint split_on (sep : ascii) (s : string) : list string :=
  match s with
  | EmptyString => [EmptyString]
  | String c s' =>
      if Ascii.eqb c sep then EmptyString :: split_on sep s'
      else match split_on sep s' with
           | h :: t => String c h :: t
           | [] => [String c EmptyString]
           end
  end.

(** The character class of [yamlQuote]'s regular expression: colon, hash,
    square brackets, braces, ampersand, star, bang, bar, greater-than,
    single and double quote, percent, at sign, backtick, comma, newline. *)
Definition yaml_special (c : ascii) : bool :=
  existsb (Ascii.eqb c)
    [":"; "#"; "["; "]"; "{"; "}"; "&"; "*"; "!"; "|"; ">"; SQ; DQ; "%"; "@";
     "`"; ","; LF]%char.

Fixpoint has_special (s : string) : bool :=
  match s with
  | EmptyString => false
  | String c s' => yaml_special c || has_special s'
  end.

(** [value.replace(/\\/g, '\\\\')] *)
Fixpoint escape_backslash (s : string) : string :=
  match s with
  | EmptyString => EmptyString
  | String c s' =>
      if Ascii.eqb c BS then String BS (String BS (escape_backslash s'))
      else String c (escape_backslash s')
  end.

(** [.replace] of every double quote by backslash, double quote. *)
Fixpoint escape_quote (s : string) : string :=
  match s with
  | EmptyString => EmptyString
  | String c s' =>
      if Ascii.eqb c DQ then String BS (String DQ (escape_quote s'))
      else String c (escape_quote s')
  end.

(** [inner.replace] of every backslash, double quote pair by a double
    quote: one scan, left to right. *)
Fixpoint unescape_quote (s : string) : string :=
  match s with
  | EmptyString => EmptyString
  | String c r =>
      if Ascii.eqb c BS then
        match r with
        | String d r' =>
            if Ascii.eqb d DQ then String DQ (unescape_quote r')
            else String c (unescape_quote r)
        | EmptyString => String c EmptyString
        end
      else String c (unescape_quote r)
  end.

(** [.replace(/\\\\/g, '\\')]: each pair of backslashes, left to right. *)
Fixpoint unescape_backslash (s : string) : string :=
  match s with
  | EmptyString => EmptyString
  | String c r =>
      if Ascii.eqb c BS then
        match r with
        | String d r' =>
            if Ascii.eqb d BS then String BS (unescape_backslash r')
            else String c (unescape_backslash r)
        | EmptyString => String c EmptyString
        end
      else String c (unescape_backslash r)
  end.

Definition yamlQuote (value : string) : string :=
  if has_special value || negb (String.eqb value (trim value)) then
    let escaped := escape_quote (escape_backslash value) in
    DQs +++ escaped +++ DQs
  else value.

Definition yamlUnquote (value : string) : string :=
  if (startsWith value DQs && endsWith value DQs) ||
     (startsWith value SQs && endsWith value SQs) then
    let inner := substring 1 (String.length value - 2) value in
    if startsWith value DQs then unescape_backslash (unescape_quote inner)
    else inner
  else value.

(** The regular expression of [parseFrontmatter]: an opening fence line
    [---], then a lazy group that ends at the first newline, [---],
    newline ([FENCE_CLOSE]), then the body up to the end. *)
Definition FENCE_CLOSE : string := NL +++ "---" +++ NL.

Fixpoint split_close (s : string) : option (string * string) :=
  if startsWith s FENCE_CLOSE then Some (EmptyString, slice_from 5 s)
  else match s with
       | EmptyString => None
       | String c s' =>
           match split_close s' with
           | Some (a, b) => Some (String c a, b)
           | None => None
           end
       end.

Definition match_frontmatter (content : string) : option (string * string) :=
  if startsWith content ("---" +++ NL) then split_close (slice_from 4 content)
  else None.

(** One line of the frontmatter block, added to the object under
    construction. *)
Definition parse_line (fm : gmap string string) (line : string) : gmap string string :=
  match index_of ":" line with
  | Some (S _ as colonIdx) =>
      let key := trim (substring 0 colonIdx line) in
      let rawValue := trim (slice_from (S colonIdx) line) in
      let value := if String.eqb key "title" then yamlUnquote rawValue else rawValue in
      <[key := value]> fm
  | _ => fm
  end.

(** [parseFrontmatter]: the frontmatter object and the body. *)
Definition parseFrontmatter (content : string) : gmap string string * string :=
  match match_frontmatter content with
  | None => (∅, content)
  | Some (frontmatterStr, body) =>
      (fold_left parse_line (split_on LF frontmatterStr) ∅, body)
  end.

(** [IssueFrontmatter]: an optional field is [None] when undefined. *)
Record IssueFrontmatter := mkFrontmatter {
  fm_title : string;
  fm_priority : string;
  fm_scope : option string;
  fm_type : string;
  fm_labels : option string;
  fm_status : string;
  fm_order : option string;
  fm_created : string;
  fm_updated : option string
}.

(** [if (data.k) lines.push(`k: ${data.k}`)] *)
Definition opt_line (k : string) (o : option string) : list string :=
  match o with
  | Some v => if truthy v then [k +++ ": " +++ v] else []
  | None => []
  end.

Definition generateFrontmatter (data : IssueFrontmatter) : string :=
  String.concat NL
    (["---"; "title: " +++ yamlQuote (fm_title data);
      "priority: " +++ fm_priority data]
     ++ opt_line "scope" (fm_scope data)
     ++ ["type: " +++ fm_type data]
     ++ opt_line "labels" (fm_labels data)
     ++ ["status: " +++ fm_status data]
     ++ opt_line "order" (fm_order data)
     ++ ["created: " +++ fm_created data]
     ++ opt_line "updated" (fm_updated data)
     ++ ["---"]).

(** The structured values of a record, field by field: the frontmatter
    object the record stands for. *)
Definition opt_entry (k : string) (o : option string) : list (string * string) :=
  match o with Some v => [(k, v)] | None => [] end.

Definition fm_entries (d : IssueFrontmatter) : list (string * string) :=
  [("title", fm_title d); ("priority", fm_priority d)]
  ++ opt_entry "scope" (fm_scope d)
  ++ [("type", fm_type d)]
  ++ opt_entry "labels" (fm_labels d)
  ++ [("status", fm_status d)]
  ++ opt_entry "order" (fm_order d)
  ++ [("created", fm_created d)]
  ++ opt_entry "updated" (fm_updated d).

Definition fm_record_map (d : IssueFrontmatter) : gmap string string :=
  list_to_map (fm_entries d).

Fixpoint no_nl (s : string) : bool :=
  match s with
  | EmptyString => true
  | String c s' => negb (Ascii.eqb c LF) && no_nl s'
  end.

(** A field value a frontmatter line carries unchanged: one line, no
    surrounding whitespace. *)
Definition plain_value (v : string) : bool := no_nl v && String.eqb (trim v) v.

Definition opt_plain (o : option string) : bool :=
  match o with Some v => truthy v && plain_value v | None => true end.

(** Records the serialisation round-trips: a one-line title; the other
    fields plain, the optional ones non-empty when present. *)
Definition roundtrip_ok (d : IssueFrontmatter) : bool :=
  no_nl (fm_title d) && plain_value (fm_priority d) && opt_plain (fm_scope d)
  && plain_value (fm_type d) && opt_plain (fm_labels d)
  && plain_value (fm_status d) && opt_plain (fm_order d)
  && plain_value (fm_created d) && opt_plain (fm_updated d).

Module FrontmatterLemmas.

Lemma ascii_eqb_sym (a b : ascii) : Ascii.eqb a b = Ascii.eqb b a.
Proof.
  destruct (Ascii.eqb a b) eqn:E, (Ascii.eqb b a) eqn:F; try done.
  - apply Ascii.eqb_eq in E. subst. by rewrite ascii_eqb_refl in F.
  - apply Ascii.eqb_eq in F. subst. by rewrite ascii_eqb_refl in E.
Qed.

Lemma str_length_app (a b : string) :
  String.length (a +++ b) = String.length a + String.length b.
Proof. induction a as [|c a IH]; [done | simpl; by rewrite IH]. Qed.

Lemma substring_prefix (a b : string) : substring 0 (String.length a) (a +++ b) = a.
Proof. induction a as [|c a IH]; [by destruct b | simpl; by rewrite IH]. Qed.

Lemma substring_app_r (a b : string) (m n : nat) :
  substring (String.length a + m) n (a +++ b) = substring m n b.
Proof. induction a as [|c a IH]; [done | exact IH]. Qed.

Lemma slice_from_app (a b : string) (n : nat) :
  slice_from (String.length a + n) (a +++ b) = slice_from n b.
Proof. induction a as [|c a IH]; [done | exact IH]. Qed.

Lemma startsWith_app (p s : string) : startsWith (p +++ s) p = true.
Proof. induction p as [|c p IH]; [done | simpl; by rewrite ascii_eqb_refl, IH]. Qed.

Lemma no_nl_app (a b : string) : no_nl (a +++ b) = no_nl a && no_nl b.
Proof. induction a as [|c a IH]; [done | simpl; by rewrite IH, andb_assoc]. Qed.

Lemma eqb_DQ_BS : Ascii.eqb DQ BS = false.
Proof. reflexivity. Qed.

Lemma eqb_BS_DQ : Ascii.eqb BS DQ = false.
Proof. reflexivity. Qed.

(** The first character of an escaped string is never a lone quote. *)
Lemma escape_quote_head (r : string) :
  match escape_quote r with String d _ => Ascii.eqb d DQ = false | EmptyString => True end.
Proof.
  destruct r as [|c r]; [done |]. simpl.
  destruct (Ascii.eqb c DQ) eqn:E; [exact eqb_BS_DQ | exact E].
Qed.

Lemma unescape_quote_cons (c : ascii) (x : string) :
  match x with String d _ => Ascii.eqb d DQ = false | EmptyString => True end ->
  unescape_quote (String c x) = String c (unescape_quote x).
Proof.
  intros H. simpl. destruct (Ascii.eqb c BS); [| done].
  destruct x as [|d r]; [done |]. by rewrite H.
Qed.

Lemma unescape_escape_quote (t : string) : unescape_quote (escape_quote t) = t.
Proof.
  induction t as [|c r IH]; [done |]. cbn [escape_quote].
  destruct (Ascii.eqb c DQ) eqn:Ec.
  - apply Ascii.eqb_eq in Ec. subst c. cbn [unescape_quote].
    by rewrite !ascii_eqb_refl, IH.
  - rewrite unescape_quote_cons by apply escape_quote_head. by rewrite IH.
Qed.

Lemma unescape_escape_backslash (s : string) :
  unescape_backslash (escape_backslash s) = s.
Proof.
  induction s as [|c r IH]; [done |]. cbn [escape_backslash].
  destruct (Ascii.eqb c BS) eqn:Ec.
  - apply Ascii.eqb_eq in Ec. subst c. cbn [unescape_backslash].
    by rewrite !ascii_eqb_refl, IH.
  - cbn [unescape_backslash]. by rewrite Ec, IH.
Qed.

(** [yamlUnquote]'s unescaping undoes [yamlQuote]'s escaping. *)
Lemma unescape_escape (s : string) :
  unescape_backslash (unescape_quote (escape_quote (escape_backslash s))) = s.
Proof. by rewrite unescape_escape_quote, unescape_escape_backslash. Qed.

Lemma no_nl_escape_backslash (s : string) : no_nl (escape_backslash s) = no_nl s.
Proof.
  induction s as [|c r IH]; [done |]. cbn [escape_backslash].
  destruct (Ascii.eqb c BS) eqn:Ec; simpl; rewrite IH; [| done].
  apply Ascii.eqb_eq in Ec. by subst c.
Qed.

Lemma no_nl_escape_quote (s : string) : no_nl (escape_quote s) = no_nl s.
Proof.
  induction s as [|c r IH]; [done |]. cbn [escape_quote].
  destruct (Ascii.eqb c DQ) eqn:Ec; simpl; rewrite IH; [| done].
  apply Ascii.eqb_eq in Ec. by subst c.
Qed.

Lemma no_nl_yamlQuote (t : string) : no_nl t = true -> no_nl (yamlQuote t) = true.
Proof.
  intros H. unfold yamlQuote. destruct (_ || _); [| exact H].
  rewrite !no_nl_app, no_nl_escape_quote, no_nl_escape_backslash, H. reflexivity.
Qed.

(** [s.trim()] and a reversed string. *)
Lemma list_ascii_of_string_app (a b : string) :
  list_ascii_of_string (a +++ b) = list_ascii_of_string a ++ list_ascii_of_string b.
Proof. induction a as [|c a IH]; [done | simpl; by rewrite IH]. Qed.

Lemma rev_str_snoc (s : string) (c : ascii) :
  rev_str (s +++ String c EmptyString) = String c (rev_str s).
Proof.
  unfold rev_str. rewrite list_ascii_of_string_app. simpl.
  rewrite rev_unit. reflexivity.
Qed.

Lemma rev_str_involutive (s : string) : rev_str (rev_str s) = s.
Proof.
  unfold rev_str. rewrite list_ascii_of_string_of_list_ascii, rev_involutive.
  apply string_of_list_ascii_of_string.
Qed.

Lemma trimEnd_snoc (s : string) (c : ascii) :
  is_ws c = false -> trimEnd (s +++ String c EmptyString) = s +++ String c EmptyString.
Proof.
  intros Hc. unfold trimEnd. rewrite rev_str_snoc. simpl. rewrite Hc.
  rewrite <- rev_str_snoc. apply rev_str_involutive.
Qed.

Lemma trim_space (v : string) : trim (String " " v) = trim v.
Proof. reflexivity. Qed.

(** A field's own text after [": "], trimmed, gives back the title. *)
Lemma yamlQuote_trim (t : string) : trim (yamlQuote t) = yamlQuote t.
Proof.
  unfold yamlQuote. destruct (has_special t || negb (String.eqb t (trim t))) eqn:E.
  - unfold trim. change (DQs +++ ?x) with (String DQ x). simpl trimStart.
    change (String DQ (?x +++ DQs)) with (String DQ x +++ DQs).
    apply trimEnd_snoc. reflexivity.
  - apply orb_false_elim in E as [_ E]. apply negb_false_iff, String.eqb_eq in E.
    by rewrite <- E.
Qed.

Lemma special_not_head (t : string) (c : ascii) :
  yaml_special c = true -> has_special t = false ->
  startsWith t (String c EmptyString) = false.
Proof.
  intros Hc Ht. destruct t as [|d t]; [done |]. simpl in *.
  apply orb_false_elim in Ht as [Hd _].
  destruct (Ascii.eqb c d) eqn:E; [| done].
  apply Ascii.eqb_eq in E. subst. by rewrite Hc in Hd.
Qed.

Lemma endsWith_snoc (s : string) (c : ascii) :
  endsWith (s +++ String c EmptyString) (String c EmptyString) = true.
Proof.
  unfold endsWith. rewrite str_length_app. simpl String.length.
  replace (String.length s + 1 - 1) with (String.length s + 0) by lia.
  rewrite substring_app_r. simpl. rewrite ascii_eqb_refl.
  rewrite Nat.add_1_r. reflexivity.
Qed.

(** [yamlUnquote] inverts [yamlQuote], for every title. *)
Lemma yamlUnquote_yamlQuote (t : string) : yamlUnquote (yamlQuote t) = t.
Proof.
  unfold yamlQuote. destruct (has_special t || negb (String.eqb t (trim t))) eqn:E.
  - set (e := escape_quote (escape_backslash t)).
    unfold yamlUnquote.
    assert (Hs : startsWith (DQs +++ e +++ DQs) DQs = true) by apply startsWith_app.
    assert (He : endsWith (DQs +++ e +++ DQs) DQs = true).
    { rewrite <- str_app_assoc. apply endsWith_snoc. }
    rewrite Hs, He. simpl orb. cbv iota.
    change (DQs +++ e +++ DQs) with (String DQ (e +++ DQs)).
    simpl String.length. rewrite str_length_app. simpl String.length.
    replace (S (String.length e + 1) - 2) with (String.length e) by lia.
    simpl substring. rewrite substring_prefix. apply unescape_escape.
  - apply orb_false_elim in E as [E _].
    unfold yamlUnquote, DQs, SQs.
    rewrite (special_not_head t DQ eq_refl E), (special_not_head t SQ eq_refl E).
    reflexivity.
Qed.

(** Frontmatter lines: [key: value]. *)
Definition key_ok (k : string) : bool :=
  match k with String c _ => negb (Ascii.eqb c "-") | EmptyString => false end
  && no_nl k && String.eqb (trim k) k
  && match index_of ":" k with None => true | Some _ => false end.

Definition line_of (kv : string * string) : string :=
  kv.1 +++ ": " +++ (if String.eqb kv.1 "title" then yamlQuote kv.2 else kv.2).

Definition line_ok (l : string) : bool :=
  no_nl l && match l with String c _ => negb (Ascii.eqb c "-") | EmptyString => false end.

Definition value_ok (kv : string * string) : Prop :=
  if String.eqb kv.1 "title" then no_nl kv.2 = true else plain_value kv.2 = true.

Lemma index_of_app_colon (k r : string) :
  index_of ":" k = None -> index_of ":" (k +++ String ":" r) = Some (String.length k).
Proof.
  induction k as [|c k IH]; intros H; [done |].
  cbn [index_of String.append String.length] in *.
  destruct (Ascii.eqb ":" c); [done |].
  destruct (index_of ":" k); [discriminate H |]. by rewrite IH.
Qed.

Lemma parse_line_kv (m : gmap string string) (k v : string) :
  key_ok k = true ->
  parse_line m (k +++ ": " +++ v) =
  <[k := if String.eqb k "title" then yamlUnquote (trim v) else trim v]> m.
Proof.
  intros Hk. unfold key_ok in Hk.
  destruct k as [|c k']; [done |].
  apply andb_prop in Hk as [Hk Hcolon]. apply andb_prop in Hk as [Hk Htrim].
  apply String.eqb_eq in Htrim.
  destruct (index_of ":" (String c k')) eqn:Ei; [done |].
  set (k := String c k') in *.
  unfold parse_line. change (": " +++ v) with (String ":" (String " " v)).
  rewrite (index_of_app_colon k _ Ei).
  change (String.length k) with (S (String.length k')). cbv beta iota.
  change (S (String.length k')) with (String.length k).
  rewrite substring_prefix, Htrim.
  replace (S (String.length k)) with (String.length k + 1) by lia.
  rewrite slice_from_app. simpl slice_from. rewrite trim_space. reflexivity.
Qed.

Lemma parse_line_of (m : gmap string string) (kv : string * string) :
  key_ok kv.1 = true -> value_ok kv ->
  parse_line m (line_of kv) = <[kv.1 := kv.2]> m.
Proof.
  destruct kv as [k v]. cbn [fst snd]. intros Hk Hv.
  unfold line_of, value_ok in *. cbn [fst snd] in *.
  rewrite parse_line_kv by exact Hk.
  destruct (String.eqb k "title").
  - by rewrite yamlQuote_trim, yamlUnquote_yamlQuote.
  - unfold plain_value in Hv. apply andb_prop in Hv as [_ Hv].
    apply String.eqb_eq in Hv. by rewrite Hv.
Qed.

Lemma line_of_ok (kv : string * string) :
  key_ok kv.1 = true -> value_ok kv -> line_ok (line_of kv) = true.
Proof.
  destruct kv as [k v]. unfold key_ok, line_ok, line_of, value_ok. simpl.
  intros Hk Hv. destruct k as [|c k']; [done |].
  apply andb_prop in Hk as [Hk _]. apply andb_prop in Hk as [Hk _].
  apply andb_prop in Hk as [Hc Hnl].
  apply andb_true_intro. split; [| exact Hc].
  rewrite !no_nl_app, Hnl. change (no_nl ": ") with true. cbn [andb].
  destruct (String.eqb _ "title").
  - by apply no_nl_yamlQuote.
  - unfold plain_value in Hv. by apply andb_prop in Hv as [Hv _].
Qed.

(** [split('\n')] of lines joined by ['\n']. *)
Lemma split_on_app_nonl (a s h : string) (t : list string) :
  no_nl a = true -> split_on LF s = h :: t -> split_on LF (a +++ s) = (a +++ h) :: t.
Proof.
  induction a as [|c a IH]; intros Ha Hs; [exact Hs |].
  simpl in Ha. apply andb_prop in Ha as [Hc Ha]. apply negb_true_iff in Hc.
  simpl. rewrite Hc, (IH Ha Hs). reflexivity.
Qed.

Lemma split_on_concat (ls : list string) :
  ls <> [] -> Forall (fun l => no_nl l = true) ls ->
  split_on LF (String.concat NL ls) = ls.
Proof.
  induction ls as [|l ls IH]; intros Hne Hall; [done |].
  inversion Hall as [|? ? Hl Hrest]; subst.
  destruct ls as [|l2 rest].
  - simpl. pose proof (split_on_app_nonl l EmptyString EmptyString [] Hl eq_refl) as H.
    by rewrite !str_app_nil_r in H.
  - change (String.concat NL (l :: l2 :: rest))
      with (l +++ String LF (String.concat NL (l2 :: rest))).
    rewrite (split_on_app_nonl l _ EmptyString (l2 :: rest) Hl).
    + by rewrite str_app_nil_r.
    + cbn [split_on]. rewrite ascii_eqb_refl. by rewrite IH.
Qed.

Lemma concat_cons_nonnil (x : string) (l : list string) :
  l <> [] -> String.concat NL (x :: l) = x +++ NL +++ String.concat NL l.
Proof. by destruct l. Qed.

Lemma concat_snoc (ls : list string) (x : string) :
  ls <> [] -> String.concat NL (ls ++ [x]) = String.concat NL ls +++ NL +++ x.
Proof.
  induction ls as [|l ls IH]; intros Hne; [done |].
  destruct ls as [|l2 rest]; [reflexivity |].
  change ((l :: l2 :: rest) ++ [x]) with (l :: ((l2 :: rest) ++ [x])).
  rewrite (concat_cons_nonnil l ((l2 :: rest) ++ [x])) by (by destruct rest).
  rewrite IH by (intros ?; discriminate).
  rewrite (concat_cons_nonnil l (l2 :: rest)) by (intros ?; discriminate).
  by rewrite !str_app_assoc.
Qed.

(** The lazy split at the closing fence. *)
Lemma split_close_eq (s : string) :
  split_close s =
  if startsWith s FENCE_CLOSE then Some (EmptyString, slice_from 5 s)
  else match s with
       | EmptyString => None
       | String c s' =>
           match split_close s' with
           | Some (a, b) => Some (String c a, b)
           | None => None
           end
       end.
Proof. by destruct s. Qed.

Lemma split_close_app_nonl (a s : string) :
  no_nl a = true ->
  split_close (a +++ s) =
  match split_close s with Some (x, b) => Some (a +++ x, b) | None => None end.
Proof.
  induction a as [|c a IH]; intros Ha.
  - change (EmptyString +++ s) with s. by destruct (split_close s) as [[x b]|].
  - simpl in Ha. apply andb_prop in Ha as [Hc Ha]. apply negb_true_iff in Hc.
    change (String c a +++ s) with (String c (a +++ s)).
    rewrite split_close_eq.
    replace (startsWith (String c (a +++ s)) FENCE_CLOSE) with false
      by (unfold FENCE_CLOSE, NL; cbn [startsWith String.append];
          by rewrite ascii_eqb_sym, Hc).
    rewrite (IH Ha). by destruct (split_close s) as [[x b]|].
Qed.

Lemma split_close_fence (body : string) :
  split_close (FENCE_CLOSE +++ body) = Some (EmptyString, body).
Proof.
  rewrite split_close_eq, startsWith_app.
  change 5 with (String.length FENCE_CLOSE + 0). by rewrite slice_from_app.
Qed.

Lemma split_close_lines (ls : list string) (body : string) :
  ls <> [] -> Forall (fun l => line_ok l = true) ls ->
  split_close (String.concat NL ls +++ FENCE_CLOSE +++ body)
  = Some (String.concat NL ls, body).
Proof.
  induction ls as [|l ls IH]; intros Hne Hall; [done |].
  inversion Hall as [|? ? Hl Hrest]; subst.
  unfold line_ok in Hl. apply andb_prop in Hl as [Hnl Hhead].
  destruct ls as [|l2 rest].
  - simpl String.concat. rewrite split_close_app_nonl, split_close_fence by done.
    by rewrite str_app_nil_r.
  - rewrite (concat_cons_nonnil l) by done. rewrite !str_app_assoc.
    rewrite split_close_app_nonl by done.
    inversion Hrest as [|? ? Hl2 _]; subst.
    unfold line_ok in Hl2. apply andb_prop in Hl2 as [_ Hc2].
    destruct l2 as [|c2 l2']; [done |].
    assert (Hw : exists w, String.concat NL (String c2 l2' :: rest) +++ FENCE_CLOSE +++ body
                           = String c2 w).
    { destruct rest; simpl; eexists; reflexivity. }
    destruct Hw as [w Hw].
    change (NL +++ ?x) with (String LF x). rewrite split_close_eq.
    replace (startsWith (String LF (String.concat NL (String c2 l2' :: rest)
               +++ FENCE_CLOSE +++ body)) FENCE_CLOSE) with false.
    + rewrite (IH ltac:(done) Hrest). reflexivity.
    + rewrite Hw. unfold FENCE_CLOSE, NL. cbn [startsWith String.append].
      apply negb_true_iff in Hc2. by rewrite ascii_eqb_refl, (ascii_eqb_sym "-" c2), Hc2.
Qed.

(** The loop over the lines builds the object field by field. *)
Lemma fold_parse_lines (es acc : list (string * string)) :
  NoDup ((acc ++ es).*1) ->
  Forall (fun kv => key_ok kv.1 = true /\ value_ok kv) es ->
  fold_left parse_line (map line_of es) (list_to_map acc : gmap string string)
  = list_to_map (acc ++ es).
Proof.
  revert acc. induction es as [|[k v] es IH]; intros acc Hnd Hall.
  - by rewrite app_nil_r.
  - inversion Hall as [|? ? [Hk Hv] Hrest]; subst. simpl.
    rewrite (parse_line_of _ (k, v) Hk Hv). simpl.
    pose proof Hnd as Hnd'.
    rewrite fmap_app in Hnd. simpl in Hnd.
    apply NoDup_app in Hnd as (_ & Hdis & _).
    rewrite <- list_to_map_snoc.
    2: { intros Hin. apply (Hdis k Hin). left. }
    replace (acc ++ (k, v) :: es) with ((acc ++ [(k, v)]) ++ es)
      by (by rewrite <- app_assoc).
    apply IH; [| exact Hrest].
    by rewrite <- app_assoc.
Qed.

Ltac split_andb :=
  repeat match goal with
  | H : _ && _ = true |- _ => apply andb_prop in H as [? ?]
  end.

Lemma fm_entries_values (d : IssueFrontmatter) :
  roundtrip_ok d = true ->
  Forall (fun kv => key_ok kv.1 = true /\ value_ok kv) (fm_entries d).
Proof.
  destruct d as [t p sc ty lb st o c u]. unfold roundtrip_ok. cbn [fm_title fm_priority
    fm_scope fm_type fm_labels fm_status fm_order fm_created fm_updated].
  intros H. split_andb.
  destruct sc, lb, o, u; unfold opt_plain in *; split_andb;
    repeat constructor; assumption.
Qed.

Lemma fm_entries_nodup (d : IssueFrontmatter) : NoDup ((fm_entries d).*1).
Proof.
  destruct d as [t p sc ty lb st o c u].
  destruct sc, lb, o, u; apply (bool_decide_unpack _); vm_compute; reflexivity.
Qed.

Lemma opt_line_entry (k : string) (o : option string) :
  String.eqb k "title" = false -> opt_plain o = true ->
  opt_line k o = map line_of (opt_entry k o).
Proof.
  intros Hk Ho. destruct o as [v|]; [| done].
  simpl in Ho. apply andb_prop in Ho as [Ht _].
  unfold opt_line, line_of. simpl. by rewrite Ht, Hk.
Qed.

(** The lines [generateFrontmatter] writes between its fences. *)
Lemma generateFrontmatter_lines (d : IssueFrontmatter) :
  roundtrip_ok d = true ->
  generateFrontmatter d =
  String.concat NL ("---" :: map line_of (fm_entries d) ++ ["---"]).
Proof.
  intros H.
  destruct d as [t p sc ty lb st o c u]. unfold roundtrip_ok in H. cbn [fm_title
    fm_priority fm_scope fm_type fm_labels fm_status fm_order fm_created fm_updated] in H.
  split_andb. unfold generateFrontmatter, fm_entries. cbn [fm_title fm_priority
    fm_scope fm_type fm_labels fm_status fm_order fm_created fm_updated].
  rewrite (opt_line_entry "scope" sc), (opt_line_entry "labels" lb),
    (opt_line_entry "order" o), (opt_line_entry "updated" u)
    by (reflexivity || assumption).
  rewrite !map_app, <- !app_assoc. reflexivity.
Qed.

End FrontmatterLemmas.

(* ------------------------------------------------------------------ *)
(** ** Query language (query-parser.ts) *)

Record ParsedQuery := mkParsed {
  qualifiers : gmap string string;
  searchText : string
}.

Definition SUPPORTED_QUALIFIERS : list string :=
  ["is"; "priority"; "type"; "label"; "sort"].

(** The loop state of [tokenizeQuery]; [quoteChar = ''] is [None]. *)
Record TokState := mkTok {
  tokens : list string;
  currentToken : string;
  inQuotes : bool;
  quoteChar : option ascii
}.

Definition is_quoteChar (st : TokState) (c : ascii) : bool :=
  match quoteChar st with Some q => Ascii.eqb c q | None => false end.

(** One iteration of [tokenizeQuery]'s loop on the character [c]. *)
Definition tok_step (st : TokState) (c : ascii) : TokState :=
  if (Ascii.eqb c DQ || Ascii.eqb c SQ) && negb (inQuotes st) then
    mkTok (tokens st) (currentToken st) true (Some c)
  else if is_quoteChar st c && inQuotes st then
    mkTok (tokens st) (currentToken st) false None
  else if Ascii.eqb c " " && negb (inQuotes st) then
    if truthy (currentToken st) then
      mkTok (tokens st ++ [currentToken st]) "" (inQuotes st) (quoteChar st)
    else st
  else mkTok (tokens st) (currentToken st +++ String c EmptyString)
         (inQuotes st) (quoteChar st).

Fixpoint tokenize_from (st : TokState) (s : string) : TokState :=
  match s with
  | EmptyString => st
  | String c s' => tokenize_from (tok_step st c) s'
  end.

Definition tokenizeQuery (query : string) : list string :=
  let st := tokenize_from (mkTok [] "" false None) query in
  if truthy (currentToken st) then tokens st ++ [currentToken st] else tokens st.

(** One iteration of [parseQuery]'s loop: the qualifiers so far and the
    search-text parts so far. *)
Definition parse_token (acc : gmap string string * list string) (token : string)
    : gmap string string * list string :=
  let '(qualifiers, searchTextParts) := acc in
  match index_of ":" token with
  | Some colonIndex =>
      if Nat.ltb 0 colonIndex && Nat.ltb colonIndex (String.length token - 1) then
        let key := substring 0 colonIndex token in
        let value := slice_from (S colonIndex) token in
        if existsb (String.eqb key) SUPPORTED_QUALIFIERS
        then (<[key := value]> qualifiers, searchTextParts)
        else (qualifiers, searchTextParts ++ [token])
      else (qualifiers, searchTextParts ++ [token])
  | None => (qualifiers, searchTextParts ++ [token])
  end.

Definition parseQuery (query : string) : ParsedQuery :=
  if negb (truthy query) || negb (truthy (trim query)) then mkParsed ∅ ""
  else
    let '(qualifiers, searchTextParts) :=
      fold_left parse_token (tokenizeQuery query) (∅, []) in
    mkParsed qualifiers (trim (String.concat " " searchTextParts)).

(** The [is:], [priority:] and [type:] filters: a value outside [vals]
    is ignored; a valid value requires the field to equal it. *)
Definition qualifier_check (vals : list string) (q : option string)
    (actual : option string) : bool :=
  match q with
  | Some v =>
      if truthy v then
        let value := toLowerCase v in
        if existsb (String.eqb value) vals then
          match actual with Some a => String.eqb a value | None => false end
        else true
      else true
  | None => true
  end.

(** [o || d] for an optional string field. *)
Definition str_or (o : option string) (d : string) : string :=
  match o with Some s => if truthy s then s else d | None => d end.

(** The [label:] filter: a case-insensitive substring test. *)
Definition label_check (q : option string) (i : Issue) : bool :=
  match q with
  | Some v =>
      if truthy v then includes (toLowerCase (str_or (fm_field i "labels") ""))
                                (toLowerCase v)
      else true
  | None => true
  end.

(** The predicate of [issues.filter] in [filterByQuery]. *)
Definition qualifier_filter (q : gmap string string) (i : Issue) : bool :=
  qualifier_check ["open"; "closed"] (q !! "is") (fm_field i "status") &&
  qualifier_check ["high"; "medium"; "low"] (q !! "priority") (fm_field i "priority") &&
  qualifier_check ["bug"; "improvement"] (q !! "type") (fm_field i "type") &&
  label_check (q !! "label") i.

(** [priorityOrder[p] ?? 999]. A priority naming a member of
    [Object.prototype] is outside the model. *)
Definition priority_rank (p : option string) : nat :=
  match p with
  | Some s =>
      if String.eqb s "high" then 0 else if String.eqb s "medium" then 1
      else if String.eqb s "low" then 2 else 999
  | None => 999
  end.

Definition priority_cmp (a b : Issue) : comparison :=
  let priorityA := priority_rank (fm_field a "priority") in
  let priorityB := priority_rank (fm_field b "priority") in
  if negb (Nat.eqb priorityA priorityB) then Nat.compare priorityA priorityB
  else str_compare (id b) (id a).

Definition created_cmp (a b : Issue) : comparison :=
  let dateA := str_or (fm_field a "created") "" in
  let dateB := str_or (fm_field b "created") "" in
  if negb (String.eqb dateA dateB) then str_compare dateB dateA
  else str_compare (id b) (id a).

Definition created_asc_cmp (a b : Issue) : comparison :=
  let dateA := str_or (fm_field a "created") "" in
  let dateB := str_or (fm_field b "created") "" in
  if negb (String.eqb dateA dateB) then str_compare dateA dateB
  else str_compare (id a) (id b).

Definition updated_cmp (a b : Issue) : comparison :=
  let dateA := str_or (fm_field a "updated") (str_or (fm_field a "created") "") in
  let dateB := str_or (fm_field b "updated") (str_or (fm_field b "created") "") in
  if negb (String.eqb dateA dateB) then str_compare dateB dateA
  else str_compare (id b) (id a).

Definition id_cmp (a b : Issue) : comparison := str_compare (id b) (id a).

(** [sortIssues]: the array sorted in place, returned. *)
Definition sortIssues (issues : list Issue) (sortBy : string) : list Issue :=
  let sortOption := toLowerCase sortBy in
  if String.eqb sortOption "priority" then sort priority_cmp issues
  else if String.eqb sortOption "created" then sort created_cmp issues
  else if String.eqb sortOption "created-asc" then sort created_asc_cmp issues
  else if String.eqb sortOption "updated" then sort updated_cmp issues
  else if String.eqb sortOption "id" then sort id_cmp issues
  else sort priority_cmp issues.

(** [parsed.qualifiers.sort?.toLowerCase() || 'priority'] *)
Definition sort_of (parsed : ParsedQuery) : string :=
  match qualifiers parsed !! "sort" with
  | Some v => let s := toLowerCase v in if truthy s then s else "priority"
  | None => "priority"
  end.

Record IssueFilters := mkFilters {
  f_status : option string;
  f_priority : option string;
  f_scope : option string;
  f_type : option string;
  f_search : option string
}.

(** [if (filters.k && issue.frontmatter.k !== filters.k) return false] *)
Definition filter_field (f : option string) (actual : option string) : bool :=
  match f with
  | Some v =>
      if truthy v then match actual with Some a => String.eqb a v | None => false end
      else true
  | None => true
  end.

Definition filterIssues (issues : list Issue) (filters : IssueFilters) : list Issue :=
  List.filter (fun i =>
    filter_field (f_status filters) (fm_field i "status") &&
    filter_field (f_priority filters) (fm_field i "priority") &&
    filter_field (f_type filters) (fm_field i "type")) issues.

(** [normalizedId.startsWith(normalizedQuery) || issue.id.startsWith(query)] *)
Definition id_match (query : string) (i : Issue) : bool :=
  startsWith (stripLeadingZeros (id i)) (stripLeadingZeros query) ||
  startsWith (id i) query.

(** [set.has(x)] for a [Set] built from a list of strings. *)
Definition has_id (ids : list string) (x : string) : bool :=
  existsb (String.eqb x) ids.

(** [searchResults.find((r) => r.item.id === i.id)?.score ?? 1] *)
Definition score_of (searchResults : list (Issue * Q)) (i : Issue) : Q :=
  match List.find (fun r => String.eqb (id r.1) (id i)) searchResults with
  | Some r => r.2
  | None => 1%Q
  end.

Section Search.

(** [createSearchIndex(index).search(query)]: Fuse.js (a third-party
    library) returns matched items with their scores, lower is better. *)
Variable fuse_search : list Issue -> string -> list (Issue * Q).

(** The id-first composition shared by [filterByQuery] and
    [filterAndSearchIssues]: [index] is the collection the Fuse index is
    built over, [result] the issues that passed the filters. *)
Definition rank_matches (index result : list Issue) (query : string) : list Issue :=
  let idMatches := List.filter (id_match query) result in
  let searchResults := fuse_search index query in
  let matchedIds := map (fun r => id r.1) searchResults in
  let idMatchSet := map id idMatches in
  let nonIdMatches :=
    List.filter (fun i => negb (has_id idMatchSet (id i)) && has_id matchedIds (id i))
      result in
  idMatches ++
  sort (fun a b => Qcompare (score_of searchResults a) (score_of searchResults b))
    nonIdMatches.

Definition filterByQuery (issues : list Issue) (query : string) : list Issue :=
  let parsed := parseQuery query in
  let result := List.filter (qualifier_filter (qualifiers parsed)) issues in
  let result :=
    if negb (truthy (trim (searchText parsed)))
    then sortIssues result (sort_of parsed) else result in
  if truthy (trim (searchText parsed))
  then rank_matches result result (trim (searchText parsed))
  else result.

Definition filterAndSearchIssues (issues : list Issue) (filters : IssueFilters)
    : list Issue :=
  let result := filterIssues issues filters in
  match f_search filters with
  | Some s => if truthy (trim s) then rank_matches issues result (trim s) else result
  | None => result
  end.

End Search.

(* ------------------------------------------------------------------ *)
(** ** Issue store (issues.ts: getIssueIdFromFilename, getIssueFiles,
    getIssue, updateIssue) *)

(** [\d]: an ASCII digit. *)
Definition is_digit (c : ascii) : bool :=
  Nat.leb 48 (nat_of_ascii c) && Nat.leb (nat_of_ascii c) 57.

(** The leading run of digits of a string, and the rest. *)
Fixpoint take_digits (s : string) : string * string :=
  match s with
  | String c s' =>
      if is_digit c then let '(d, r) := take_digits s' in (String c d, r)
      else (EmptyString, s)
  | EmptyString => (EmptyString, EmptyString)
  end.

(** [s.replace(p, r)] with a string pattern: the first occurrence only. *)
Fixpoint replace_first (p r s : string) : string :=
  if startsWith s p then r +++ slice_from (String.length p) s
  else match s with
       | String c s' => String c (replace_first p r s')
       | EmptyString => EmptyString
       end.

(** [filename.match(/^(\d+)-/)]: the digits, else the name without
    [.md]. *)
Definition getIssueIdFromFilename (filename : string) : string :=
  let '(digits, rest) := take_digits filename in
  if truthy digits && startsWith rest "-" then digits
  else replace_first ".md" "" filename.

(** [/^\d{4}-/.test(f)] *)
Definition four_digits_dash (f : string) : bool :=
  match f with
  | String a (String b (String c (String d (String e _)))) =>
      is_digit a && is_digit b && is_digit c && is_digit d && Ascii.eqb e "-"
  | _ => false
  end.

Definition is_issue_file (f : string) : bool := endsWith f ".md" && four_digits_dash f.

(** The issues directory: its entries in [readdir] order, each with the
    text [readFile] returns for it. *)
Definition Dir := list (string * string).

Definition getIssueFiles (dir : Dir) : Dir :=
  List.filter (fun fc => is_issue_file fc.1) dir.

(** The predicate of [files.find] in [getIssue]. *)
Definition issue_file_matches (paddedId f : string) : bool :=
  startsWith f paddedId || String.eqb (getIssueIdFromFilename f) paddedId.

Definition getIssue (dir : Dir) (id : string) : option Issue :=
  let files := getIssueFiles dir in
  let paddedId := padStart0 4 id in
  match List.find (fun fc => issue_file_matches paddedId fc.1) files with
  | None => None
  | Some (file, text) =>
      let '(frontmatter, body) := parseFrontmatter text in
      Some (mkIssue (getIssueIdFromFilename file) file frontmatter body)
  end.

(** [writeFile(name, text)] *)
Definition write_file (dir : Dir) (name text : string) : Dir :=
  if existsb (fun fc => String.eqb fc.1 name) dir
  then map (fun fc => if String.eqb fc.1 name then (name, text) else fc) dir
  else dir ++ [(name, text)].

(** [UpdateIssueInput]: an omitted field is [None]. *)
Record UpdateIssueInput := mkUpdate {
  u_title : option string;
  u_description : option string;
  u_body : option string;
  u_priority : option string;
  u_scope : option string;
  u_type : option string;
  u_labels : option string;
  u_status : option string;
  u_order : option string
}.

(** [...(input.k && { k: input.k })] *)
Definition spread_if (k : string) (o : option string) (m : gmap string string)
    : gmap string string :=
  match o with
  | Some v => if truthy v then <[k := v]> m else m
  | None => m
  end.

(** [...(input.labels !== undefined && { labels: input.labels || undefined })]:
    a field bound to [undefined] reads as absent. *)
Definition spread_labels (o : option string) (m : gmap string string)
    : gmap string string :=
  match o with
  | Some v => if truthy v then <[("labels" : string) := v]> m else delete ("labels" : string) m
  | None => m
  end.

(** [updatedFrontmatter], [now] being [formatDate()]. *)
Definition updated_frontmatter (now : string) (fm : gmap string string)
    (input : UpdateIssueInput) : gmap string string :=
  <[("updated" : string) := now]>
  (spread_if "order" (u_order input)
  (spread_if "status" (u_status input)
  (spread_labels (u_labels input)
  (spread_if "type" (u_type input)
  (spread_if "scope" (u_scope input)
  (spread_if "priority" (u_priority input)
  (spread_if "title" (u_title input) fm))))))).

(** A template literal [`${x}`] of a field read from the object. *)
Definition undef_str (o : option string) : string :=
  match o with Some s => s | None => "undefined" end.

(** The object handed to [generateFrontmatter], read field by field;
    [yamlQuote(undefined)] throws, so a missing title is [None]. *)
Definition record_of (m : gmap string string) : option IssueFrontmatter :=
  match m !! "title" with
  | None => None
  | Some t =>
      Some (mkFrontmatter t (undef_str (m !! "priority")) (m !! "scope")
              (undef_str (m !! "type")) (m !! "labels")
              (undef_str (m !! "status")) (m !! "order")
              (undef_str (m !! "created")) (m !! "updated"))
  end.

Inductive UpdateError :=
  | IssueNotFound (msg : string)
  | TitleTypeError.

(** [updateIssue(id, input)]: the returned issue and the directory after
    the write. *)
Definition updateIssue (dir : Dir) (now : string) (id : string)
    (input : UpdateIssueInput) : UpdateError + (Issue * Dir) :=
  match getIssue dir id with
  | None => inl (IssueNotFound ("Issue not found: " +++ id))
  | Some (mkIssue issueId file frontmatter oldContent) =>
      let updatedFrontmatter := updated_frontmatter now frontmatter input in
      let updatedContent :=
        match u_body input with
        | Some body => NL +++ body +++ NL
        | None => oldContent
        end in
      match record_of updatedFrontmatter with
      | None => inl TitleTypeError
      | Some data =>
          let text := generateFrontmatter data +++ NL +++ updatedContent in
          inr (mkIssue issueId file updatedFrontmatter updatedContent,
               write_file dir file text)
      end
  end.

(* ------------------------------------------------------------------ *)
(** ** Issue store, continued (issues.ts: createSlug, getNextIssueNumber,
    getAllIssues, getOpenIssuesByOrder, getNextIssue, createIssue,
    closeIssue, reopenIssue, deleteIssue) *)

(** The class [[a-z0-9\s-]] of [createSlug]'s first replacement. *)
Definition slug_char (c : ascii) : bool :=
  let n := nat_of_ascii c in
  (Nat.leb 97 n && Nat.leb n 122) || is_digit c || is_ws c || Ascii.eqb c "-".

(** [.replace(/[^a-z0-9\s-]/g, '')] *)
Fixpoint remove_disallowed (s : string) : string :=
  match s with
  | EmptyString => EmptyString
  | String c s' => if slug_char c then String c (remove_disallowed s')
                   else remove_disallowed s'
  end.

(** [.replace(/p+/g, r)] for a one-character class [p]: every maximal
    run of characters of [p] becomes [r]; [inRun] says whether the
    previous character was in a run. *)
Fixpoint collapse_runs (p : ascii -> bool) (r : ascii) (inRun : bool) (s : string)
    : string :=
  match s with
  | EmptyString => EmptyString
  | String c s' =>
      if p c then
        if inRun then collapse_runs p r true s' else String r (collapse_runs p r true s')
      else String c (collapse_runs p r false s')
  end.

Definition is_dash (c : ascii) : bool := Ascii.eqb c "-".

Definition createSlug (title : string) : string :=
  substring 0 50
    (collapse_runs is_dash "-" false
      (collapse_runs is_ws "-" false
        (remove_disallowed (toLowerCase title)))).

(** The value of a run of decimal digits, read after [acc]. *)
Fixpoint digits_value (acc : Z) (s : string) : Z :=
  match s with
  | EmptyString => acc
  | String c s' => digits_value (10 * acc + (Z.of_nat (nat_of_ascii c) - 48))%Z s'
  end.

(** [parseInt(s, 10)], with [NaN] as [None]: leading white space, an
    optional sign, then the longest run of digits. *)
Definition parseInt10 (s : string) : option Z :=
  let s := trimStart s in
  let '(sign, rest) :=
    match s with
    | String "-" r => ((-1)%Z, r)
    | String "+" r => (1%Z, r)
    | _ => (1%Z, s)
    end in
  let '(digits, _) := take_digits rest in
  if truthy digits then Some (sign * digits_value 0 digits)%Z else None.

(** The decimal digits of a [Decimal.uint]. *)
Fixpoint uint_to_string (d : Decimal.uint) : string :=
  match d with
  | Decimal.Nil => EmptyString
  | Decimal.D0 d => String "0" (uint_to_string d)
  | Decimal.D1 d => String "1" (uint_to_string d)
  | Decimal.D2 d => String "2" (uint_to_string d)
  | Decimal.D3 d => String "3" (uint_to_string d)
  | Decimal.D4 d => String "4" (uint_to_string d)
  | Decimal.D5 d => String "5" (uint_to_string d)
  | Decimal.D6 d => String "6" (uint_to_string d)
  | Decimal.D7 d => String "7" (uint_to_string d)
  | Decimal.D8 d => String "8" (uint_to_string d)
  | Decimal.D9 d => String "9" (uint_to_string d)
  end.

(** [String(n)] for an integer [n]. *)
Definition String_of_Z (z : Z) : string :=
  match z with
  | Z0 => "0"
  | Zpos p => uint_to_string (Pos.to_uint p)
  | Zneg p => "-" +++ uint_to_string (Pos.to_uint p)
  end.

(** [getNextIssueNumber()]: [Math.max(...numbers, 0)] is the fold of
    [Z.max] from [0]. *)
Definition getNextIssueNumber (dir : Dir) : string :=
  match getIssueFiles dir with
  | [] => "0001"
  | files =>
      let numbers :=
        flat_map (fun fc => match parseInt10 (getIssueIdFromFilename fc.1) with
                            | Some n => [n]
                            | None => []
                            end) files in
      let max := fold_left Z.max numbers 0%Z in
      padStart0 4 (String_of_Z (max + 1)%Z)
  end.

(** The issue [getAllIssues] and [getIssue] build from one file. *)
Definition read_issue (fc : string * string) : Issue :=
  let '(file, text) := fc in
  let '(frontmatter, body) := parseFrontmatter text in
  mkIssue (getIssueIdFromFilename file) file frontmatter body.

(** [getAllIssues()]: the issue files in directory order, sorted by the
    roadmap comparator. *)
Definition getAllIssues (dir : Dir) : list Issue :=
  sort roadmap_cmp (map read_issue (getIssueFiles dir)).

Definition is_open (i : Issue) : bool :=
  match fm_field i "status" with Some s => String.eqb s "open" | None => false end.

Definition getOpenIssuesByOrder (dir : Dir) : list Issue :=
  List.filter is_open (getAllIssues dir).

(** [openIssues.length > 0 ? openIssues[0] : null] *)
Definition getNextIssue (dir : Dir) : option Issue :=
  match getOpenIssuesByOrder dir with
  | i :: _ => Some i
  | [] => None
  end.

(** [CreateIssueInput]: an omitted field is [None]. *)
Record CreateIssueInput := mkCreate {
  c_title : string;
  c_description : option string;
  c_body : option string;
  c_priority : option string;
  c_scope : option string;
  c_type : option string;
  c_labels : option string;
  c_order : option string
}.

Definition DEFAULT_BODY : string :=
  NL +++ "## Details" +++ NL +++ NL +++ "<!-- Add detailed description here -->" +++ NL.

(** [createIssue(input)]: the thrown message, or the returned issue and
    the directory after the write; [now] is [formatDate()]. *)
Definition createIssue (dir : Dir) (now : string) (input : CreateIssueInput)
    : string + (Issue * Dir) :=
  if negb (truthy (c_title input)) then inl "Title is required" else
  let priority := str_or (c_priority input) "medium" in
  let scope := c_scope input in
  let type := str_or (c_type input) "improvement" in
  if negb (existsb (String.eqb priority) ["high"; "medium"; "low"]) then
    inl "Priority must be: high, medium, or low" else
  if match scope with
     | Some s => truthy s && negb (existsb (String.eqb s) ["small"; "medium"; "large"])
     | None => false
     end then inl "Scope must be: small, medium, or large" else
  if negb (existsb (String.eqb type) ["bug"; "improvement"]) then
    inl "Type must be: bug or improvement" else
  let issueNumber := getNextIssueNumber dir in
  let slug := createSlug (c_title input) in
  let filename := issueNumber +++ "-" +++ slug +++ ".md" in
  let frontmatter :=
    mkFrontmatter (c_title input) priority (opt_truthy scope) type
      (opt_truthy (c_labels input)) "open" (opt_truthy (c_order input)) now None in
  let body := match c_body input with Some b => b | None => DEFAULT_BODY end in
  let text := generateFrontmatter frontmatter +++ NL +++ body +++ NL in
  inr (mkIssue issueNumber filename (fm_record_map frontmatter) (NL +++ body +++ NL),
       write_file dir filename text).

(** [updateIssue(id, { status: 'closed' })] *)
Definition closeIssue (dir : Dir) (now id : string) : UpdateError + (Issue * Dir) :=
  updateIssue dir now id
    (mkUpdate None None None None None None None (Some "closed") None).

(** [updateIssue(id, { status: 'open', order })] *)
Definition reopenIssue (dir : Dir) (now id : string) (order : option string)
    : UpdateError + (Issue * Dir) :=
  updateIssue dir now id
    (mkUpdate None None None None None None None (Some "open") order).

(** [unlink(name)] *)
Definition remove_file (dir : Dir) (name : string) : Dir :=
  List.filter (fun fc => negb (String.eqb fc.1 name)) dir.

(** [deleteIssue(id)]: the thrown message, or the directory after the
    unlink. *)
Definition deleteIssue (dir : Dir) (id : string) : string + Dir :=
  match getIssue dir id with
  | None => inl ("Issue not found: " +++ id)
  | Some issue => inr (remove_file dir (filename issue))
  end.

(* ------------------------------------------------------------------ *)
(** ** Vocabulary of the query and store properties *)

(** The trimmed search text of a query, and the issues its qualifiers
    keep (the first step of [filterByQuery]). *)
Definition query_text (query : string) : string := trim (searchText (parseQuery query)).

Definition qualified (issues : list Issue) (query : string) : list Issue :=
  List.filter (qualifier_filter (qualifiers (parseQuery query))) issues.

(** The layout of a search result over [incoming]: the id matches of
    [incoming] in their incoming order, then issues that are not id
    matches, exactly the remaining fuzzy hits, in ascending score. *)
Definition id_first_layout (searchResults : list (Issue * Q)) (q : string)
    (incoming out : list Issue) : Prop :=
  exists fuzzy,
    out = List.filter (id_match q) incoming ++ fuzzy /\
    Forall (fun i => id_match q i = false) fuzzy /\
    fuzzy ≡ₚ List.filter (fun i => negb (id_match q i) &&
                 has_id (map (fun r => id r.1) searchResults) (id i)) incoming /\
    Sorted (fun a b => Qle (score_of searchResults a) (score_of searchResults b)) fuzzy.


(** The patch's value for a frontmatter field. *)
Definition patch_field (input : UpdateIssueInput) (k : string) : option string :=
  if String.eqb k "title" then u_title input
  else if String.eqb k "priority" then u_priority input
  else if String.eqb k "scope" then u_scope input
  else if String.eqb k "type" then u_type input
  else if String.eqb k "labels" then u_labels input
  else if String.eqb k "status" then u_status input
  else if String.eqb k "order" then u_order input
  else None.

(** A string without double or single quote characters. *)
Fixpoint quote_free (s : string) : bool :=
  match s with
  | EmptyString => true
  | String c s' => negb (Ascii.eqb c DQ || Ascii.eqb c SQ) && quote_free s'
  end.

(** Every character of [s] satisfies [f]. *)
Fixpoint all_chars (f : ascii -> bool) (s : string) : bool :=
  match s with
  | EmptyString => true
  | String c s' => f c && all_chars f s'
  end.

(** The characters a slug is made of: [a-z], [0-9] and [-]. *)
Definition slug_out (c : ascii) : bool :=
  let n := nat_of_ascii c in
  (Nat.leb 97 n && Nat.leb n 122) || is_digit c || Ascii.eqb c "-".

(** The orders the sort options produce: [a] may come before [b]. *)
Definition priority_before (a b : Issue) : Prop :=
  let ra := priority_rank (fm_field a "priority") in
  let rb := priority_rank (fm_field b "priority") in
  ra < rb \/ (ra = rb /\ str_ltb (id a) (id b) = false).

(** Descending by the key [k1], ties descending by [k2]. *)
Definition desc_by (k1 k2 : Issue -> string) (a b : Issue) : Prop :=
  str_ltb (k1 a) (k1 b) = false /\ (k1 a = k1 b -> str_ltb (k2 a) (k2 b) = false).

(** Ascending by the key [k1], ties ascending by [k2]. *)
Definition asc_by (k1 k2 : Issue -> string) (a b : Issue) : Prop :=
  str_ltb (k1 b) (k1 a) = false /\ (k1 a = k1 b -> str_ltb (k2 b) (k2 a) = false).

Definition created_key (i : Issue) : string := str_or (fm_field i "created") "".
Definition updated_key (i : Issue) : string := str_or (fm_field i "updated") (created_key i).

(** The roadmap order of [getAllIssues]: issues with an order first, by
    ascending order; then the others, by ascending id. *)
Definition roadmap_before (a b : Issue) : Prop :=
  match order_of a, order_of b with
  | Some oa, Some ob => str_ltb ob oa = false
  | Some _, None => True
  | None, Some _ => False
  | None, None => str_ltb (id b) (id a) = false
  end.

Module QueryLemmas.

Lemma sort_insert_perm {A} (cmp : A -> A -> comparison) (x : A) (l : list A) :
  sort_insert cmp x l ≡ₚ x :: l.
Proof.
  induction l as [|y l IH]; [done |]. cbn [sort_insert].
  destruct (cmp x y); [done | done |].
  rewrite IH. by constructor.
Qed.

Lemma sort_perm {A} (cmp : A -> A -> comparison) (l : list A) : sort cmp l ≡ₚ l.
Proof.
  induction l as [|x l IH]; [done |]. cbn [sort].
  by rewrite sort_insert_perm, IH.
Qed.

Section KeySort.
Context {A : Type} (f : A -> Q).

Let R (a b : A) : Prop := Qle (f a) (f b).
Let cmp (a b : A) : comparison := Qcompare (f a) (f b).

Lemma sort_insert_sorted (x : A) (l : list A) :
  Sorted R l -> Sorted R (sort_insert cmp x l).
Proof.
  induction l as [|y l IH]; intros Hs; cbn [sort_insert].
  - by repeat constructor.
  - destruct (cmp x y) eqn:E.
    + constructor; [done |]. constructor. apply Qle_alt. unfold cmp in E. by rewrite E.
    + constructor; [done |]. constructor. apply Qle_alt. unfold cmp in E. by rewrite E.
    + apply Sorted_inv in Hs as [Hl Hh]. constructor; [by apply IH |].
      assert (Hyx : R y x).
      { apply Qlt_le_weak, Qgt_alt. exact E. }
      destruct l as [|z l]; cbn [sort_insert]; [by constructor |].
      destruct (cmp x z); constructor; try done; by inversion Hh.
Qed.

Lemma sort_sorted (l : list A) : Sorted R (sort cmp l).
Proof.
  induction l as [|x l IH]; [constructor |]. cbn [sort].
  by apply sort_insert_sorted.
Qed.

End KeySort.

Lemma has_id_idMatches (q : string) (result : list Issue) (i : Issue) :
  In i result ->
  has_id (map id (List.filter (id_match q) result)) (id i) = id_match q i.
Proof.
  intros Hi. unfold has_id. destruct (id_match q i) eqn:E.
  - apply existsb_exists. exists (id i). split.
    + apply in_map, filter_In. by split.
    + apply String.eqb_refl.
  - apply not_true_iff_false. intros H.
    apply existsb_exists in H as (s & Hs & Heq).
    apply in_map_iff in Hs as (j & <- & Hj).
    apply filter_In in Hj as [_ Hj]. apply String.eqb_eq in Heq.
    unfold id_match in E, Hj. rewrite <- Heq in Hj. congruence.
Qed.

(** The id-first composition: the id matches of [result] in their
    order, then the other fuzzy hits sorted by score. *)
Lemma rank_matches_layout (fuse_search : list Issue -> string -> list (Issue * Q))
    (index result : list Issue) (q : string) :
  id_first_layout (fuse_search index q) q result
    (rank_matches fuse_search index result q).
Proof.
  unfold id_first_layout. set (sr := fuse_search index q).
  set (P := fun i => negb (id_match q i) && has_id (map (fun r => id r.1) sr) (id i)).
  unfold rank_matches. fold sr.
  assert (Hf : List.filter (fun i => negb (has_id (map id (List.filter (id_match q) result)) (id i))
                                      && has_id (map (fun r => id r.1) sr) (id i)) result
               = List.filter P result).
  { apply filter_ext_in. intros i Hi. unfold P. by rewrite has_id_idMatches. }
  rewrite Hf.
  exists (sort (fun a b => Qcompare (score_of sr a) (score_of sr b)) (List.filter P result)).
  split; [done |]. split; [| split].
  - apply List.Forall_forall. intros i Hi.
    apply (Permutation_in _ (sort_perm _ _)) in Hi.
    apply filter_In in Hi as [_ Hi]. unfold P in Hi.
    apply andb_prop in Hi as [Hi _]. by apply negb_true_iff.
  - apply sort_perm.
  - apply (sort_sorted (score_of sr)).
Qed.


Lemma parse_token_supported (qs : gmap string string) (parts : list string) (k v : string) :
  existsb (String.eqb k) SUPPORTED_QUALIFIERS = true -> v <> "" ->
  parse_token (qs, parts) (k +++ ":" +++ v) = (<[k := v]> qs, parts).
Proof.
  intros Hk Hv.
  assert (Hc : index_of ":" k = None /\ k <> "").
  { unfold SUPPORTED_QUALIFIERS in Hk. cbn [existsb] in Hk.
    repeat (apply orb_true_iff in Hk as [Hk|Hk];
            [apply String.eqb_eq in Hk; subst; split; [reflexivity | discriminate] |]).
    discriminate Hk. }
  destruct Hc as [Hc Hne].
  unfold parse_token. change (":" +++ v) with (String ":" v).
  rewrite (FrontmatterLemmas.index_of_app_colon k v Hc).
  rewrite FrontmatterLemmas.str_length_app. cbn [String.length].
  assert (H0 : Nat.ltb 0 (String.length k) = true).
  { apply Nat.ltb_lt. destruct k; [done | simpl; lia]. }
  assert (H1 : Nat.ltb (String.length k) (String.length k + S (String.length v) - 1) = true).
  { apply Nat.ltb_lt. destruct v; [done | simpl; lia]. }
  rewrite H0, H1. cbn [andb].
  rewrite FrontmatterLemmas.substring_prefix.
  replace (S (String.length k)) with (String.length k + 1) by lia.
  rewrite FrontmatterLemmas.slice_from_app. change (slice_from 1 (String ":" v)) with v.
  by rewrite Hk.
Qed.

End QueryLemmas.

Module StoreLemmas.

Lemma startsWith_substring (s p : string) :
  startsWith s p = true -> substring 0 (String.length p) s = p.
Proof.
  revert s. induction p as [|c p IH]; intros s H; [by destruct s |].
  destruct s as [|d s]; [discriminate |]. cbn in H.
  apply andb_prop in H as [Hc H]. apply Ascii.eqb_eq in Hc. subst.
  cbn. by rewrite IH.
Qed.

Lemma issue_file_id (f : string) :
  is_issue_file f = true -> getIssueIdFromFilename f = substring 0 4 f.
Proof.
  unfold is_issue_file. intros H. apply andb_prop in H as [_ H].
  destruct f as [|a [|b [|c [|d [|e r]]]]]; try discriminate.
  cbn [four_digits_dash] in H.
  apply andb_prop in H as [H He]. apply andb_prop in H as [H Hd].
  apply andb_prop in H as [H Hc]. apply andb_prop in H as [Ha Hb].
  apply Ascii.eqb_eq in He. subst e.
  unfold getIssueIdFromFilename. cbn [take_digits].
  rewrite Ha, Hb, Hc, Hd. reflexivity.
Qed.

(** A file the lookup for a four-character id accepts carries that id. *)
Lemma matches_id (p f : string) :
  String.length p = 4 -> is_issue_file f = true ->
  issue_file_matches p f = true -> getIssueIdFromFilename f = p.
Proof.
  intros Hp Hf Hm. unfold issue_file_matches in Hm.
  apply orb_true_iff in Hm as [Hm|Hm].
  - rewrite (issue_file_id f Hf), <- Hp. by apply startsWith_substring.
  - by apply String.eqb_eq.
Qed.

Lemma getIssue_some (dir : Dir) (i : string) (r : Issue) :
  getIssue dir i = Some r ->
  exists file text, In (file, text) dir /\ is_issue_file file = true /\
    issue_file_matches (padStart0 4 i) file = true /\
    r = mkIssue (getIssueIdFromFilename file) file
          (parseFrontmatter text).1 (parseFrontmatter text).2.
Proof.
  unfold getIssue. destruct (List.find _ _) as [[file text]|] eqn:E; [| discriminate].
  destruct (parseFrontmatter text) as [fm body] eqn:Ep. intros [= <-].
  apply find_some in E as [Hin Hm]. unfold getIssueFiles in Hin.
  apply filter_In in Hin as [Hin Hf].
  exists file, text. rewrite Ep. by repeat split.
Qed.

Lemma getIssue_none (dir : Dir) (i : string) :
  (forall fc, In fc dir -> is_issue_file fc.1 = true ->
     issue_file_matches (padStart0 4 i) fc.1 = false) ->
  getIssue dir i = None.
Proof.
  intros H. unfold getIssue.
  destruct (List.find _ _) as [[file text]|] eqn:E; [| done].
  apply find_some in E as [Hin Hm]. unfold getIssueFiles in Hin.
  apply filter_In in Hin as [Hin Hf]. cbn in Hm, Hf.
  specialize (H (file, text) Hin Hf). cbn in H. by rewrite H in Hm.
Qed.

Lemma spread_if_lookup (k : string) (o : option string) (m : gmap string string) (j : string) :
  spread_if k o m !! j =
  if String.eqb j k then
    match o with Some v => if truthy v then Some v else m !! j | None => m !! j end
  else m !! j.
Proof.
  unfold spread_if. destruct (String.eqb_spec j k) as [->|Hne].
  - destruct o as [v|]; [| done]. destruct (truthy v); [| done].
    apply lookup_insert_eq.
  - destruct o as [v|]; [| done]. destruct (truthy v); [| done].
    by apply lookup_insert_ne.
Qed.

Lemma spread_labels_lookup (o : option string) (m : gmap string string) (j : string) :
  spread_labels o m !! j =
  if String.eqb j "labels" then
    match o with Some v => if truthy v then Some v else None | None => m !! j end
  else m !! j.
Proof.
  unfold spread_labels. destruct (String.eqb_spec j "labels") as [->|Hne].
  - destruct o as [v|]; [| done]. destruct (truthy v).
    + apply lookup_insert_eq.
    + apply lookup_delete_eq.
  - destruct o as [v|]; [| done]. destruct (truthy v).
    + by apply lookup_insert_ne.
    + by apply lookup_delete_ne.
Qed.

(** Field by field, the object [updateIssue] builds. *)
Lemma updated_frontmatter_lookup (now : string) (fm : gmap string string)
    (input : UpdateIssueInput) (k : string) :
  k <> "updated" ->
  updated_frontmatter now fm input !! k =
  match patch_field input k with
  | Some v => if truthy v then Some v
              else if String.eqb k "labels" then None else fm !! k
  | None => fm !! k
  end.
Proof.
  intros Hk. unfold updated_frontmatter.
  rewrite lookup_insert_ne by congruence.
  rewrite !spread_if_lookup, spread_labels_lookup, !spread_if_lookup.
  unfold patch_field.
  destruct (String.eqb_spec k "title") as [->|];
    [cbn; by destruct (u_title input) as [[|]|] |].
  destruct (String.eqb_spec k "priority") as [->|];
    [cbn; by destruct (u_priority input) as [[|]|] |].
  destruct (String.eqb_spec k "scope") as [->|];
    [cbn; by destruct (u_scope input) as [[|]|] |].
  destruct (String.eqb_spec k "type") as [->|];
    [cbn; by destruct (u_type input) as [[|]|] |].
  destruct (String.eqb_spec k "labels") as [->|];
    [cbn; by destruct (u_labels input) as [[|]|] |].
  destruct (String.eqb_spec k "status") as [->|];
    [cbn; by destruct (u_status input) as [[|]|] |].
  destruct (String.eqb_spec k "order") as [->|];
    [cbn; by destruct (u_order input) as [[|]|] |].
  reflexivity.
Qed.

Lemma updateIssue_ok (dir : Dir) (now i : string) (input : UpdateIssueInput)
    (issue' : Issue) (dir' : Dir) :
  updateIssue dir now i input = inr (issue', dir') ->
  exists issue data, getIssue dir i = Some issue /\
    frontmatter issue' = updated_frontmatter now (frontmatter issue) input /\
    id issue' = id issue /\ filename issue' = filename issue /\
    content issue' = match u_body input with
                     | Some body => NL +++ body +++ NL
                     | None => content issue
                     end /\
    record_of (frontmatter issue') = Some data /\
    dir' = write_file dir (filename issue)
             (generateFrontmatter data +++ NL +++ content issue').
Proof.
  unfold updateIssue. destruct (getIssue dir i) as [[iid file fm old]|] eqn:E;
    [| discriminate].
  destruct (record_of (updated_frontmatter now fm input)) as [data|] eqn:Ed;
    [| discriminate].
  intros [= <- <-]. exists (mkIssue iid file fm old), data.
  by repeat split.
Qed.

End StoreLemmas.

Module SortFacts.

(** Insertion sort with a comparator whose [Gt] is asymmetric returns
    a list in which no element compares [Gt] to its successor. *)
Section CmpSort.
Context {A : Type} (cmp : A -> A -> comparison).
Hypothesis Hasym : forall a b, cmp a b = Gt -> cmp b a <> Gt.

Let le (a b : A) : Prop := cmp a b <> Gt.

Lemma sort_insert_sorted_cmp (x : A) (l : list A) :
  Sorted le l -> Sorted le (sort_insert cmp x l).
Proof.
  induction l as [|y l IH]; intros Hs; cbn [sort_insert].
  - by repeat constructor.
  - destruct (cmp x y) eqn:E.
    + constructor; [done |]. constructor. unfold le. by rewrite E.
    + constructor; [done |]. constructor. unfold le. by rewrite E.
    + apply Sorted_inv in Hs as [Hl Hh]. constructor; [by apply IH |].
      assert (Hyx : le y x) by (apply Hasym, E).
      destruct l as [|z l]; cbn [sort_insert]; [by constructor |].
      destruct (cmp x z); constructor; try done; by inversion Hh.
Qed.

Lemma sort_sorted_cmp (l : list A) : Sorted le (sort cmp l).
Proof.
  induction l as [|x l IH]; [constructor |]. cbn [sort].
  by apply sort_insert_sorted_cmp.
Qed.

End CmpSort.

Lemma Sorted_weaken {A} (R S : A -> A -> Prop) (l : list A) :
  (forall a b, R a b -> S a b) -> Sorted R l -> Sorted S l.
Proof.
  intros H Hs. induction Hs as [|x l Hs IH Hh]; constructor; [done |].
  destruct Hh; constructor. by apply H.
Qed.

Lemma str_ltb_total (a b : string) : a <> b -> str_ltb a b = true \/ str_ltb b a = true.
Proof.
  revert b. induction a as [|x a IH]; intros b Hne.
  - destruct b; [done | by left].
  - destruct b as [|y b]; [by right |].
    destruct (Nat.lt_trichotomy (nat_of_ascii x) (nat_of_ascii y)) as [H|[H|H]].
    + left. apply str_ltb_cons. by left.
    + assert (x = y) as <-.
      { rewrite <- (ascii_nat_embedding x), <- (ascii_nat_embedding y). by rewrite H. }
      assert (a <> b) as Hab by congruence.
      destruct (IH b Hab) as [E|E]; [left | right]; apply str_ltb_cons; by right.
    + right. apply str_ltb_cons. by left.
Qed.

Lemma str_compare_gt (a b : string) : str_compare a b = Gt -> str_compare b a = Lt.
Proof.
  unfold str_compare. destruct (str_ltb a b) eqn:E1; [discriminate |].
  destruct (String.eqb_spec a b) as [|Hne]; [discriminate |]. intros _.
  destruct (str_ltb_total a b Hne) as [H|H]; [congruence |]. by rewrite H.
Qed.

(** [str_compare a b] is not [Gt] exactly when [b < a] fails. *)
Lemma str_compare_not_gt (a b : string) : str_compare a b <> Gt -> str_ltb b a = false.
Proof.
  unfold str_compare. destruct (str_ltb a b) eqn:E1.
  - intros _. by apply str_ltb_asym.
  - destruct (String.eqb_spec a b) as [->|Hne]; intros H; [apply str_ltb_irrefl | done].
Qed.

Lemma str_not_ltb_trans (a b c : string) :
  str_ltb a b = false -> str_ltb b c = false -> str_ltb a c = false.
Proof.
  intros Hab Hbc. destruct (str_ltb a c) eqn:Hac; [| done]. exfalso.
  destruct (String.eqb_spec a b) as [->|Hne]; [congruence |].
  destruct (str_ltb_total a b Hne) as [H|H]; [congruence |].
  pose proof (str_ltb_trans _ _ _ H Hac). congruence.
Qed.

Lemma nat_compare_gt (m n : nat) : Nat.compare m n = Gt -> Nat.compare n m = Lt.
Proof. intros H. apply Nat.compare_gt_iff in H. by apply Nat.compare_lt_iff. Qed.

(** A comparator that orders by a key first, then by a tie-break. *)
Lemma keyed_asym {A} (k : A -> string) (c1 : string -> string -> comparison)
    (c2 : A -> A -> comparison) :
  (forall x y, c1 x y = Gt -> c1 y x = Lt) ->
  (forall a b, c2 a b = Gt -> c2 b a = Lt) ->
  forall a b,
  (if negb (String.eqb (k a) (k b)) then c1 (k a) (k b) else c2 a b) = Gt ->
  (if negb (String.eqb (k b) (k a)) then c1 (k b) (k a) else c2 b a) <> Gt.
Proof.
  intros H1 H2 a b. rewrite (String.eqb_sym (k b) (k a)).
  destruct (String.eqb (k a) (k b)); cbn [negb]; intros H.
  - by rewrite (H2 _ _ H).
  - by rewrite (H1 _ _ H).
Qed.

Lemma priority_cmp_asym (a b : Issue) : priority_cmp a b = Gt -> priority_cmp b a <> Gt.
Proof.
  unfold priority_cmp. rewrite (Nat.eqb_sym (priority_rank (fm_field b "priority"))).
  destruct (Nat.eqb _ _); cbn [negb]; intros H.
  - by rewrite (str_compare_gt _ _ H).
  - by rewrite (nat_compare_gt _ _ H).
Qed.

Lemma created_cmp_asym (a b : Issue) : created_cmp a b = Gt -> created_cmp b a <> Gt.
Proof.
  apply (keyed_asym (fun i => str_or (fm_field i "created") "")
           (fun x y => str_compare y x) (fun a b => str_compare (id b) (id a))).
  - intros x y. apply str_compare_gt.
  - intros x y. apply str_compare_gt.
Qed.

Lemma created_asc_cmp_asym (a b : Issue) :
  created_asc_cmp a b = Gt -> created_asc_cmp b a <> Gt.
Proof.
  apply (keyed_asym (fun i => str_or (fm_field i "created") "")
           str_compare (fun a b => str_compare (id a) (id b))).
  - apply str_compare_gt.
  - intros x y. apply str_compare_gt.
Qed.

Lemma updated_cmp_asym (a b : Issue) : updated_cmp a b = Gt -> updated_cmp b a <> Gt.
Proof.
  apply (keyed_asym
           (fun i => str_or (fm_field i "updated") (str_or (fm_field i "created") ""))
           (fun x y => str_compare y x) (fun a b => str_compare (id b) (id a))).
  - intros x y. apply str_compare_gt.
  - intros x y. apply str_compare_gt.
Qed.

Lemma id_cmp_asym (a b : Issue) : id_cmp a b = Gt -> id_cmp b a <> Gt.
Proof. unfold id_cmp. intros H. by rewrite (str_compare_gt _ _ H). Qed.

Lemma sortIssues_perm (l : list Issue) (s : string) : sortIssues l s ≡ₚ l.
Proof.
  unfold sortIssues.
  repeat match goal with |- context [if ?b then _ else _] => destruct b end;
    apply QueryLemmas.sort_perm.
Qed.

End SortFacts.

Module ParseFacts.

Fixpoint no_char (c : ascii) (s : string) : bool :=
  match s with
  | EmptyString => true
  | String d s' => negb (Ascii.eqb d c) && no_char c s'
  end.

Lemma no_char_app (c : ascii) (a b : string) :
  no_char c (a +++ b) = no_char c a && no_char c b.
Proof. induction a as [|d a IH]; [done | cbn; by rewrite IH, andb_assoc]. Qed.

Lemma split_on_nosep (sep : ascii) (s : string) :
  no_char sep s = true -> split_on sep s = [s].
Proof.
  induction s as [|c s IH]; [done |]. cbn. intros H.
  apply andb_prop in H as [Hc Hs]. apply negb_true_iff in Hc.
  rewrite Hc, IH by done. done.
Qed.

Lemma split_on_app_sep (sep : ascii) (a s : string) :
  no_char sep a = true -> split_on sep (a +++ String sep s) = a :: split_on sep s.
Proof.
  induction a as [|c a IH]; intros Ha.
  - cbn. by rewrite ascii_eqb_refl.
  - cbn in Ha |- *. apply andb_prop in Ha as [Hc Ha]. apply negb_true_iff in Hc.
    rewrite Hc, IH by done. done.
Qed.

Definition finish (st : TokState) : list string :=
  if truthy (currentToken st) then tokens st ++ [currentToken st] else tokens st.

Lemma tokenize_unquoted_from (s : string) (st : TokState) :
  inQuotes st = false -> no_char " " (currentToken st) = true -> quote_free s = true ->
  finish (tokenize_from st s) =
  tokens st ++ List.filter truthy (split_on " " (currentToken st +++ s)).
Proof.
  revert st. induction s as [|c s IH]; intros [ts cur q qc] Hq Hcur Hs;
    cbn [inQuotes currentToken tokens] in *.
  - cbn [tokenize_from]. rewrite str_app_nil_r.
    rewrite (split_on_nosep " " cur Hcur).
    unfold finish. cbn [currentToken tokens].
    destruct cur; cbn [truthy List.filter]; [by rewrite app_nil_r | done].
  - cbn [quote_free] in Hs. apply andb_prop in Hs as [Hc Hs].
    apply negb_true_iff in Hc. subst q.
    cbn [tokenize_from]. unfold tok_step. cbn [inQuotes currentToken tokens quoteChar].
    rewrite Hc. cbn [andb negb].
    rewrite andb_false_r.
    destruct (Ascii.eqb_spec c " ") as [->|Hsp]; cbn [andb].
    + destruct cur as [|d cur'] eqn:Ecur; cbn [truthy].
      * rewrite IH by done. cbn [currentToken tokens].
        change (EmptyString +++ String " " s) with (String " " s).
        cbn [split_on]. rewrite ascii_eqb_refl. reflexivity.
      * rewrite IH by done. cbn [currentToken tokens].
        rewrite (split_on_app_sep " " (String d cur') s) by done.
        cbn [List.filter truthy]. by rewrite <- app_assoc.
    + rewrite IH; cbn [currentToken tokens inQuotes]; try done.
      * by rewrite str_app_assoc.
      * rewrite no_char_app, Hcur. cbn. apply Ascii.eqb_neq in Hsp. by rewrite Hsp.
Qed.

Lemma tokenize_from_truthy (s : string) (st : TokState) :
  Forall (fun t => truthy t = true) (tokens st) ->
  Forall (fun t => truthy t = true) (tokens (tokenize_from st s)).
Proof.
  revert st. induction s as [|c s IH]; intros st H; [done |].
  cbn [tokenize_from]. apply IH. unfold tok_step.
  repeat match goal with |- context [if ?b then _ else _] => destruct b eqn:? end;
    cbn [tokens]; try done.
  apply Forall_app. split; [done |]. by constructor.
Qed.

Lemma slice_from_nonempty (n : nat) (s : string) :
  n < String.length s -> slice_from n s <> "".
Proof.
  revert s. induction n as [|n IH]; intros s H.
  - destruct s; [cbn in H; lia | discriminate].
  - destruct s as [|c s]; [cbn in H; lia |]. cbn in H |- *. apply IH. lia.
Qed.

Definition qualifiers_ok (qs : gmap string string) : Prop :=
  forall k v, qs !! k = Some v -> In k SUPPORTED_QUALIFIERS /\ v <> "".

Lemma parse_token_ok (acc : gmap string string * list string) (token : string) :
  qualifiers_ok acc.1 -> qualifiers_ok (parse_token acc token).1.
Proof.
  destruct acc as [qs parts]. cbn [fst]. intros H. unfold parse_token.
  destruct (index_of ":" token) as [ci|] eqn:Ei; [| done].
  destruct (Nat.ltb 0 ci && Nat.ltb ci (String.length token - 1)) eqn:Eb; [| done].
  destruct (existsb (String.eqb (substring 0 ci token)) SUPPORTED_QUALIFIERS) eqn:Ek;
    [| done].
  cbn [fst]. intros k v Hk.
  destruct (decide (substring 0 ci token = k)) as [<-|Hne].
  - rewrite lookup_insert_eq in Hk. injection Hk as <-. split.
    + apply existsb_exists in Ek as (x & Hx & Heq). apply String.eqb_eq in Heq. by subst.
    + apply andb_prop in Eb as [_ Eb]. apply Nat.ltb_lt in Eb.
      change (slice_from (S ci) token <> ""). apply slice_from_nonempty. lia.
  - rewrite lookup_insert_ne in Hk by done. by apply H.
Qed.

Lemma fold_parse_token_ok (ts : list string) (acc : gmap string string * list string) :
  qualifiers_ok acc.1 -> qualifiers_ok (fold_left parse_token ts acc).1.
Proof.
  revert acc. induction ts as [|t ts IH]; intros acc H; [done |].
  cbn [fold_left]. apply IH. by apply parse_token_ok.
Qed.

End ParseFacts.

Module SearchFacts.

Lemma rank_matches_sub (fuse_search : list Issue -> string -> list (Issue * Q))
    (index result : list Issue) (q : string) (i : Issue) :
  In i (rank_matches fuse_search index result q) -> In i result.
Proof.
  unfold rank_matches. intros H. apply in_app_or in H as [H|H].
  - by apply filter_In in H as [H _].
  - apply (Permutation_in _ (QueryLemmas.sort_perm _ _)) in H.
    by apply filter_In in H as [H _].
Qed.

Lemma NoDup_List_filter {A} (f : A -> bool) (l : list A) :
  NoDup l -> NoDup (List.filter f l).
Proof.
  induction l as [|x l IH]; [done |]. rewrite NoDup_cons. intros [Hx Hl]. cbn.
  destruct (f x); [| by apply IH]. apply NoDup_cons. split; [| by apply IH].
  intros Hin. apply list_elem_of_In, filter_In in Hin as [Hin _].
  by apply Hx, list_elem_of_In.
Qed.

Lemma rank_matches_nodup (fuse_search : list Issue -> string -> list (Issue * Q))
    (index result : list Issue) (q : string) :
  NoDup result -> NoDup (rank_matches fuse_search index result q).
Proof.
  intros Hn. unfold rank_matches. apply NoDup_app. split; [| split].
  - by apply NoDup_List_filter.
  - intros x Hx Hy. apply list_elem_of_In in Hx, Hy.
    apply (Permutation_in _ (QueryLemmas.sort_perm _ _)) in Hy.
    apply filter_In in Hx as [Hx Hm]. apply filter_In in Hy as [_ Hy].
    rewrite QueryLemmas.has_id_idMatches, Hm in Hy by done. discriminate Hy.
  - rewrite QueryLemmas.sort_perm. by apply NoDup_List_filter.
Qed.

End SearchFacts.

Module OrderFacts.
Import SortFacts.

Lemma str_ltb_antisym (a b : string) :
  str_ltb a b = false -> str_ltb b a = false -> a = b.
Proof.
  intros H1 H2. destruct (String.eqb_spec a b) as [|Hne]; [done |].
  destruct (str_ltb_total a b Hne); congruence.
Qed.

Lemma desc_by_trans (k1 k2 : Issue -> string) (a b c : Issue) :
  desc_by k1 k2 a b -> desc_by k1 k2 b c -> desc_by k1 k2 a c.
Proof.
  intros [Hab Hab2] [Hbc Hbc2]. split; [exact (str_not_ltb_trans _ _ _ Hab Hbc) |].
  intros Hac. rewrite <- Hac in Hbc. pose proof (str_ltb_antisym _ _ Hab Hbc) as Eab.
  apply (str_not_ltb_trans _ (k2 b)); [by apply Hab2 | apply Hbc2; congruence].
Qed.

Lemma asc_by_trans (k1 k2 : Issue -> string) (a b c : Issue) :
  asc_by k1 k2 a b -> asc_by k1 k2 b c -> asc_by k1 k2 a c.
Proof.
  intros [Hab Hab2] [Hbc Hbc2]. split; [exact (str_not_ltb_trans _ _ _ Hbc Hab) |].
  intros Hac. rewrite Hac in Hab. pose proof (str_ltb_antisym _ _ Hbc Hab) as Ecb.
  apply (str_not_ltb_trans _ (k2 b)); [apply Hbc2; congruence | apply Hab2; congruence].
Qed.

Lemma priority_before_trans (a b c : Issue) :
  priority_before a b -> priority_before b c -> priority_before a c.
Proof.
  unfold priority_before. cbv zeta.
  intros [H1|[E1 H1]] [H2|[E2 H2]]; [left; lia | left; lia | left; lia |].
  right. split; [lia | exact (str_not_ltb_trans _ _ _ H1 H2)].
Qed.

Lemma roadmap_before_trans (a b c : Issue) :
  roadmap_before a b -> roadmap_before b c -> roadmap_before a c.
Proof.
  unfold roadmap_before.
  destruct (order_of a), (order_of b), (order_of c); intros H1 H2; try done;
    exact (str_not_ltb_trans _ _ _ H2 H1).
Qed.

Lemma roadmap_before_refl (a : Issue) : roadmap_before a a.
Proof. unfold roadmap_before. destruct (order_of a); apply str_ltb_irrefl. Qed.

(** A sort by an asymmetric comparator whose "not after" implies a
    transitive relation is strongly sorted by that relation. *)
Lemma sort_strongly {A} (cmp : A -> A -> comparison) (R : A -> A -> Prop) (l : list A) :
  (forall a b, cmp a b = Gt -> cmp b a <> Gt) ->
  (forall a b, cmp a b <> Gt -> R a b) ->
  (forall a b c, R a b -> R b c -> R a c) ->
  StronglySorted R (sort cmp l).
Proof.
  intros Hasym HR Htr. apply Sorted_StronglySorted; [exact Htr |].
  eapply Sorted_weaken; [exact HR |]. by apply sort_sorted_cmp.
Qed.

Lemma priority_cmp_before (a b : Issue) : priority_cmp a b <> Gt -> priority_before a b.
Proof.
  unfold priority_cmp, priority_before. cbv zeta.
  destruct (Nat.eqb_spec (priority_rank (fm_field a "priority"))
                         (priority_rank (fm_field b "priority"))) as [E|E];
    cbn [negb]; intros H.
  - right. split; [exact E | by apply str_compare_not_gt].
  - left. destruct (Nat.compare_spec (priority_rank (fm_field a "priority"))
                                     (priority_rank (fm_field b "priority"))) as [C|C|C];
      [congruence | exact C | done].
Qed.

Lemma created_cmp_before (a b : Issue) : created_cmp a b <> Gt -> desc_by created_key id a b.
Proof.
  unfold created_cmp, desc_by, created_key. cbv zeta.
  destruct (String.eqb_spec (str_or (fm_field a "created") "")
                            (str_or (fm_field b "created") "")) as [E|E]; cbn [negb]; intros H.
  - split; [rewrite E; apply str_ltb_irrefl | intros _; by apply str_compare_not_gt].
  - split; [by apply str_compare_not_gt | intros Heq; by destruct E].
Qed.

Lemma created_asc_cmp_before (a b : Issue) :
  created_asc_cmp a b <> Gt -> asc_by created_key id a b.
Proof.
  unfold created_asc_cmp, asc_by, created_key. cbv zeta.
  destruct (String.eqb_spec (str_or (fm_field a "created") "")
                            (str_or (fm_field b "created") "")) as [E|E]; cbn [negb]; intros H.
  - split; [rewrite E; apply str_ltb_irrefl | intros _; by apply str_compare_not_gt].
  - split; [by apply str_compare_not_gt | intros Heq; by destruct E].
Qed.

Lemma updated_cmp_before (a b : Issue) : updated_cmp a b <> Gt -> desc_by updated_key id a b.
Proof.
  unfold updated_cmp, desc_by, updated_key, created_key. cbv zeta.
  destruct (String.eqb_spec
              (str_or (fm_field a "updated") (str_or (fm_field a "created") ""))
              (str_or (fm_field b "updated") (str_or (fm_field b "created") ""))) as [E|E];
    cbn [negb]; intros H.
  - split; [rewrite E; apply str_ltb_irrefl | intros _; by apply str_compare_not_gt].
  - split; [by apply str_compare_not_gt | intros Heq; by destruct E].
Qed.

Lemma id_cmp_before (a b : Issue) : id_cmp a b <> Gt -> str_ltb (id a) (id b) = false.
Proof. unfold id_cmp. apply str_compare_not_gt. Qed.

Lemma roadmap_cmp_asym (a b : Issue) : roadmap_cmp a b = Gt -> roadmap_cmp b a <> Gt.
Proof.
  unfold roadmap_cmp. destruct (order_of a) as [oa|], (order_of b) as [ob|]; intros H;
    try discriminate H; try discriminate.
  - destruct (str_ltb oa ob), (str_ltb ob oa); congruence.
  - destruct (str_ltb (id a) (id b)), (str_ltb (id b) (id a)); congruence.
Qed.

Lemma roadmap_cmp_before (a b : Issue) : roadmap_cmp a b <> Gt -> roadmap_before a b.
Proof.
  unfold roadmap_cmp, roadmap_before.
  destruct (order_of a) as [oa|], (order_of b) as [ob|]; intros H; try done.
  - destruct (str_ltb oa ob) eqn:E1; [by apply str_ltb_asym |].
    by destruct (str_ltb ob oa).
  - destruct (str_ltb (id a) (id b)) eqn:E1; [by apply str_ltb_asym |].
    by destruct (str_ltb (id b) (id a)).
Qed.

Lemma sortIssues_priority_eq (l : list Issue) (s : string) :
  existsb (String.eqb (toLowerCase s)) ["created"; "created-asc"; "updated"; "id"] = false ->
  sortIssues l s = sort priority_cmp l.
Proof.
  cbn [existsb]. intros H.
  repeat (apply orb_false_iff in H as [? H]). unfold sortIssues.
  destruct (String.eqb (toLowerCase s) "priority"); [done |].
  repeat match goal with Hx : String.eqb _ _ = false |- _ => rewrite Hx; clear Hx end.
  done.
Qed.

End OrderFacts.

Module SlugFacts.

Lemma all_chars_remove (s : string) : all_chars slug_char (remove_disallowed s) = true.
Proof.
  induction s as [|c s IH]; [done |]. cbn [remove_disallowed].
  destruct (slug_char c) eqn:E; [| exact IH]. cbn [all_chars]. by rewrite E, IH.
Qed.

Lemma all_chars_collapse (f g p : ascii -> bool) (r : ascii) (b : bool) (s : string) :
  (forall c, f c = true -> p c = false -> g c = true) -> g r = true ->
  all_chars f s = true -> all_chars g (collapse_runs p r b s) = true.
Proof.
  intros Hfg Hr. revert b. induction s as [|c s IH]; intros b Hs; [done |].
  cbn [all_chars] in Hs. apply andb_prop in Hs as [Hc Hs].
  cbn [collapse_runs]. destruct (p c) eqn:Ep.
  - destruct b; [by apply IH |]. cbn [all_chars]. by rewrite Hr, IH.
  - cbn [all_chars]. by rewrite (Hfg c Hc Ep), IH.
Qed.

Lemma all_chars_substring (f : ascii -> bool) (n m : nat) (s : string) :
  all_chars f s = true -> all_chars f (substring n m s) = true.
Proof.
  revert n m. induction s as [|c s IH]; intros n m H; [by destruct n, m |].
  cbn [all_chars] in H. apply andb_prop in H as [Hc H].
  destruct n as [|n]; [destruct m as [|m] |]; cbn [substring]; [done | | by apply IH].
  cbn [all_chars]. rewrite Hc. by apply IH.
Qed.

Lemma substring0_length (m : nat) (s : string) : String.length (substring 0 m s) <= m.
Proof.
  revert m. induction s as [|c s IH]; intros m; destruct m as [|m]; cbn; try lia.
  specialize (IH m). lia.
Qed.

Lemma slug_char_out (c : ascii) : slug_char c = true -> is_ws c = false -> slug_out c = true.
Proof.
  unfold slug_char, slug_out. cbv zeta. intros H1 H2.
  rewrite H2, orb_false_r in H1. exact H1.
Qed.

Definition starts_dash (s : string) : bool :=
  match s with String c _ => is_dash c | EmptyString => false end.

(** No two consecutive dashes. *)
Fixpoint no_dd (s : string) : bool :=
  match s with
  | EmptyString => true
  | String c s' => negb (is_dash c && starts_dash s') && no_dd s'
  end.

Lemma collapse_in_run_head (r : ascii) (s : string) :
  starts_dash (collapse_runs is_dash r true s) = false.
Proof.
  induction s as [|c s IH]; [done |]. cbn [collapse_runs].
  destruct (is_dash c) eqn:E; [exact IH | exact E].
Qed.

Lemma no_dd_collapse (b : bool) (s : string) :
  no_dd (collapse_runs is_dash "-" b s) = true.
Proof.
  revert b. induction s as [|c s IH]; intros b; [done |]. cbn [collapse_runs].
  destruct (is_dash c) eqn:E.
  - destruct b; [apply IH |]. cbn [no_dd]. by rewrite collapse_in_run_head, IH.
  - cbn [no_dd]. by rewrite E, IH.
Qed.

Lemma no_dd_substring (m : nat) (s : string) : no_dd s = true -> no_dd (substring 0 m s) = true.
Proof.
  revert m. induction s as [|c s IH]; intros m H; [by destruct m |].
  destruct m as [|m]; [done |]. cbn [substring no_dd] in H |- *.
  apply andb_prop in H as [Hc H]. rewrite (IH m H), andb_true_r.
  destruct (is_dash c); [| done]. cbn [andb] in Hc |- *.
  destruct m as [|m], s as [|d s]; cbn [substring starts_dash] in Hc |- *; done.
Qed.

Lemma no_dd_includes (s : string) : no_dd s = true -> includes s "--" = false.
Proof.
  induction s as [|c s IH]; intros H; [done |].
  cbn [no_dd] in H. apply andb_prop in H as [Hc H].
  cbn [includes]. rewrite (IH H), orb_false_r.
  destruct s as [|d s]; cbn [startsWith]; [by rewrite andb_false_r |].
  unfold starts_dash, is_dash in Hc.
  rewrite (FrontmatterLemmas.ascii_eqb_sym "-" c), (FrontmatterLemmas.ascii_eqb_sym "-" d).
  destruct (Ascii.eqb c "-"), (Ascii.eqb d "-"); done.
Qed.

End SlugFacts.

Module NumberFacts.

Lemma is_digit_cases (c : ascii) :
  is_digit c = true ->
  c = "0"%char \/ c = "1"%char \/ c = "2"%char \/ c = "3"%char \/ c = "4"%char \/
  c = "5"%char \/ c = "6"%char \/ c = "7"%char \/ c = "8"%char \/ c = "9"%char.
Proof.
  destruct c as [[] [] [] [] [] [] [] []]; intros H; vm_compute in H;
    try discriminate H; repeat (first [left; reflexivity | right]); reflexivity.
Qed.

Lemma is_digit_value (c : ascii) :
  is_digit c = true -> (0 <= Z.of_nat (nat_of_ascii c) - 48 <= 9)%Z.
Proof.
  unfold is_digit. intros H. apply andb_prop in H as [H1 H2].
  apply Nat.leb_le in H1, H2. lia.
Qed.

Lemma take_digits_all (s : string) : all_chars is_digit s = true -> take_digits s = (s, "").
Proof.
  induction s as [|c s IH]; intros H; [done |]. cbn [all_chars] in H.
  apply andb_prop in H as [Hc H]. cbn [take_digits]. by rewrite Hc, IH.
Qed.

Lemma is_digit_not_ws (c : ascii) : is_digit c = true -> is_ws c = false.
Proof.
  intros H. apply is_digit_cases in H.
  repeat destruct H as [->|H]; subst; vm_compute; reflexivity.
Qed.

Lemma parseInt10_digits (s : string) :
  all_chars is_digit s = true -> s <> "" -> parseInt10 s = Some (digits_value 0 s).
Proof.
  destruct s as [|c s]; [done |]. intros H _. cbn [all_chars] in H.
  apply andb_prop in H as [Hc Hs]. pose proof (take_digits_all s Hs) as Ht.
  pose proof (is_digit_not_ws c Hc) as Hw.
  pose proof (is_digit_cases c Hc) as Hcases.
  unfold parseInt10. cbn [trimStart]. rewrite Hw.
  repeat destruct Hcases as [->|Hcases]; subst;
    cbn [take_digits]; rewrite Hc, Ht; cbn [truthy]; f_equal; apply Z.mul_1_l.
Qed.

Lemma digits_value_bound (s : string) (acc : Z) :
  all_chars is_digit s = true -> (0 <= acc)%Z ->
  (0 <= digits_value acc s < (acc + 1) * 10 ^ Z.of_nat (String.length s))%Z.
Proof.
  revert acc. induction s as [|c s IH]; intros acc H Ha; cbn [digits_value String.length].
  - cbn. lia.
  - cbn [all_chars] in H. apply andb_prop in H as [Hc H].
    pose proof (is_digit_value c Hc) as Hv.
    destruct (IH (10 * acc + (Z.of_nat (nat_of_ascii c) - 48))%Z H ltac:(lia)) as [H1 H2].
    rewrite Nat2Z.inj_succ, Z.pow_succ_r by lia.
    assert (0 < 10 ^ Z.of_nat (String.length s))%Z by (apply Z.pow_pos_nonneg; lia).
    split; nia.
Qed.

Lemma uint_digits (u : Decimal.uint) : all_chars is_digit (uint_to_string u) = true.
Proof. induction u; cbn [uint_to_string all_chars]; try rewrite IHu; reflexivity. Qed.

(** Computes the code of a literal character inside a goal. *)
Ltac char_codes :=
  repeat match goal with
  | |- context [Z.of_nat (nat_of_ascii ?c)] =>
      let v := eval vm_compute in (Z.of_nat (nat_of_ascii c)) in
      change (Z.of_nat (nat_of_ascii c)) with v
  end.

Lemma of_uint_acc_value (u : Decimal.uint) (a : positive) :
  Zpos (Pos.of_uint_acc u a) = digits_value (Zpos a) (uint_to_string u).
Proof.
  revert a. induction u; intros a; cbn [Pos.of_uint_acc uint_to_string digits_value];
    try reflexivity; rewrite IHu; f_equal; char_codes; lia.
Qed.

Lemma of_uint_value (u : Decimal.uint) :
  Z.of_N (Pos.of_uint u) = digits_value 0 (uint_to_string u).
Proof.
  induction u; cbn [Pos.of_uint uint_to_string digits_value]; try reflexivity; char_codes;
    match goal with
    | |- context [digits_value ?acc ?t] =>
        let v := eval vm_compute in acc in change (digits_value acc t) with (digits_value v t)
    end;
    [exact IHu | ..]; cbn [Z.of_N]; rewrite of_uint_acc_value; reflexivity.
Qed.

Lemma iter_S {A} (k : nat) (f : A -> A) (x : A) : Nat.iter (S k) f x = f (Nat.iter k f x).
Proof. reflexivity. Qed.

Lemma concat_repeat_zero (k : nat) (s : string) :
  String.concat "" (repeat "0" k) +++ s = Nat.iter k (String "0") s.
Proof.
  induction k as [|k IH]; [done |]. cbn [repeat]. rewrite iter_S, <- IH.
  destruct k as [|k]; [done |].
  change (String.concat "" ("0" :: repeat "0" (S k)))
    with ("0" +++ "" +++ String.concat "" (repeat "0" (S k))).
  done.
Qed.

Lemma digits_value_zeros (k : nat) (s : string) :
  digits_value 0 (Nat.iter k (String "0") s) = digits_value 0 s.
Proof. induction k as [|k IH]; [done |]. rewrite iter_S. exact IH. Qed.

Lemma all_chars_zeros (k : nat) (s : string) :
  all_chars is_digit (Nat.iter k (String "0") s) = all_chars is_digit s.
Proof. induction k as [|k IH]; [done |]. rewrite iter_S. exact IH. Qed.

Lemma length_zeros (k : nat) (s : string) :
  String.length (Nat.iter k (String "0") s) = k + String.length s.
Proof. induction k as [|k IH]; [done |]. rewrite iter_S. cbn [String.length]. lia. Qed.

Lemma padStart0_iter (n : nat) (s : string) :
  padStart0 n s = Nat.iter (n - String.length s) (String "0") s.
Proof. unfold padStart0. apply concat_repeat_zero. Qed.

Lemma padStart0_long (n : nat) (s : string) : n <= String.length s -> padStart0 n s = s.
Proof. intros H. rewrite padStart0_iter. by replace (n - String.length s) with 0 by lia. Qed.

Lemma uint_nonempty (p : positive) : uint_to_string (Pos.to_uint p) <> "".
Proof.
  pose proof (DecimalPos.Unsigned.to_uint_nonnil p) as H.
  destruct (Pos.to_uint p); [done | discriminate ..].
Qed.

(** [String(n).padStart(4, '0')] parses back to [n] for [n > 0]. *)
Lemma parse_padded (p : positive) :
  parseInt10 (padStart0 4 (String_of_Z (Zpos p))) = Some (Zpos p) /\
  all_chars is_digit (padStart0 4 (String_of_Z (Zpos p))) = true /\
  4 <= String.length (padStart0 4 (String_of_Z (Zpos p))).
Proof.
  cbn [String_of_Z]. rewrite padStart0_iter.
  pose proof (uint_digits (Pos.to_uint p)) as Hd.
  pose proof (uint_nonempty p) as Hn.
  set (s := uint_to_string (Pos.to_uint p)) in *.
  split; [| split].
  - rewrite parseInt10_digits.
    + rewrite digits_value_zeros. unfold s. rewrite <- of_uint_value.
      by rewrite DecimalPos.Unsigned.of_to.
    + by rewrite all_chars_zeros.
    + destruct (4 - String.length s); [exact Hn | discriminate].
  - by rewrite all_chars_zeros.
  - rewrite length_zeros. lia.
Qed.

Lemma fold_max_ge (l : list Z) (a : Z) :
  (a <= fold_left Z.max l a)%Z /\ (forall x, In x l -> x <= fold_left Z.max l a)%Z.
Proof.
  revert a. induction l as [|y l IH]; intros a; cbn [fold_left]; [split; [lia | done] |].
  destruct (IH (Z.max a y)) as [H1 H2]. split; [lia |].
  intros x [<-|Hx]; [lia | by apply H2].
Qed.

Lemma fold_max_le (l : list Z) (a B : Z) :
  (a <= B)%Z -> (forall x, In x l -> x <= B)%Z -> (fold_left Z.max l a <= B)%Z.
Proof.
  revert a. induction l as [|y l IH]; intros a Ha Hl; cbn [fold_left]; [done |].
  apply IH; [pose proof (Hl y (or_introl eq_refl)); lia |].
  intros x Hx. apply Hl. by right.
Qed.

Lemma fold_max_in (l : list Z) (a : Z) :
  fold_left Z.max l a = a \/ In (fold_left Z.max l a) l.
Proof.
  revert a. induction l as [|y l IH]; intros a; cbn [fold_left]; [by left |].
  destruct (IH (Z.max a y)) as [E|E]; [| by right; right].
  rewrite E. destruct (Z.max_spec a y) as [[_ ->]|[_ ->]]; [by right; left | by left].
Qed.

End NumberFacts.

Module StoreFacts.
Import NumberFacts.

(** The parsed frontmatter of a generated file: the record's fields. *)
Lemma file_roundtrip (d : IssueFrontmatter) (body : string) :
  roundtrip_ok d = true ->
  parseFrontmatter (generateFrontmatter d +++ NL +++ body) = (fm_record_map d, body).
Proof.
  intros H. rewrite (FrontmatterLemmas.generateFrontmatter_lines d H).
  pose proof (FrontmatterLemmas.fm_entries_values d H) as Hv.
  set (M := map FrontmatterLemmas.line_of (fm_entries d)).
  assert (HM : M <> []) by (unfold M, fm_entries; simpl; discriminate).
  assert (Hlines : Forall (fun l => FrontmatterLemmas.line_ok l = true) M).
  { unfold M. rewrite Forall_forall in Hv. rewrite Forall_forall. intros l Hl.
    apply list_elem_of_In, in_map_iff in Hl as (kv & <- & Hin).
    apply list_elem_of_In in Hin. destruct (Hv kv Hin) as [Hk Hval].
    by apply FrontmatterLemmas.line_of_ok. }
  assert (Hnl : Forall (fun l => no_nl l = true) M).
  { rewrite Forall_forall in Hlines. rewrite Forall_forall. intros l Hl.
    specialize (Hlines l Hl).
    unfold FrontmatterLemmas.line_ok in Hlines. by apply andb_prop in Hlines as [? _]. }
  rewrite FrontmatterLemmas.concat_cons_nonnil
    by (intros E; apply app_eq_nil in E as [_ E]; discriminate).
  rewrite (FrontmatterLemmas.concat_snoc M "---" HM).
  assert (Hc : ("---" +++ NL +++ (String.concat NL M +++ NL +++ "---")) +++ NL +++ body
               = ("---" +++ NL) +++ (String.concat NL M +++ FENCE_CLOSE +++ body)).
  { unfold FENCE_CLOSE. rewrite !str_app_assoc. reflexivity. }
  rewrite Hc. unfold parseFrontmatter, match_frontmatter.
  rewrite FrontmatterLemmas.startsWith_app.
  change 4 with (String.length ("---" +++ NL) + 0).
  rewrite FrontmatterLemmas.slice_from_app. change (slice_from 0 ?x) with x.
  rewrite (FrontmatterLemmas.split_close_lines M body HM Hlines).
  rewrite (FrontmatterLemmas.split_on_concat M HM Hnl).
  change (∅ : gmap string string) with (list_to_map [] : gmap string string).
  unfold M. rewrite FrontmatterLemmas.fold_parse_lines; [reflexivity | | exact Hv].
  apply FrontmatterLemmas.fm_entries_nodup.
Qed.

Lemma fm_record_map_lookup (d : IssueFrontmatter) :
  fm_record_map d !! "title" = Some (fm_title d) /\
  fm_record_map d !! "priority" = Some (fm_priority d) /\
  fm_record_map d !! "scope" = fm_scope d /\
  fm_record_map d !! "type" = Some (fm_type d) /\
  fm_record_map d !! "labels" = fm_labels d /\
  fm_record_map d !! "status" = Some (fm_status d) /\
  fm_record_map d !! "order" = fm_order d /\
  fm_record_map d !! "created" = Some (fm_created d) /\
  fm_record_map d !! "updated" = fm_updated d.
Proof.
  destruct d as [t p sc ty lb st o cr up]. unfold fm_record_map, fm_entries.
  cbn [fm_title fm_priority fm_scope fm_type fm_labels fm_status fm_order fm_created
       fm_updated].
  destruct sc, lb, o, up; cbn [opt_entry app list_to_map foldr]; repeat split;
    by simplify_map_eq.
Qed.

(** An issue file's id: four digits, a number from 0 to 9999. *)
Lemma issue_file_number (f : string) :
  is_issue_file f = true ->
  exists m, parseInt10 (getIssueIdFromFilename f) = Some m /\ (0 <= m <= 9999)%Z /\
    all_chars is_digit (getIssueIdFromFilename f) = true /\
    String.length (getIssueIdFromFilename f) = 4.
Proof.
  intros H. rewrite (StoreLemmas.issue_file_id f H).
  unfold is_issue_file in H. apply andb_prop in H as [_ H].
  destruct f as [|a [|b [|c [|d [|e r]]]]]; try discriminate.
  cbn [four_digits_dash] in H.
  apply andb_prop in H as [H _]. apply andb_prop in H as [H Hd].
  apply andb_prop in H as [H Hc]. apply andb_prop in H as [Ha Hb].
  cbn [substring].
  assert (Hx : all_chars is_digit (String a (String b (String c (String d "")))) = true)
    by (cbn [all_chars]; by rewrite Ha, Hb, Hc, Hd).
  exists (digits_value 0 (String a (String b (String c (String d ""))))).
  rewrite parseInt10_digits by done.
  pose proof (digits_value_bound _ 0 Hx ltac:(lia)) as Hb4. cbn [String.length] in Hb4.
  change (10 ^ Z.of_nat 4)%Z with 10000%Z in Hb4.
  repeat split; [lia | lia | exact Hx].
Qed.

(** [numbers] of [getNextIssueNumber]. *)
Definition issue_numbers (files : Dir) : list Z :=
  flat_map (fun fc => match parseInt10 (getIssueIdFromFilename fc.1) with
                      | Some n => [n]
                      | None => []
                      end) files.

Lemma next_eq (dir : Dir) :
  getNextIssueNumber dir =
  match getIssueFiles dir with
  | [] => "0001"
  | files => padStart0 4 (String_of_Z (fold_left Z.max (issue_numbers files) 0 + 1)%Z)
  end.
Proof. reflexivity. Qed.

Lemma issue_numbers_in (files : Dir) (f t : string) (m : Z) :
  In (f, t) files -> parseInt10 (getIssueIdFromFilename f) = Some m ->
  In m (issue_numbers files).
Proof.
  intros Hin Hp. apply in_flat_map. exists (f, t). split; [done |]. cbn. rewrite Hp. by left.
Qed.

Lemma issue_numbers_src (files : Dir) (m : Z) :
  In m (issue_numbers files) ->
  exists f t, In (f, t) files /\ parseInt10 (getIssueIdFromFilename f) = Some m.
Proof.
  intros H. apply in_flat_map in H as ([f t] & Hin & Hm). cbn in Hm.
  destruct (parseInt10 (getIssueIdFromFilename f)) as [n|] eqn:E; [| done].
  destruct Hm as [<-|[]]. by exists f, t.
Qed.

Lemma in_issue_files (dir : Dir) (f t : string) :
  In (f, t) (getIssueFiles dir) <-> In (f, t) dir /\ is_issue_file f = true.
Proof. unfold getIssueFiles. by rewrite filter_In. Qed.

Lemma issue_numbers_bound (dir : Dir) (x : Z) :
  In x (issue_numbers (getIssueFiles dir)) -> (0 <= x <= 9999)%Z.
Proof.
  intros H. apply issue_numbers_src in H as (f & t & Hin & Hp).
  apply in_issue_files in Hin as [_ Hf].
  destruct (issue_file_number f Hf) as (m & Hm & Hb & _). congruence.
Qed.

(** The value, the form and the freshness of the next issue number. *)
Lemma next_number_spec (dir : Dir) :
  exists n, parseInt10 (getNextIssueNumber dir) = Some n /\
    all_chars is_digit (getNextIssueNumber dir) = true /\
    4 <= String.length (getNextIssueNumber dir) /\
    (forall f t, In (f, t) dir -> is_issue_file f = true ->
       exists m, parseInt10 (getIssueIdFromFilename f) = Some m /\ (0 <= m < n)%Z) /\
    (n = 1%Z \/ exists f t, In (f, t) dir /\ is_issue_file f = true /\
       parseInt10 (getIssueIdFromFilename f) = Some (n - 1)%Z).
Proof.
  rewrite next_eq. destruct (getIssueFiles dir) as [|fc0 rest] eqn:Ef.
  - exists 1%Z. split; [reflexivity |]. split; [reflexivity |]. split; [cbn; lia |].
    split; [| by left].
    intros f t Hin Hf. exfalso. assert (H : In (f, t) (getIssueFiles dir))
      by (by apply in_issue_files). by rewrite Ef in H.
  - set (files := fc0 :: rest) in *.
    set (max := fold_left Z.max (issue_numbers files) 0%Z).
    destruct (fold_max_ge (issue_numbers files) 0) as [H0 Hge]. fold max in H0, Hge.
    assert (Hp : exists p, (max + 1)%Z = Zpos p).
    { exists (Z.to_pos (max + 1)). rewrite Z2Pos.id; lia. }
    destruct Hp as [p Hp]. rewrite Hp.
    destruct (parse_padded p) as (Hparse & Hd & Hl).
    exists (Zpos p). split; [exact Hparse |]. split; [exact Hd |]. split; [exact Hl |].
    split.
    + intros f t Hin Hf. destruct (issue_file_number f Hf) as (m & Hm & Hb & _).
      exists m. split; [exact Hm |].
      assert (In (f, t) files) as Hin' by (rewrite <- Ef; by apply in_issue_files).
      pose proof (Hge m (issue_numbers_in files f t m Hin' Hm)). lia.
    + destruct (fold_max_in (issue_numbers files) 0) as [E|E]; fold max in E.
      * left. lia.
      * right. apply issue_numbers_src in E as (f & t & Hin & Hm).
        rewrite <- Ef in Hin. apply in_issue_files in Hin as [Hin Hf].
        exists f, t. split; [done |]. split; [done |]. rewrite Hm. f_equal. lia.
Qed.

(** An issue file never starts with an id of five digits or more: its
    fifth character is [-]. *)
Lemma startsWith_issue_long (f p : string) :
  is_issue_file f = true -> all_chars is_digit p = true -> 5 <= String.length p ->
  startsWith f p = false.
Proof.
  intros Hf Hp Hl. unfold is_issue_file in Hf. apply andb_prop in Hf as [_ Hf].
  destruct f as [|a [|b [|c [|d [|e r]]]]]; try discriminate.
  cbn [four_digits_dash] in Hf. apply andb_prop in Hf as [_ He].
  apply Ascii.eqb_eq in He. subst e.
  destruct p as [|p0 [|p1 [|p2 [|p3 [|p4 q]]]]]; cbn [String.length] in Hl; try lia.
  cbn [all_chars] in Hp. repeat (apply andb_prop in Hp as [? Hp]).
  assert (H4 : Ascii.eqb p4 "-" = false).
  { match goal with H : is_digit p4 = true |- _ => apply is_digit_cases in H end.
    repeat match goal with H : _ \/ _ |- _ => destruct H as [->|H] end;
      match goal with H : p4 = _ |- _ => subst p4 | _ => idtac end; reflexivity. }
  cbn [startsWith]. rewrite H4. by rewrite !andb_false_l, !andb_false_r.
Qed.

(** No issue is found under the number [getNextIssueNumber] returns. *)
Lemma next_free (dir : Dir) : getIssue dir (getNextIssueNumber dir) = None.
Proof.
  destruct (next_number_spec dir) as (n & Hn & Hd & Hl & Hall & _).
  set (N := getNextIssueNumber dir) in *.
  apply StoreLemmas.getIssue_none. intros [f t] Hin Hf. cbn [fst] in Hf |- *.
  rewrite padStart0_long by lia.
  destruct (Hall f t Hin Hf) as (m & Hm & Hmn).
  assert (Hid : getIssueIdFromFilename f <> N) by (intros E; rewrite E, Hn in Hm; injection Hm; lia).
  unfold issue_file_matches. apply orb_false_iff. split.
  - destruct (Nat.eq_dec (String.length N) 4) as [E4|E4].
    + destruct (startsWith f N) eqn:Es; [exfalso | done].
      apply Hid. rewrite (StoreLemmas.issue_file_id f Hf), <- E4.
      by apply StoreLemmas.startsWith_substring.
    + apply startsWith_issue_long; [done | done | lia].
  - by apply String.eqb_neq.
Qed.

(** With an issue numbered 9999, the next number is [10000]. *)
Lemma next_after_9999 (dir : Dir) (f t : string) :
  In (f, t) dir -> is_issue_file f = true -> getIssueIdFromFilename f = "9999" ->
  getNextIssueNumber dir = "10000".
Proof.
  intros Hin Hf Hid. rewrite next_eq.
  assert (Hin' : In (f, t) (getIssueFiles dir)) by (by apply in_issue_files).
  destruct (getIssueFiles dir) as [|fc0 rest] eqn:Ef; [done |].
  set (files := fc0 :: rest) in *.
  assert (Hm : In 9999%Z (issue_numbers files)).
  { apply (issue_numbers_in files f t); [done |]. rewrite Hid. reflexivity. }
  destruct (fold_max_ge (issue_numbers files) 0) as [_ Hge].
  pose proof (Hge _ Hm) as H1.
  assert (H2 : (fold_left Z.max (issue_numbers files) 0 <= 9999)%Z).
  { apply fold_max_le; [lia |]. intros x Hx. rewrite <- Ef in Hx.
    apply issue_numbers_bound in Hx. lia. }
  replace (fold_left Z.max (issue_numbers files) 0%Z) with 9999%Z by lia.
  reflexivity.
Qed.

Lemma getIssueFiles_app (d1 d2 : Dir) :
  getIssueFiles (d1 ++ d2) = getIssueFiles d1 ++ getIssueFiles d2.
Proof. unfold getIssueFiles. apply List.filter_app. Qed.

Lemma write_file_fresh (dir : Dir) (name text : string) :
  (forall t, ~ In (name, t) dir) -> write_file dir name text = dir ++ [(name, text)].
Proof.
  intros H. unfold write_file.
  destruct (existsb (fun fc => String.eqb fc.1 name) dir) eqn:E; [| done].
  apply existsb_exists in E as ([n t] & Hin & Heq). cbn in Heq.
  apply String.eqb_eq in Heq. subst n. by destruct (H t).
Qed.

(** Writing a file that is not an issue file leaves the issue files. *)
Lemma getIssueFiles_write_other (dir : Dir) (name text : string) :
  is_issue_file name = false -> getIssueFiles (write_file dir name text) = getIssueFiles dir.
Proof.
  intros Hn. unfold write_file.
  destruct (existsb (fun fc => String.eqb fc.1 name) dir).
  - unfold getIssueFiles. induction dir as [|[f t] dir IH]; [done |].
    cbn [map List.filter fst]. destruct (String.eqb_spec f name) as [->|Hne].
    + cbn [fst]. by rewrite Hn.
    + cbn [fst]. by rewrite IH.
  - rewrite getIssueFiles_app. cbn. rewrite Hn. apply app_nil_r.
Qed.

Lemma filter_map_fst (g : string * string -> string * string) (P : string -> bool)
    (l : Dir) :
  (forall fc, (g fc).1 = fc.1) ->
  List.filter (fun fc => P fc.1) (map g l) = map g (List.filter (fun fc => P fc.1) l).
Proof.
  intros Hg. induction l as [|fc l IH]; [done |]. cbn [map List.filter].
  rewrite Hg. destruct (P fc.1); cbn [map]; by rewrite IH.
Qed.

Lemma find_map_fst (g : string * string -> string * string) (P : string -> bool)
    (l : Dir) :
  (forall fc, (g fc).1 = fc.1) ->
  List.find (fun fc => P fc.1) (map g l) = option_map g (List.find (fun fc => P fc.1) l).
Proof.
  intros Hg. induction l as [|fc l IH]; [done |]. cbn [map List.find].
  rewrite Hg. destruct (P fc.1); [reflexivity | exact IH].
Qed.

Lemma rewrite_fst (name text : string) (fc : string * string) :
  (if String.eqb fc.1 name then (name, text) else fc).1 = fc.1.
Proof. destruct fc as [f t]. cbn. by destruct (String.eqb_spec f name) as [->|]. Qed.

Lemma getIssueFiles_write_existing (dir : Dir) (name text : string) :
  existsb (fun fc => String.eqb fc.1 name) dir = true ->
  getIssueFiles (write_file dir name text) =
  map (fun fc => if String.eqb fc.1 name then (name, text) else fc) (getIssueFiles dir).
Proof.
  intros E. unfold write_file. rewrite E. unfold getIssueFiles.
  apply filter_map_fst, rewrite_fst.
Qed.

(** Writing the file an issue was read from: the issue is read back with
    the new text. *)
Lemma getIssue_rewrite (dir : Dir) (i : string) (issue : Issue) (text : string) :
  getIssue dir i = Some issue ->
  getIssue (write_file dir (filename issue) text) i =
  Some (mkIssue (id issue) (filename issue)
          (parseFrontmatter text).1 (parseFrontmatter text).2).
Proof.
  destruct issue as [iid file fm c]. cbn [filename id]. unfold getIssue.
  destruct (List.find _ (getIssueFiles dir)) as [[f old]|] eqn:E; [| discriminate].
  destruct (parseFrontmatter old) as [fm0 b0]. intros [= <- <- _ _].
  assert (Hex : existsb (fun fc => String.eqb fc.1 f) dir = true).
  { apply find_some in E as [Hin _]. unfold getIssueFiles in Hin.
    apply filter_In in Hin as [Hin _]. apply existsb_exists. exists (f, old).
    split; [done |]. apply String.eqb_refl. }
  rewrite getIssueFiles_write_existing by done.
  rewrite (find_map_fst _ (issue_file_matches (padStart0 4 i))) by apply rewrite_fst.
  rewrite E. cbn [option_map fst]. rewrite String.eqb_refl.
  by destruct (parseFrontmatter text).
Qed.

Definition create_record (now : string) (input : CreateIssueInput) : IssueFrontmatter :=
  mkFrontmatter (c_title input) (str_or (c_priority input) "medium")
    (opt_truthy (c_scope input)) (str_or (c_type input) "improvement")
    (opt_truthy (c_labels input)) "open" (opt_truthy (c_order input)) now None.

Definition create_body (input : CreateIssueInput) : string :=
  match c_body input with Some b => b | None => DEFAULT_BODY end.

Lemma createIssue_ok (dir : Dir) (now : string) (input : CreateIssueInput)
    (issue : Issue) (dir' : Dir) :
  createIssue dir now input = inr (issue, dir') ->
  truthy (c_title input) = true /\
  existsb (String.eqb (str_or (c_priority input) "medium")) ["high"; "medium"; "low"] = true /\
  (forall s, opt_truthy (c_scope input) = Some s ->
     existsb (String.eqb s) ["small"; "medium"; "large"] = true) /\
  existsb (String.eqb (str_or (c_type input) "improvement")) ["bug"; "improvement"] = true /\
  issue = mkIssue (getNextIssueNumber dir)
            (getNextIssueNumber dir +++ "-" +++ createSlug (c_title input) +++ ".md")
            (fm_record_map (create_record now input))
            (NL +++ create_body input +++ NL) /\
  dir' = write_file dir (filename issue)
           (generateFrontmatter (create_record now input) +++ NL +++ create_body input +++ NL).
Proof.
  unfold createIssue.
  destruct (truthy (c_title input)) eqn:Ht; cbn [negb]; [| discriminate].
  destruct (existsb (String.eqb (str_or (c_priority input) "medium")) _) eqn:Ep;
    cbn [negb]; [| discriminate].
  destruct (match c_scope input with Some s => _ | None => false end) eqn:Es;
    [discriminate |].
  destruct (existsb (String.eqb (str_or (c_type input) "improvement")) _) eqn:Ey;
    cbn [negb]; [| discriminate].
  intros [= <- <-]. split; [done |]. split; [done |]. split; [| split; [done |]].
  - intros s. destruct (c_scope input) as [s0|]; cbn [opt_truthy]; [| discriminate].
    destruct (truthy s0); [| discriminate]. intros [= <-].
    cbn [andb] in Es. by apply negb_false_iff.
  - by split.
Qed.

Lemma endsWith_app (a b : string) : endsWith (a +++ b) b = true.
Proof.
  unfold endsWith. rewrite FrontmatterLemmas.str_length_app.
  replace (String.length a + String.length b - String.length b)
    with (String.length a + 0) by lia.
  rewrite FrontmatterLemmas.substring_app_r.
  pose proof (FrontmatterLemmas.substring_prefix b "") as Hb.
  rewrite str_app_nil_r in Hb.
  rewrite Hb, String.eqb_refl, andb_true_r. apply Nat.leb_le. lia.
Qed.

Lemma issue_filename (N rest : string) :
  all_chars is_digit N = true -> String.length N = 4 ->
  is_issue_file (N +++ "-" +++ rest +++ ".md") = true.
Proof.
  intros Hd H4. unfold is_issue_file. apply andb_true_intro. split.
  - rewrite <- !str_app_assoc. apply endsWith_app.
  - destruct N as [|a [|b [|c [|d [|e r]]]]]; cbn [String.length] in H4; try lia.
    cbn [all_chars] in Hd. cbn [String.append four_digits_dash].
    repeat (apply andb_prop in Hd as [? Hd]).
    repeat match goal with H : is_digit _ = true |- _ => rewrite H; clear H end.
    reflexivity.
Qed.

Lemma find_app (P : string * string -> bool) (l1 l2 : Dir) :
  List.find P (l1 ++ l2) =
  match List.find P l1 with Some x => Some x | None => List.find P l2 end.
Proof.
  induction l1 as [|x l1 IH]; [done |]. cbn [app List.find]. by destruct (P x).
Qed.

(** The file [createIssue] writes is new in the directory when the
    number has four digits. *)
Lemma create_fresh (dir : Dir) (rest t : string) :
  String.length (getNextIssueNumber dir) = 4 ->
  ~ In (getNextIssueNumber dir +++ "-" +++ rest +++ ".md", t) dir.
Proof.
  intros H4 Hin. destruct (next_number_spec dir) as (n & Hn & Hd & _ & Hall & _).
  set (N := getNextIssueNumber dir) in *.
  assert (Hfi : is_issue_file (N +++ "-" +++ rest +++ ".md") = true)
    by (by apply issue_filename).
  destruct (Hall _ t Hin Hfi) as (m & Hm & Hmn).
  rewrite (StoreLemmas.issue_file_id _ Hfi), <- H4,
    FrontmatterLemmas.substring_prefix in Hm.
  rewrite Hm in Hn. injection Hn. lia.
Qed.

Lemma opt_truthy_some (o : option string) (s : string) :
  opt_truthy o = Some s -> truthy s = true.
Proof. destruct o as [v|]; cbn; [| discriminate]. by destruct (truthy v) eqn:E; intros [= <-]. Qed.

Lemma existsb_plain (p : string) (l : list string) :
  existsb (String.eqb p) l = true -> forallb plain_value l = true -> plain_value p = true.
Proof.
  intros H Hl. apply existsb_exists in H as (x & Hx & E). apply String.eqb_eq in E.
  subst x. rewrite forallb_forall in Hl. by apply Hl.
Qed.

(** The record [createIssue] writes round-trips when its free-text
    fields are plain. *)
Lemma create_record_ok (dir : Dir) (now : string) (input : CreateIssueInput)
    (issue : Issue) (dir' : Dir) :
  createIssue dir now input = inr (issue, dir') ->
  no_nl (c_title input) = true -> opt_plain (opt_truthy (c_labels input)) = true ->
  opt_plain (opt_truthy (c_order input)) = true -> plain_value now = true ->
  roundtrip_ok (create_record now input) = true.
Proof.
  intros Hc Ht Hl Ho Hnow.
  destruct (createIssue_ok _ _ _ _ _ Hc) as (_ & Hp & Hs & Hy & _).
  apply existsb_plain in Hp; [| reflexivity]. apply existsb_plain in Hy; [| reflexivity].
  assert (Hs' : opt_plain (opt_truthy (c_scope input)) = true).
  { destruct (opt_truthy (c_scope input)) as [s|] eqn:E; [| done]. cbn [opt_plain].
    rewrite (opt_truthy_some _ _ E). apply (existsb_plain s _ (Hs s eq_refl)).
    reflexivity. }
  unfold roundtrip_ok, create_record.
  cbn [fm_title fm_priority fm_scope fm_type fm_labels fm_status fm_order fm_created
       fm_updated opt_plain].
  rewrite Ht, Hp, Hs', Hy, Hl, Ho, Hnow. reflexivity.
Qed.

(** The issue [createIssue] returns is read back by [getIssue] under its
    id, with the body line that follows the closing fence as content. *)
Lemma createIssue_readback (dir : Dir) (now : string) (input : CreateIssueInput)
    (issue : Issue) (dir' : Dir) :
  createIssue dir now input = inr (issue, dir') ->
  String.length (getNextIssueNumber dir) = 4 ->
  roundtrip_ok (create_record now input) = true ->
  getIssue dir' (id issue) =
  Some (mkIssue (id issue) (filename issue) (frontmatter issue) (create_body input +++ NL)).
Proof.
  intros Hc H4 Hrt. destruct (createIssue_ok _ _ _ _ _ Hc) as (_ & _ & _ & _ & -> & ->).
  cbn [id filename frontmatter].
  destruct (next_number_spec dir) as (n & Hn & Hd & _ & _ & _).
  pose proof (next_free dir) as Hfree.
  rewrite write_file_fresh by (intros t; apply create_fresh, H4).
  set (N := getNextIssueNumber dir) in *.
  set (fname := N +++ "-" +++ createSlug (c_title input) +++ ".md").
  assert (Hfi : is_issue_file fname = true) by (by apply issue_filename).
  unfold getIssue in Hfree |- *. rewrite getIssueFiles_app, find_app.
  destruct (List.find _ (getIssueFiles dir)) as [[f0 t0]|];
    [destruct (parseFrontmatter t0); discriminate |].
  assert (Hone : forall t, getIssueFiles [(fname, t)] = [(fname, t)]).
  { intros t. unfold getIssueFiles. cbn [List.filter fst]. by rewrite Hfi. }
  rewrite Hone. cbn [List.find fst].
  assert (Hm : issue_file_matches (padStart0 4 N) fname = true).
  { rewrite padStart0_long by lia. unfold issue_file_matches, fname.
    by rewrite FrontmatterLemmas.startsWith_app. }
  rewrite Hm. rewrite file_roundtrip by exact Hrt.
  rewrite (StoreLemmas.issue_file_id _ Hfi). unfold fname.
  rewrite <- H4, FrontmatterLemmas.substring_prefix. reflexivity.
Qed.

(** Past issue 9999 the new file is no issue file: the directory's issues
    are unchanged. *)
Lemma create_past_9999 (dir : Dir) (rest text : string) :
  getNextIssueNumber dir = "10000" ->
  getIssueFiles (write_file dir (getNextIssueNumber dir +++ "-" +++ rest +++ ".md") text)
  = getIssueFiles dir.
Proof.
  intros E. apply getIssueFiles_write_other. rewrite E.
  unfold is_issue_file. apply andb_false_intro2. reflexivity.
Qed.

End StoreFacts.

Module ViewFacts.
Import OrderFacts.

Lemma perm_List_filter {A} (f : A -> bool) (l1 l2 : list A) :
  l1 ≡ₚ l2 -> List.filter f l1 ≡ₚ List.filter f l2.
Proof.
  induction 1 as [|x l1 l2 _ IH|x y l|l1 l2 l3 _ IH1 _ IH2]; cbn [List.filter].
  - done.
  - destruct (f x); [by constructor | exact IH].
  - destruct (f x), (f y); [by constructor | done | done | done].
  - by etrans.
Qed.

Lemma StronglySorted_List_filter {A} (R : A -> A -> Prop) (f : A -> bool) (l : list A) :
  StronglySorted R l -> StronglySorted R (List.filter f l).
Proof.
  induction 1 as [|x l _ IH Hx]; cbn [List.filter]; [constructor |].
  destruct (f x); [| exact IH]. constructor; [exact IH |].
  rewrite List.Forall_forall in Hx |- *. intros y Hy. apply filter_In in Hy as [Hy _].
  by apply Hx.
Qed.

Lemma in_sortIssues (l : list Issue) (s : string) (i : Issue) :
  In i (sortIssues l s) -> In i l.
Proof. apply Permutation_in, SortFacts.sortIssues_perm. Qed.

Lemma filterByQuery_in (fs : list Issue -> string -> list (Issue * Q))
    (issues : list Issue) (q : string) (i : Issue) :
  In i (filterByQuery fs issues q) ->
  In i issues /\ qualifier_filter (qualifiers (parseQuery q)) i = true.
Proof.
  unfold filterByQuery. cbv zeta.
  destruct (truthy (trim (searchText (parseQuery q)))); cbn [negb]; intros H.
  - apply SearchFacts.rank_matches_sub in H. by apply filter_In in H.
  - apply in_sortIssues in H. by apply filter_In in H.
Qed.

Lemma query_result_nodup (fs : list Issue -> string -> list (Issue * Q))
    (issues : list Issue) (q : string) :
  NoDup issues -> NoDup (filterByQuery fs issues q).
Proof.
  intros Hn. unfold filterByQuery. cbv zeta.
  pose proof (SearchFacts.NoDup_List_filter (qualifier_filter (qualifiers (parseQuery q)))
                issues Hn) as Hf.
  destruct (truthy (trim (searchText (parseQuery q)))); cbn [negb].
  - by apply SearchFacts.rank_matches_nodup.
  - by rewrite SortFacts.sortIssues_perm.
Qed.

Lemma filterAndSearchIssues_in (fs : list Issue -> string -> list (Issue * Q))
    (issues : list Issue) (filters : IssueFilters) (i : Issue) :
  In i (filterAndSearchIssues fs issues filters) -> In i (filterIssues issues filters).
Proof.
  unfold filterAndSearchIssues. cbv zeta.
  destruct (f_search filters) as [s|]; [| done].
  destruct (truthy (trim s)); [apply SearchFacts.rank_matches_sub | done].
Qed.

Lemma read_issue_fields (fc : string * string) :
  id (read_issue fc) = getIssueIdFromFilename fc.1 /\ filename (read_issue fc) = fc.1.
Proof. destruct fc as [f t]. unfold read_issue. by destruct (parseFrontmatter t). Qed.

Lemma getAllIssues_perm (dir : Dir) : getAllIssues dir ≡ₚ map read_issue (getIssueFiles dir).
Proof. apply QueryLemmas.sort_perm. Qed.

Lemma getAllIssues_sorted (dir : Dir) : StronglySorted roadmap_before (getAllIssues dir).
Proof.
  apply sort_strongly; [exact roadmap_cmp_asym | exact roadmap_cmp_before |
                        exact roadmap_before_trans].
Qed.

Lemma in_getAllIssues (dir : Dir) (i : Issue) :
  In i (getAllIssues dir) <->
  exists f t, In (f, t) dir /\ is_issue_file f = true /\ i = read_issue (f, t).
Proof.
  split.
  - intros H. apply (Permutation_in _ (getAllIssues_perm dir)), in_map_iff in H
      as ([f t] & <- & Hin). apply StoreFacts.in_issue_files in Hin as [Hin Hf].
    by exists f, t.
  - intros (f & t & Hin & Hf & ->).
    apply (Permutation_in _ (Permutation_sym (getAllIssues_perm dir))), in_map.
    by apply StoreFacts.in_issue_files.
Qed.

Lemma getOpenIssuesByOrder_in (dir : Dir) (i : Issue) :
  In i (getOpenIssuesByOrder dir) <-> In i (getAllIssues dir) /\ is_open i = true.
Proof. apply filter_In. Qed.

Lemma getOpenIssuesByOrder_sorted (dir : Dir) :
  StronglySorted roadmap_before (getOpenIssuesByOrder dir).
Proof. apply StronglySorted_List_filter, getAllIssues_sorted. Qed.

Lemma filter_comm {A} (f g : A -> bool) (l : list A) :
  List.filter f (List.filter g l) = List.filter g (List.filter f l).
Proof.
  induction l as [|x l IH]; [done |]. cbn [List.filter].
  destruct (g x) eqn:Eg, (f x) eqn:Ef; cbn [List.filter]; rewrite ?Eg, ?Ef; by rewrite IH.
Qed.

Lemma map_read_issue_filter (name : string) (l : Dir) :
  map read_issue (List.filter (fun fc => negb (String.eqb fc.1 name)) l) =
  List.filter (fun j => negb (String.eqb (filename j) name)) (map read_issue l).
Proof.
  induction l as [|fc l IH]; [done |]. cbn [List.filter map].
  rewrite (proj2 (read_issue_fields fc)).
  destruct (negb (String.eqb fc.1 name)); cbn [map]; by rewrite IH.
Qed.

Lemma getAllIssues_remove (dir : Dir) (name : string) :
  getAllIssues (remove_file dir name) ≡ₚ
  List.filter (fun j => negb (String.eqb (filename j) name)) (getAllIssues dir).
Proof.
  rewrite getAllIssues_perm. unfold remove_file, getIssueFiles.
  rewrite filter_comm. fold (getIssueFiles dir). rewrite map_read_issue_filter.
  apply perm_List_filter. symmetry. apply getAllIssues_perm.
Qed.

(** [getIssue] reads only the issue files. *)
Lemma getIssue_files (d1 d2 : Dir) (i : string) :
  getIssueFiles d1 = getIssueFiles d2 -> getIssue d1 i = getIssue d2 i.
Proof. intros E. unfold getIssue. by rewrite E. Qed.

Lemma getAllIssues_files (d1 d2 : Dir) :
  getIssueFiles d1 = getIssueFiles d2 -> getAllIssues d1 = getAllIssues d2.
Proof. intros E. unfold getAllIssues. by rewrite E. Qed.

Lemma next_files (d1 d2 : Dir) :
  getIssueFiles d1 = getIssueFiles d2 -> getNextIssueNumber d1 = getNextIssueNumber d2.
Proof. intros E. rewrite !StoreFacts.next_eq. by rewrite E. Qed.

End ViewFacts.

Module PatchFacts.

Lemma patch_status_order (st o : option string) (k : string) :
  patch_field (mkUpdate None None None None None None None st o) k =
  if String.eqb k "status" then st else if String.eqb k "order" then o else None.
Proof.
  unfold patch_field. cbn [u_title u_priority u_scope u_type u_labels u_status u_order].
  repeat match goal with |- context [String.eqb k ?x] =>
    destruct (String.eqb_spec k x) as [->|]; [reflexivity |] end.
  reflexivity.
Qed.

(** What [updateIssue] does with a patch of [status] and [order] only. *)
Lemma update_status_order (dir : Dir) (now i : string) (st o : option string)
    (issue' : Issue) (dir' : Dir) :
  updateIssue dir now i (mkUpdate None None None None None None None st o)
    = inr (issue', dir') ->
  exists issue, getIssue dir i = Some issue /\
    id issue' = id issue /\ filename issue' = filename issue /\
    fm_field issue' "updated" = Some now /\
    (forall k, k <> "updated" -> k <> "status" -> k <> "order" ->
       fm_field issue' k = fm_field issue k) /\
    fm_field issue' "status" =
      match st with Some v => if truthy v then Some v else fm_field issue "status"
                  | None => fm_field issue "status" end /\
    fm_field issue' "order" =
      match o with Some v => if truthy v then Some v else fm_field issue "order"
                 | None => fm_field issue "order" end /\
    content issue' = content issue.
Proof.
  intros H.
  destruct (StoreLemmas.updateIssue_ok _ _ _ _ _ _ H)
    as (issue & data & Hg & Hfm & Hid & Hfile & Hc & _ & _).
  exists issue. unfold fm_field. rewrite Hfm.
  split; [done |]. split; [done |]. split; [done |]. split; [apply lookup_insert_eq |].
  split.
  { intros k Hu Hs Ho. rewrite StoreLemmas.updated_frontmatter_lookup by done.
    rewrite patch_status_order.
    destruct (String.eqb_spec k "status"); [done |].
    by destruct (String.eqb_spec k "order"). }
  split.
  { rewrite StoreLemmas.updated_frontmatter_lookup by discriminate.
    rewrite patch_status_order. reflexivity. }
  split.
  { rewrite StoreLemmas.updated_frontmatter_lookup by discriminate.
    rewrite patch_status_order. reflexivity. }
  exact Hc.
Qed.

End PatchFacts.

(* ================================================================== *)
(** * Properties of the specification *)

(** C1: for any sequence of first/last/after/before insertions through
    [computeOrderKey] (each key becoming the order of a new open issue
    placed where it was meant to go), the list stays a valid roadmap, and
    sorting it by order (the [getAllIssues] comparator) gives back exactly
    the intended sequence. Any number of insertions right after the same
    target produce one key each, pairwise distinct, all above the
    target's key, every new key below the one before it (each new issue
    lands right after the target, in front of the previous one). The key
    generator is the fractional-indexing package, taken through its
    contract [KeyGenContract]. *)
Theorem computeOrderKey_roadmap_insertions
    (valid_key : string -> bool)
    (generateKeyBetween : option string -> option string -> option string)
    (Hgen : KeyGenContract valid_key generateKeyBetween) :
  (forall (l : list Issue) (reqs : list (Position * string)),
     roadmap_ok valid_key l = true ->
     Forall (fun r => request_ok r.1 = true) reqs ->
     let lf := fst (roadmap_run generateKeyBetween l reqs) in
     roadmap_ok valid_key lf = true /\ sort roadmap_cmp lf = lf) /\
  (forall (l : list Issue) (t : string) (idx : nat) (a : string) (ids : list string),
     roadmap_ok valid_key l = true -> truthy t = true ->
     target_index l t = Some idx -> order_at l idx = Some a ->
     let ks := snd (roadmap_run generateKeyBetween l (after_requests t ids)) in
     length ks = length ids /\ NoDup ks /\
     Forall (fun k => str_ltb a k = true) ks /\
     StronglySorted (fun x y => str_ltb y x = true) ks).
Proof.
  split.
  - intros l reqs Hl Hreq lf.
    assert (Hok : roadmap_ok valid_key lf = true)
      by (apply (roadmap_run_ok valid_key generateKeyBetween Hgen); assumption).
    split; [exact Hok |].
    apply (sort_roadmap_cmp_id valid_key); exact Hok.
  - intros l t idx a ids Hl Ht Hi Ha ks.
    destruct (after_run_keys valid_key generateKeyBetween Hgen l t idx a ids Hl Ht Hi Ha)
      as (H1 & H2 & _ & H4).
    split; [exact H1 |]. split; [by apply ssorted_nodup |]. by split.
Qed.

Definition roadmap_abc : list Issue :=
  [roadmap_issue "0001" "a1"; roadmap_issue "0002" "a2"; roadmap_issue "0003" "a3"].

Lemma computeOrderKey_roadmap_insertions_witness :
  (let lf := fst (roadmap_run FracModel.generateKeyBetween []
                    [(PFirst, "0001"); (PLast, "0002"); (PAfter "1", "0003");
                     (PBefore "2", "0004"); (PFirst, "0005")]) in
   roadmap_ok FracModel.valid_key lf = true /\ sort roadmap_cmp lf = lf) /\
  (let ks := snd (roadmap_run FracModel.generateKeyBetween roadmap_abc
                    (after_requests "1" ["0004"; "0005"; "0006"; "0007"])) in
   length ks = 4 /\ NoDup ks /\ Forall (fun k => str_ltb "a1" k = true) ks /\
   StronglySorted (fun x y => str_ltb y x = true) ks).
Proof.
  destruct (computeOrderKey_roadmap_insertions FracModel.valid_key
              FracModel.generateKeyBetween FracModelProofs.generateKeyBetween_contract)
    as [Hrun Hafter].
  split.
  - apply Hrun; [vm_compute; reflexivity | repeat constructor].
  - apply (Hafter roadmap_abc "1" 0 "a1"); vm_compute; reflexivity.
Defined.

(** C2: on a valid roadmap (orders defined, valid and strictly
    increasing), with a non-empty target id: when no open issue has the
    zero-padded id, [{after: t}] and [{before: t}] fail with [NotFound]
    and a message naming [t]; otherwise, with [a] the target's order,
    [{after: t}] returns a key above [a] and below the next issue's order
    (unbounded when the target is last), and [{before: t}] a key below
    [a] and above the previous issue's order (unbounded when the target
    is first). *)
Theorem computeOrderKey_after_before
    (valid_key : string -> bool)
    (generateKeyBetween : option string -> option string -> option string)
    (Hgen : KeyGenContract valid_key generateKeyBetween)
    (l : list Issue) (t : string) :
  roadmap_ok valid_key l = true -> truthy t = true ->
  match target_index l t with
  | None =>
      computeOrderKey generateKeyBetween l (pos_options (PAfter t)) None
        = inl (NotFound (not_found_msg t "after")) /\
      computeOrderKey generateKeyBetween l (pos_options (PBefore t)) None
        = inl (NotFound (not_found_msg t "before"))
  | Some idx => exists a, order_at l idx = Some a /\
      (exists k, computeOrderKey generateKeyBetween l (pos_options (PAfter t)) None = inr k /\
         str_ltb a k = true /\ below k (order_at l (S idx)) = true) /\
      (exists k, computeOrderKey generateKeyBetween l (pos_options (PBefore t)) None = inr k /\
         above (prev_order l idx) k = true /\ str_ltb k a = true)
  end.
Proof.
  intros Hl Ht.
  rewrite (cok_after generateKeyBetween l t Ht), (cok_before generateKeyBetween l t Ht).
  destruct (target_index l t) as [idx|] eqn:Hi; [| done].
  destruct (order_at_defined valid_key l idx Hl) as [a Ha].
  { eapply RoadmapLemmas.findIndex_lt. exact Hi. }
  exists a. split; [exact Ha |]. split.
  - destruct (adjacent_bounds valid_key l (S idx) Hl)
      as (H1 & H2 & H3).
    destruct (gen_between valid_key generateKeyBetween Hgen _ _ H1 H2 H3)
      as (k & Hk & _ & Hab & Hbe).
    exists k. unfold prev_order in Hab. rewrite Ha in Hab. by split.
  - destruct (adjacent_bounds valid_key l idx Hl)
      as (H1 & H2 & H3).
    destruct (gen_between valid_key generateKeyBetween Hgen _ _ H1 H2 H3)
      as (k & Hk & _ & Hab & Hbe).
    exists k. rewrite Ha in Hbe. by split.
Qed.

Lemma computeOrderKey_after_before_witness :
  roadmap_ok FracModel.valid_key roadmap_abc = true /\ truthy "1" = true /\
  target_index roadmap_abc "1" = Some 0 /\
  (exists a, order_at roadmap_abc 0 = Some a /\
    (exists k, computeOrderKey FracModel.generateKeyBetween roadmap_abc
                 (pos_options (PAfter "1")) None = inr k /\
       str_ltb a k = true /\ below k (order_at roadmap_abc 1) = true) /\
    (exists k, computeOrderKey FracModel.generateKeyBetween roadmap_abc
                 (pos_options (PBefore "1")) None = inr k /\
       above (prev_order roadmap_abc 0) k = true /\ str_ltb k a = true)).
Proof.
  assert (Hl : roadmap_ok FracModel.valid_key roadmap_abc = true)
    by (vm_compute; reflexivity).
  assert (Ht : truthy "1" = true) by reflexivity.
  assert (Hi : target_index roadmap_abc "1" = Some 0) by (vm_compute; reflexivity).
  split; [exact Hl |]. split; [exact Ht |]. split; [exact Hi |].
  pose proof (computeOrderKey_after_before FracModel.valid_key
                FracModel.generateKeyBetween FracModelProofs.generateKeyBetween_contract
                roadmap_abc "1" Hl Ht) as H.
  rewrite Hi in H. exact H.
Defined.

Definition fm_example (title : string) : IssueFrontmatter :=
  mkFrontmatter title "medium" None "bug" None "open" None "2025-01-01" None.

(** C3, as stated, fails. [generateFrontmatter] ends with the closing
    fence and no newline, so [parseFrontmatter] applied to its output
    alone finds no frontmatter and returns an empty object. And in a file
    written as [createIssue] writes it, a title holding a newline is
    quoted across two lines: only its first line comes back, with the
    opening quote. *)
Lemma generateFrontmatter_roundtrip_counterexample :
  parseFrontmatter (generateFrontmatter (fm_example "Fix"))
    = (∅, generateFrontmatter (fm_example "Fix")) /\
  fm_record_map (fm_example "Fix") <> ∅ /\
  (parseFrontmatter (generateFrontmatter (fm_example ("a" +++ NL +++ "b"))
                     +++ NL +++ "Body")).1 !! "title" = Some (DQs +++ "a") /\
  fm_record_map (fm_example ("a" +++ NL +++ "b")) !! "title" = Some ("a" +++ NL +++ "b").
Proof.
  split; [vm_compute; reflexivity |].
  split; [apply (bool_decide_unpack _); vm_compute; reflexivity |].
  split; vm_compute; reflexivity.
Qed.

(** C3 (amended): for every frontmatter record whose title is one line,
    whose other fields are one line without surrounding whitespace, and
    whose optional fields are non-empty when present, parsing the file
    text [generateFrontmatter R + "\n" + body] (the form [createIssue]
    and [updateIssue] write) gives back exactly the record's fields and
    the body. Titles with colons, hashes, quotes, brackets, braces,
    commas, backslashes or surrounding whitespace come back unchanged. *)
Theorem parseFrontmatter_generateFrontmatter (d : IssueFrontmatter) (body : string) :
  roundtrip_ok d = true ->
  parseFrontmatter (generateFrontmatter d +++ NL +++ body) = (fm_record_map d, body).
Proof.
  intros H. rewrite (FrontmatterLemmas.generateFrontmatter_lines d H).
  pose proof (FrontmatterLemmas.fm_entries_values d H) as Hv.
  set (M := map FrontmatterLemmas.line_of (fm_entries d)).
  assert (HM : M <> []) by (unfold M, fm_entries; simpl; discriminate).
  assert (Hlines : Forall (fun l => FrontmatterLemmas.line_ok l = true) M).
  { unfold M. rewrite Forall_forall in Hv. rewrite Forall_forall. intros l Hl.
    apply list_elem_of_In, in_map_iff in Hl as (kv & <- & Hin).
    apply list_elem_of_In in Hin. destruct (Hv kv Hin) as [Hk Hval]. by apply FrontmatterLemmas.line_of_ok. }
  assert (Hnl : Forall (fun l => no_nl l = true) M).
  { rewrite Forall_forall in Hlines. rewrite Forall_forall. intros l Hl.
    specialize (Hlines l Hl).
    unfold FrontmatterLemmas.line_ok in Hlines. by apply andb_prop in Hlines as [? _]. }
  rewrite FrontmatterLemmas.concat_cons_nonnil
    by (intros E; apply app_eq_nil in E as [_ E]; discriminate).
  rewrite (FrontmatterLemmas.concat_snoc M "---" HM).
  assert (Hc : ("---" +++ NL +++ (String.concat NL M +++ NL +++ "---")) +++ NL +++ body
               = ("---" +++ NL) +++ (String.concat NL M +++ FENCE_CLOSE +++ body)).
  { unfold FENCE_CLOSE. rewrite !str_app_assoc. reflexivity. }
  rewrite Hc. unfold parseFrontmatter, match_frontmatter.
  rewrite FrontmatterLemmas.startsWith_app.
  change 4 with (String.length ("---" +++ NL) + 0).
  rewrite FrontmatterLemmas.slice_from_app. change (slice_from 0 ?x) with x.
  rewrite (FrontmatterLemmas.split_close_lines M body HM Hlines).
  rewrite (FrontmatterLemmas.split_on_concat M HM Hnl).
  change (∅ : gmap string string) with (list_to_map [] : gmap string string).
  unfold M. rewrite FrontmatterLemmas.fold_parse_lines; [reflexivity | | exact Hv].
  apply FrontmatterLemmas.fm_entries_nodup.
Qed.

Definition fm_tricky : IssueFrontmatter :=
  mkFrontmatter (" Fix: " +++ DQs +++ "b" +++ DQs +++ " [x] {y}, #1 \ 'q' ")
    "high" (Some "small") "bug" (Some "ui,api") "open" (Some "a1V")
    "2025-01-01T10:00:00" (Some "2025-01-02T10:00:00").

Lemma parseFrontmatter_generateFrontmatter_witness :
  roundtrip_ok fm_tricky = true /\
  parseFrontmatter (generateFrontmatter fm_tricky +++ NL +++ "Body" +++ NL)
    = (fm_record_map fm_tricky, "Body" +++ NL).
Proof.
  assert (H : roundtrip_ok fm_tricky = true) by (vm_compute; reflexivity).
  split; [exact H |]. apply (parseFrontmatter_generateFrontmatter fm_tricky); exact H.
Defined.

(** C4, as the code stands: [scope] is not among the qualifiers
    [parseQuery] recognises, so [scope:small] stays search text, while a
    recognised key such as [priority] becomes a qualifier with the last
    occurrence winning. *)
Theorem parseQuery_scope_not_recognized :
  existsb (String.eqb "scope") SUPPORTED_QUALIFIERS = false /\
  parseQuery "scope:small" = mkParsed ∅ "scope:small" /\
  parseQuery "priority:high priority:low" = mkParsed {[ "priority" := "low" ]} "".
Proof.
  split; [reflexivity |]. split; vm_compute; reflexivity.
Qed.

(** Two open issues: 0001 (low priority, small scope, order a0) and 0002
    (high priority, large scope, order a1). *)
Definition demo_issue (i prio sc ord : string) : Issue :=
  mkIssue i (i +++ "-demo.md")
    (<["order" := ord]> (<["scope" := sc]> (<["priority" := prio]>
      (<["status" := "open"]> ∅)))) "".

Definition rm_low : Issue := demo_issue "0001" "low" "small" "a0".
Definition rm_high : Issue := demo_issue "0002" "high" "large" "a1".

(** C5, as the code stands: with no search text, [filterByQuery] sorts
    by priority when the sort qualifier is absent, [roadmap] or [scope]
    (any value other than priority, created, created-asc, updated and
    id falls back to the priority sort); the roadmap order of the same
    issues, and their scope order, is 0001 then 0002. *)
Theorem filterByQuery_default_sort_priority
    (fuse_search : list Issue -> string -> list (Issue * Q)) :
  sort roadmap_cmp [rm_low; rm_high] = [rm_low; rm_high] /\
  filterByQuery fuse_search [rm_low; rm_high] "" = [rm_high; rm_low] /\
  filterByQuery fuse_search [rm_low; rm_high] "sort:roadmap" = [rm_high; rm_low] /\
  filterByQuery fuse_search [rm_low; rm_high] "sort:scope" = [rm_high; rm_low] /\
  filterByQuery fuse_search [rm_low; rm_high] "sort:banana" = [rm_high; rm_low].
Proof. repeat split; vm_compute; reflexivity. Qed.




(** C7: in [filterByQuery] (search text non-empty) and in
    [filterAndSearchIssues] (search filter non-empty), whatever scores
    the fuzzy search returns, the result is the id matches of the
    filtered issues in their incoming order, followed by the fuzzy hits
    that are not id matches, in ascending score. *)
Theorem search_id_matches_first (fuse_search : list Issue -> string -> list (Issue * Q)) :
  (forall issues query,
     truthy (query_text query) = true ->
     id_first_layout (fuse_search (qualified issues query) (query_text query))
       (query_text query) (qualified issues query)
       (filterByQuery fuse_search issues query)) /\
  (forall issues filters s,
     f_search filters = Some s -> truthy (trim s) = true ->
     id_first_layout (fuse_search issues (trim s)) (trim s)
       (filterIssues issues filters)
       (filterAndSearchIssues fuse_search issues filters)).
Proof.
  split.
  - intros issues query Ht. unfold query_text in Ht |- *. unfold qualified.
    unfold filterByQuery. cbv zeta. rewrite Ht. cbn [negb].
    apply QueryLemmas.rank_matches_layout.
  - intros issues filters s Hs Ht. unfold filterAndSearchIssues.
    rewrite Hs, Ht. apply QueryLemmas.rank_matches_layout.
Qed.

Definition login_bug : Issue :=
  mkIssue "0001" "0001-login-bug.md" {[ "title" := "Login bug" ]} "".
Definition login_typo : Issue :=
  mkIssue "0099" "0099-login-typo.md" {[ "title" := "Login typo" ]} "".

(** A fuzzy search that ranks 0099 better (score 0) than 0001 (0.5). *)
Definition login_fuse (index : list Issue) (query : string) : list (Issue * Q) :=
  [(login_typo, 0%Q); (login_bug, (1 # 2)%Q)].

Lemma search_id_matches_first_witness :
  truthy (query_text "1") = true /\
  filterByQuery login_fuse [login_typo; login_bug] "1" = [login_bug; login_typo] /\
  id_first_layout (login_fuse (qualified [login_typo; login_bug] "1") (query_text "1"))
    (query_text "1") (qualified [login_typo; login_bug] "1")
    (filterByQuery login_fuse [login_typo; login_bug] "1").
Proof.
  assert (Ht : truthy (query_text "1") = true) by (vm_compute; reflexivity).
  split; [exact Ht |]. split; [vm_compute; reflexivity |].
  exact (proj1 (search_id_matches_first login_fuse) [login_typo; login_bug] "1" Ht).
Defined.

(** The issues directory of the store examples: issue 0001 written by
    [createIssue], a second issue, and a file that is not an issue. *)
Definition demo_file : string :=
  generateFrontmatter (mkFrontmatter "Fix login" "medium" (Some "small") "bug"
    (Some "ui") "open" (Some "a0") "2025-01-01T10:00:00" None)
  +++ NL +++ NL +++ "Steps" +++ NL.

Definition demo_dir : Dir :=
  [("README.md", "notes"); ("0001-fix-login.md", demo_file);
   ("0002-other.md", "no frontmatter")].

Definition demo_now : string := "2025-02-02T12:00:00".

(** C8: a successful [updateIssue] keeps the issue's id and filename,
    sets [updated] to the current time, sets each field the patch gives
    a non-empty value, leaves every field the patch omits unchanged,
    keeps the body unless the patch gives one (which then replaces it),
    and writes the updated record to the issue's file. *)
Theorem updateIssue_partial_update (dir : Dir) (now i : string)
    (input : UpdateIssueInput) (issue' : Issue) (dir' : Dir) :
  updateIssue dir now i input = inr (issue', dir') ->
  exists issue, getIssue dir i = Some issue /\
    id issue' = id issue /\ filename issue' = filename issue /\
    fm_field issue' "updated" = Some now /\
    (forall k, k <> "updated" -> patch_field input k = None ->
       fm_field issue' k = fm_field issue k) /\
    (forall k v, patch_field input k = Some v -> truthy v = true ->
       fm_field issue' k = Some v) /\
    (u_body input = None -> content issue' = content issue) /\
    (forall body, u_body input = Some body -> content issue' = NL +++ body +++ NL) /\
    (exists data, record_of (frontmatter issue') = Some data /\
       dir' = write_file dir (filename issue)
                (generateFrontmatter data +++ NL +++ content issue')).
Proof.
  intros H.
  destruct (StoreLemmas.updateIssue_ok dir now i input issue' dir' H)
    as (issue & data & Hg & Hfm & Hid & Hfile & Hc & Hd & Hw).
  exists issue. unfold fm_field. rewrite Hfm.
  split; [done |]. split; [done |]. split; [done |]. split.
  { apply lookup_insert_eq. }
  split.
  { intros k Hk Hn. rewrite StoreLemmas.updated_frontmatter_lookup by done.
    by rewrite Hn. }
  split.
  { intros k v Hk Hv.
    assert (Hne : k <> "updated").
    { intros ->. discriminate Hk. }
    rewrite StoreLemmas.updated_frontmatter_lookup by done. by rewrite Hk, Hv. }
  split.
  { intros Hb. by rewrite Hc, Hb. }
  split.
  { intros body Hb. by rewrite Hc, Hb. }
  exists data. split; [rewrite <- Hfm; exact Hd | exact Hw].
Qed.

Definition demo_patch : UpdateIssueInput :=
  mkUpdate None None None (Some "high") None None None None None.

Definition demo_update : Issue * Dir :=
  match updateIssue demo_dir demo_now "1" demo_patch with
  | inr r => r
  | inl _ => (login_bug, [])
  end.

Lemma updateIssue_partial_update_witness :
  updateIssue demo_dir demo_now "1" demo_patch = inr demo_update /\
  fm_field demo_update.1 "priority" = Some "high" /\
  exists issue, getIssue demo_dir "1" = Some issue /\
    id demo_update.1 = id issue /\ filename demo_update.1 = filename issue /\
    fm_field demo_update.1 "updated" = Some demo_now /\
    (forall k, k <> "updated" -> patch_field demo_patch k = None ->
       fm_field demo_update.1 k = fm_field issue k) /\
    (forall k v, patch_field demo_patch k = Some v -> truthy v = true ->
       fm_field demo_update.1 k = Some v) /\
    (u_body demo_patch = None -> content demo_update.1 = content issue) /\
    (forall body, u_body demo_patch = Some body ->
       content demo_update.1 = NL +++ body +++ NL) /\
    (exists data, record_of (frontmatter demo_update.1) = Some data /\
       demo_update.2 = write_file demo_dir (filename issue)
                (generateFrontmatter data +++ NL +++ content demo_update.1)).
Proof.
  assert (H : updateIssue demo_dir demo_now "1" demo_patch
              = inr (demo_update.1, demo_update.2)) by (vm_compute; reflexivity).
  split; [exact H |]. split; [vm_compute; reflexivity |].
  exact (updateIssue_partial_update demo_dir demo_now "1" demo_patch
           demo_update.1 demo_update.2 H).
Defined.

(** C9: [getIssue] pads the id to four digits before matching, so
    ["1"], ["01"] and ["0001"] give the same result; when an issue file
    of id 0001 exists, the lookup returns a record of id ["0001"]; when
    no issue file matches the padded id, it returns [None]. *)
Theorem getIssue_id_forms (dir : Dir) :
  getIssue dir "1" = getIssue dir "0001" /\
  getIssue dir "01" = getIssue dir "0001" /\
  (forall file text, In (file, text) dir -> is_issue_file file = true ->
     startsWith file "0001" = true ->
     exists r, getIssue dir "1" = Some r /\ id r = "0001") /\
  (forall i, (forall fc, In fc dir -> is_issue_file fc.1 = true ->
                issue_file_matches (padStart0 4 i) fc.1 = false) ->
     getIssue dir i = None).
Proof.
  split; [reflexivity |]. split; [reflexivity |]. split.
  - intros file text Hin Hf Hs.
    destruct (getIssue dir "1") as [r|] eqn:E.
    + exists r. split; [done |].
      destruct (StoreLemmas.getIssue_some dir "1" r E)
        as (file' & text' & _ & Hf' & Hm' & ->).
      by apply StoreLemmas.matches_id.
    + exfalso. unfold getIssue in E.
      destruct (List.find _ _) as [[f t]|] eqn:Ef.
      * destruct (parseFrontmatter t). discriminate.
      * pose proof (find_none _ _ Ef (file, text)) as Hn.
        unfold getIssueFiles in Hn. rewrite filter_In in Hn.
        cbn in Hn. unfold issue_file_matches in Hn.
        rewrite Hs in Hn. by specialize (Hn (conj Hin Hf)).
  - intros i H. by apply StoreLemmas.getIssue_none.
Qed.

Lemma getIssue_id_forms_witness :
  In ("0001-fix-login.md", demo_file) demo_dir /\
  is_issue_file "0001-fix-login.md" = true /\
  startsWith "0001-fix-login.md" "0001" = true /\
  getIssue demo_dir "01" = getIssue demo_dir "0001" /\
  (exists r, getIssue demo_dir "1" = Some r /\ id r = "0001") /\
  getIssue demo_dir "7" = None.
Proof.
  assert (Hin : In ("0001-fix-login.md", demo_file) demo_dir) by (right; left; reflexivity).
  assert (Hf : is_issue_file "0001-fix-login.md" = true) by reflexivity.
  assert (Hs : startsWith "0001-fix-login.md" "0001" = true) by reflexivity.
  destruct (getIssue_id_forms demo_dir) as (_ & H01 & Hex & Hnone).
  split; [exact Hin |]. split; [exact Hf |]. split; [exact Hs |].
  split; [exact H01 |]. split; [exact (Hex _ _ Hin Hf Hs) |].
  apply Hnone. intros fc Hfc _. unfold demo_dir in Hfc.
  repeat (destruct Hfc as [<-|Hfc]; [vm_compute; reflexivity |]). destruct Hfc.
Defined.

(** C10: on a successful [updateIssue], an empty title, priority,
    scope, type, status or order in the patch leaves that field as it
    was, so an order, once present, stays present; an empty [labels]
    removes the labels field; an empty [body] makes the content two
    newlines. *)
Theorem updateIssue_empty_fields (dir : Dir) (now i : string)
    (input : UpdateIssueInput) (issue' : Issue) (dir' : Dir) :
  updateIssue dir now i input = inr (issue', dir') ->
  exists issue, getIssue dir i = Some issue /\
    (forall k, In k ["title"; "priority"; "scope"; "type"; "status"; "order"] ->
       patch_field input k = Some "" -> fm_field issue' k = fm_field issue k) /\
    (forall o, fm_field issue "order" = Some o -> is_Some (fm_field issue' "order")) /\
    (u_labels input = Some "" -> fm_field issue' "labels" = None) /\
    (u_body input = Some "" -> content issue' = NL +++ NL).
Proof.
  intros H.
  destruct (StoreLemmas.updateIssue_ok dir now i input issue' dir' H)
    as (issue & data & Hg & Hfm & _ & _ & Hc & _ & _).
  exists issue. unfold fm_field. rewrite Hfm. split; [done |]. split; [| split; [| split]].
  - intros k Hk He.
    assert (Hne : k <> "updated" /\ String.eqb k "labels" = false).
    { repeat (destruct Hk as [<-|Hk]; [done |]). destruct Hk. }
    destruct Hne as [Hne Hl].
    rewrite StoreLemmas.updated_frontmatter_lookup by done. by rewrite He, Hl.
  - intros o Ho. rewrite StoreLemmas.updated_frontmatter_lookup by done.
    cbn [patch_field String.eqb Ascii.eqb Bool.eqb].
    destruct (u_order input) as [v|]; [destruct (truthy v) |]; cbn; rewrite ?Ho; done.
  - intros Hl. rewrite StoreLemmas.updated_frontmatter_lookup by done.
    unfold patch_field. cbn. by rewrite Hl.
  - intros Hb. by rewrite Hc, Hb.
Qed.

Definition empty_patch : UpdateIssueInput :=
  mkUpdate (Some "") None (Some "") (Some "") (Some "") (Some "") (Some "") (Some "") (Some "").

Definition empty_update : Issue * Dir :=
  match updateIssue demo_dir demo_now "1" empty_patch with
  | inr r => r
  | inl _ => (login_bug, [])
  end.

Lemma updateIssue_empty_fields_witness :
  updateIssue demo_dir demo_now "1" empty_patch = inr empty_update /\
  fm_field empty_update.1 "order" = Some "a0" /\
  exists issue, getIssue demo_dir "1" = Some issue /\
    (forall k, In k ["title"; "priority"; "scope"; "type"; "status"; "order"] ->
       patch_field empty_patch k = Some "" -> fm_field empty_update.1 k = fm_field issue k) /\
    (forall o, fm_field issue "order" = Some o -> is_Some (fm_field empty_update.1 "order")) /\
    (u_labels empty_patch = Some "" -> fm_field empty_update.1 "labels" = None) /\
    (u_body empty_patch = Some "" -> content empty_update.1 = NL +++ NL).
Proof.
  assert (H : updateIssue demo_dir demo_now "1" empty_patch
              = inr (empty_update.1, empty_update.2)) by (vm_compute; reflexivity).
  split; [exact H |]. split; [vm_compute; reflexivity |].
  exact (updateIssue_empty_fields demo_dir demo_now "1" empty_patch
           empty_update.1 empty_update.2 H).
Defined.

(* ================================================================== *)
(** * Further properties of the code *)

(** Concrete data for the witnesses below. *)
Definition x_text1 : string :=
  generateFrontmatter (mkFrontmatter "Setup CI" "high" None "improvement" None "open"
    (Some "a1") "2025-03-01" None) +++ NL +++ "Body" +++ NL.

Definition x_text2 : string :=
  generateFrontmatter (mkFrontmatter "Crash on save" "low" (Some "small") "bug" None
    "closed" None "2025-03-02" None) +++ NL +++ "Trace" +++ NL.

Definition x_dir : Dir :=
  [("0002-crash-on-save.md", x_text2); ("todo.txt", "later");
   ("0001-setup-ci.md", x_text1)].

Definition x_now : string := "2025-04-01".

Definition x_issues : list Issue := getAllIssues x_dir.

Definition x_fuse (index : list Issue) (query : string) : list (Issue * Q) :=
  map (fun i => (i, 1%Q)) (List.filter (fun i => includes (id i) query) index).

Definition x_input : CreateIssueInput :=
  mkCreate "Add dark mode!" None None (Some "") (Some "medium") None (Some "ui") None.

Definition x_dummy : Issue := mkIssue "" "" ∅ "".

(** X1: [sortIssues] returns a permutation of its input, whatever the
    sort option: no issue is lost or duplicated. *)
Theorem sortIssues_permutation (l : list Issue) (s : string) : sortIssues l s ≡ₚ l.
Proof. apply SortFacts.sortIssues_perm. Qed.

(** X2: [tokenizeQuery] never returns an empty token. *)
Theorem tokenizeQuery_no_empty_token (q : string) :
  Forall (fun t => truthy t = true) (tokenizeQuery q).
Proof.
  unfold tokenizeQuery.
  pose proof (ParseFacts.tokenize_from_truthy q (mkTok [] "" false None) ltac:(by constructor))
    as H.
  destruct (truthy (currentToken _)) eqn:E; [| exact H].
  apply Forall_app. split; [exact H | by constructor].
Qed.

(** X3: on a query without quote characters, [tokenizeQuery] splits at
    the spaces and drops the empty pieces. *)
Theorem tokenizeQuery_unquoted (q : string) :
  quote_free q = true -> tokenizeQuery q = List.filter truthy (split_on " " q).
Proof.
  intros H. change (tokenizeQuery q) with
    (ParseFacts.finish (tokenize_from (mkTok [] "" false None) q)).
  rewrite ParseFacts.tokenize_unquoted_from by done. reflexivity.
Qed.

Lemma tokenizeQuery_unquoted_witness :
  quote_free "is:open  login bug" = true /\
  tokenizeQuery "is:open  login bug" = List.filter truthy (split_on " " "is:open  login bug").
Proof.
  assert (H : quote_free "is:open  login bug" = true) by (vm_compute; reflexivity).
  split; [exact H | exact (tokenizeQuery_unquoted _ H)].
Defined.

(** X4: every qualifier [parseQuery] keeps has a supported key
    ([is], [priority], [type], [label] or [sort]) and a non-empty value. *)
Theorem parseQuery_qualifiers_supported (q k v : string) :
  qualifiers (parseQuery q) !! k = Some v -> In k SUPPORTED_QUALIFIERS /\ v <> "".
Proof.
  unfold parseQuery.
  destruct (negb (truthy q) || negb (truthy (trim q))).
  - cbn [qualifiers]. by rewrite lookup_empty.
  - pose proof (ParseFacts.fold_parse_token_ok (tokenizeQuery q) (∅, []))
      as Hok.
    destruct (fold_left parse_token (tokenizeQuery q) (∅, [])) as [qs parts].
    cbn [qualifiers]. apply Hok. intros k' v'. cbn [fst]. by rewrite lookup_empty.
Qed.

Lemma parseQuery_qualifiers_supported_witness :
  qualifiers (parseQuery "priority:high login") !! "priority" = Some "high" /\
  In "priority" SUPPORTED_QUALIFIERS /\ "high" <> "".
Proof.
  assert (H : qualifiers (parseQuery "priority:high login") !! "priority" = Some "high")
    by (vm_compute; reflexivity).
  split; [exact H | exact (parseQuery_qualifiers_supported _ _ _ H)].
Defined.

(** X5: every issue [filterByQuery] returns is one of its input issues
    and passes the query's qualifier filter. *)
Theorem filterByQuery_subset (fs : list Issue -> string -> list (Issue * Q))
    (issues : list Issue) (q : string) (i : Issue) :
  In i (filterByQuery fs issues q) ->
  In i issues /\ qualifier_filter (qualifiers (parseQuery q)) i = true.
Proof. apply ViewFacts.filterByQuery_in. Qed.

Lemma filterByQuery_subset_witness :
  In (hd x_dummy (filterByQuery x_fuse x_issues "is:open"))
     (filterByQuery x_fuse x_issues "is:open") /\
  In (hd x_dummy (filterByQuery x_fuse x_issues "is:open")) x_issues /\
  qualifier_filter (qualifiers (parseQuery "is:open"))
    (hd x_dummy (filterByQuery x_fuse x_issues "is:open")) = true.
Proof.
  assert (H : In (hd x_dummy (filterByQuery x_fuse x_issues "is:open"))
                 (filterByQuery x_fuse x_issues "is:open"))
    by (vm_compute; left; reflexivity).
  split; [exact H | exact (filterByQuery_subset _ _ _ _ H)].
Defined.

(** X6: [filterByQuery] returns no issue twice when its input has no
    duplicate. *)
Theorem filterByQuery_nodup (fs : list Issue -> string -> list (Issue * Q))
    (issues : list Issue) (q : string) :
  NoDup issues -> NoDup (filterByQuery fs issues q).
Proof. apply ViewFacts.query_result_nodup. Qed.

Lemma x_issues_nodup : NoDup x_issues.
Proof.
  apply (NoDup_fmap_1 id). apply (bool_decide_unpack _). vm_compute. reflexivity.
Qed.

Lemma filterByQuery_nodup_witness :
  NoDup x_issues /\ NoDup (filterByQuery x_fuse x_issues "save").
Proof.
  split; [exact x_issues_nodup | exact (filterByQuery_nodup _ _ _ x_issues_nodup)].
Defined.

(** X7: every issue [filterAndSearchIssues] returns is one of its input
    issues and matches the status, priority and type filters that are
    set. *)
Theorem filterAndSearchIssues_subset (fs : list Issue -> string -> list (Issue * Q))
    (issues : list Issue) (filters : IssueFilters) (i : Issue) :
  In i (filterAndSearchIssues fs issues filters) ->
  In i issues /\
  filter_field (f_status filters) (fm_field i "status") = true /\
  filter_field (f_priority filters) (fm_field i "priority") = true /\
  filter_field (f_type filters) (fm_field i "type") = true.
Proof.
  intros H. apply ViewFacts.filterAndSearchIssues_in in H.
  unfold filterIssues in H. apply filter_In in H as [Hin Hf].
  apply andb_prop in Hf as [Hf Ht]. apply andb_prop in Hf as [Hs Hp]. done.
Qed.

Definition x_filters : IssueFilters := mkFilters (Some "closed") None None None (Some "0002").

Lemma filterAndSearchIssues_subset_witness :
  In (hd x_dummy (filterAndSearchIssues x_fuse x_issues x_filters))
     (filterAndSearchIssues x_fuse x_issues x_filters) /\
  In (hd x_dummy (filterAndSearchIssues x_fuse x_issues x_filters)) x_issues /\
  filter_field (f_status x_filters)
    (fm_field (hd x_dummy (filterAndSearchIssues x_fuse x_issues x_filters)) "status")
    = true /\
  filter_field (f_priority x_filters)
    (fm_field (hd x_dummy (filterAndSearchIssues x_fuse x_issues x_filters)) "priority")
    = true /\
  filter_field (f_type x_filters)
    (fm_field (hd x_dummy (filterAndSearchIssues x_fuse x_issues x_filters)) "type")
    = true.
Proof.
  assert (H : In (hd x_dummy (filterAndSearchIssues x_fuse x_issues x_filters))
                 (filterAndSearchIssues x_fuse x_issues x_filters))
    by (vm_compute; left; reflexivity).
  split; [exact H | exact (filterAndSearchIssues_subset _ _ _ _ H)].
Defined.

(** X8: [filterAndSearchIssues] returns no issue twice when its input
    has no duplicate. *)
Theorem filterAndSearchIssues_nodup (fs : list Issue -> string -> list (Issue * Q))
    (issues : list Issue) (filters : IssueFilters) :
  NoDup issues -> NoDup (filterAndSearchIssues fs issues filters).
Proof.
  intros Hn. unfold filterAndSearchIssues, filterIssues. cbv zeta.
  pose proof (SearchFacts.NoDup_List_filter (fun i =>
    filter_field (f_status filters) (fm_field i "status") &&
    filter_field (f_priority filters) (fm_field i "priority") &&
    filter_field (f_type filters) (fm_field i "type")) issues Hn) as Hf.
  destruct (f_search filters) as [s|]; [| exact Hf].
  destruct (truthy (trim s)); [by apply SearchFacts.rank_matches_nodup | exact Hf].
Qed.

Lemma filterAndSearchIssues_nodup_witness :
  NoDup x_issues /\ NoDup (filterAndSearchIssues x_fuse x_issues x_filters).
Proof.
  split; [exact x_issues_nodup | exact (filterAndSearchIssues_nodup _ _ _ x_issues_nodup)].
Defined.

(** X9: a slug [createSlug] returns is at most 50 characters long, made
    of [a-z], [0-9] and [-] only, and never holds two dashes in a row. *)
Theorem createSlug_shape (title : string) :
  all_chars slug_out (createSlug title) = true /\
  String.length (createSlug title) <= 50 /\
  includes (createSlug title) "--" = false.
Proof.
  unfold createSlug. split; [| split].
  - apply SlugFacts.all_chars_substring.
    apply (SlugFacts.all_chars_collapse slug_out); [done | reflexivity |].
    apply (SlugFacts.all_chars_collapse slug_char);
      [exact SlugFacts.slug_char_out | reflexivity | apply SlugFacts.all_chars_remove].
  - apply SlugFacts.substring0_length.
  - apply SlugFacts.no_dd_includes, SlugFacts.no_dd_substring, SlugFacts.no_dd_collapse.
Qed.

(** X10: [getNextIssueNumber] returns a string of at least four digits
    whose value [n] is above the number of every issue file, and is 1 or
    one more than the number of some issue file. *)
Theorem getNextIssueNumber_value (dir : Dir) :
  exists n, parseInt10 (getNextIssueNumber dir) = Some n /\
    all_chars is_digit (getNextIssueNumber dir) = true /\
    4 <= String.length (getNextIssueNumber dir) /\
    (forall f t, In (f, t) dir -> is_issue_file f = true ->
       exists m, parseInt10 (getIssueIdFromFilename f) = Some m /\ (0 <= m < n)%Z) /\
    (n = 1%Z \/ exists f t, In (f, t) dir /\ is_issue_file f = true /\
       parseInt10 (getIssueIdFromFilename f) = Some (n - 1)%Z).
Proof. apply StoreFacts.next_number_spec. Qed.

(** X11: [getIssue] finds no issue under the number
    [getNextIssueNumber] returns. *)
Theorem getNextIssueNumber_unused (dir : Dir) :
  getIssue dir (getNextIssueNumber dir) = None.
Proof. apply StoreFacts.next_free. Qed.

(** X12: [getAllIssues] returns one issue per issue file of the
    directory (a permutation of reading each file), and each issue's id
    is the four-digit prefix of its file name. *)
Theorem getAllIssues_from_files (dir : Dir) :
  getAllIssues dir ≡ₚ map read_issue (getIssueFiles dir) /\
  (forall i, In i (getAllIssues dir) ->
     is_issue_file (filename i) = true /\ id i = substring 0 4 (filename i) /\
     String.length (id i) = 4 /\ all_chars is_digit (id i) = true).
Proof.
  split; [apply ViewFacts.getAllIssues_perm |].
  intros i Hi. apply ViewFacts.in_getAllIssues in Hi as (f & t & _ & Hf & ->).
  destruct (ViewFacts.read_issue_fields (f, t)) as [Hid Hfn]. cbn [fst] in Hid, Hfn.
  rewrite Hid, Hfn. destruct (StoreFacts.issue_file_number f Hf) as (_ & _ & _ & Hd & Hl).
  split; [done |]. split; [by apply StoreLemmas.issue_file_id |]. done.
Qed.

(** X13: [getAllIssues] is in roadmap order: issues with an order key
    first, by ascending key, then the others by ascending id. *)
Theorem getAllIssues_roadmap_sorted (dir : Dir) :
  StronglySorted roadmap_before (getAllIssues dir).
Proof. apply ViewFacts.getAllIssues_sorted. Qed.

(** X14: [getNextIssue] returns an open issue that comes first in
    roadmap order among the open issues, and returns nothing only when
    no issue is open. *)
Theorem getNextIssue_first_open (dir : Dir) :
  match getNextIssue dir with
  | Some i => is_open i = true /\ In i (getAllIssues dir) /\
              forall j, In j (getAllIssues dir) -> is_open j = true -> roadmap_before i j
  | None => forall j, In j (getAllIssues dir) -> is_open j = false
  end.
Proof.
  pose proof (ViewFacts.getOpenIssuesByOrder_sorted dir) as Hs.
  pose proof (ViewFacts.getOpenIssuesByOrder_in dir) as Hin.
  unfold getNextIssue. destruct (getOpenIssuesByOrder dir) as [|i rest].
  - intros j Hj. destruct (is_open j) eqn:Ho; [| done].
    by destruct (proj2 (Hin j) (conj Hj Ho)).
  - destruct (proj1 (Hin i) (or_introl eq_refl)) as [Hi Ho].
    split; [done |]. split; [done |]. intros j Hj Hoj.
    destruct (proj2 (Hin j) (conj Hj Hoj)) as [<-|Hr].
    + apply OrderFacts.roadmap_before_refl.
    + apply StronglySorted_inv in Hs as [_ Hall].
      rewrite List.Forall_forall in Hall. by apply Hall.
Qed.

Definition x_create : Issue * Dir :=
  match createIssue x_dir x_now x_input with inr r => r | inl _ => (x_dummy, []) end.

(** X15: a successful [createIssue] returns the issue numbered
    [getNextIssueNumber] in the file [<number>-<slug>.md], open, created
    now and never updated, with the given title; its priority is the
    given one, or [medium] when none or an empty one is given, and is
    one of high/medium/low; its type is the given one, or [improvement]
    by default, and is bug or improvement; scope, labels and order are
    the given ones when non-empty and absent otherwise, a scope being
    small, medium or large; its content is the body between newlines. *)
Theorem createIssue_result (dir : Dir) (now : string) (input : CreateIssueInput)
    (issue : Issue) (dir' : Dir) :
  createIssue dir now input = inr (issue, dir') ->
  id issue = getNextIssueNumber dir /\
  filename issue = id issue +++ "-" +++ createSlug (c_title input) +++ ".md" /\
  fm_field issue "title" = Some (c_title input) /\
  fm_field issue "status" = Some "open" /\
  fm_field issue "created" = Some now /\
  fm_field issue "updated" = None /\
  fm_field issue "priority" = Some (str_or (c_priority input) "medium") /\
  In (str_or (c_priority input) "medium") ["high"; "medium"; "low"] /\
  fm_field issue "type" = Some (str_or (c_type input) "improvement") /\
  In (str_or (c_type input) "improvement") ["bug"; "improvement"] /\
  fm_field issue "scope" = opt_truthy (c_scope input) /\
  (forall s, opt_truthy (c_scope input) = Some s -> In s ["small"; "medium"; "large"]) /\
  fm_field issue "labels" = opt_truthy (c_labels input) /\
  fm_field issue "order" = opt_truthy (c_order input) /\
  content issue = NL +++ StoreFacts.create_body input +++ NL.
Proof.
  assert (Hin : forall x l, existsb (String.eqb x) l = true -> In x l).
  { intros x l Hx. apply existsb_exists in Hx as (y & Hy & E).
    apply String.eqb_eq in E. by subst y. }
  intros H. destruct (StoreFacts.createIssue_ok _ _ _ _ _ H) as (_ & Hp & Hs & Hy & -> & _).
  unfold fm_field. cbn [id filename frontmatter content].
  destruct (StoreFacts.fm_record_map_lookup (StoreFacts.create_record now input))
    as (Ht & Hpr & Hsc & Hty & Hlb & Hst & Hor & Hcr & Hup).
  cbn [StoreFacts.create_record fm_title fm_priority fm_scope fm_type fm_labels fm_status
       fm_order fm_created fm_updated] in *.
  repeat split; try done; try by apply Hin.
  intros s Es. by apply Hin, Hs.
Qed.

Lemma createIssue_result_witness :
  createIssue x_dir x_now x_input = inr x_create /\
  id x_create.1 = getNextIssueNumber x_dir /\
  filename x_create.1 = id x_create.1 +++ "-" +++ createSlug (c_title x_input) +++ ".md" /\
  fm_field x_create.1 "title" = Some (c_title x_input) /\
  fm_field x_create.1 "status" = Some "open" /\
  fm_field x_create.1 "created" = Some x_now /\
  fm_field x_create.1 "updated" = None /\
  fm_field x_create.1 "priority" = Some (str_or (c_priority x_input) "medium") /\
  In (str_or (c_priority x_input) "medium") ["high"; "medium"; "low"] /\
  fm_field x_create.1 "type" = Some (str_or (c_type x_input) "improvement") /\
  In (str_or (c_type x_input) "improvement") ["bug"; "improvement"] /\
  fm_field x_create.1 "scope" = opt_truthy (c_scope x_input) /\
  (forall s, opt_truthy (c_scope x_input) = Some s -> In s ["small"; "medium"; "large"]) /\
  fm_field x_create.1 "labels" = opt_truthy (c_labels x_input) /\
  fm_field x_create.1 "order" = opt_truthy (c_order x_input) /\
  content x_create.1 = NL +++ StoreFacts.create_body x_input +++ NL.
Proof.
  assert (H : createIssue x_dir x_now x_input = inr (x_create.1, x_create.2))
    by (vm_compute; reflexivity).
  split; [exact H | exact (createIssue_result _ _ _ _ _ H)].
Defined.

(** X16: [createIssue] fails exactly when one of its checks fails, with
    the message of the first failing check, in this order: a missing or
    empty title, a priority outside high/medium/low, a non-empty scope
    outside small/medium/large, a type outside bug/improvement (a
    missing or empty priority or type takes its default). *)
Theorem createIssue_errors (dir : Dir) (now : string) (input : CreateIssueInput)
    (e : string) :
  createIssue dir now input = inl e <->
  (truthy (c_title input) = false /\ e = "Title is required") \/
  (truthy (c_title input) = true /\
   ~ In (str_or (c_priority input) "medium") ["high"; "medium"; "low"] /\
   e = "Priority must be: high, medium, or low") \/
  (truthy (c_title input) = true /\
   In (str_or (c_priority input) "medium") ["high"; "medium"; "low"] /\
   (exists s, opt_truthy (c_scope input) = Some s /\ ~ In s ["small"; "medium"; "large"]) /\
   e = "Scope must be: small, medium, or large") \/
  (truthy (c_title input) = true /\
   In (str_or (c_priority input) "medium") ["high"; "medium"; "low"] /\
   (forall s, opt_truthy (c_scope input) = Some s -> In s ["small"; "medium"; "large"]) /\
   ~ In (str_or (c_type input) "improvement") ["bug"; "improvement"] /\
   e = "Type must be: bug or improvement").
Proof.
  assert (Hin : forall x l, existsb (String.eqb x) l = true <-> In x l).
  { intros x l. rewrite existsb_exists. split.
    - intros (y & Hy & E). apply String.eqb_eq in E. by subst y.
    - intros Hx. exists x. split; [done | apply String.eqb_refl]. }
  assert (Hnin : forall x l, existsb (String.eqb x) l = false <-> ~ In x l).
  { intros x l. split.
    - intros E Hx. apply Hin in Hx. congruence.
    - intros Hx. destruct (existsb (String.eqb x) l) eqn:E; [| done].
      apply Hin in E. by destruct Hx. }
  split.
  - unfold createIssue.
    destruct (truthy (c_title input)) eqn:Ht; cbn [negb].
    2:{ intros [= <-]. by left. }
    destruct (existsb (String.eqb (str_or (c_priority input) "medium")) _) eqn:Ep;
      cbn [negb].
    2:{ intros [= <-]. right; left. split; [done |]. split; [by apply Hnin | done]. }
    apply Hin in Ep.
    destruct (c_scope input) as [s|] eqn:Es.
    + destruct (truthy s) eqn:Ets; cbn [andb opt_truthy].
      * destruct (existsb (String.eqb s) ["small"; "medium"; "large"]) eqn:Ess; cbn [negb].
        -- destruct (existsb (String.eqb (str_or (c_type input) "improvement")) _) eqn:Ey;
             cbn [negb]; [discriminate |].
           intros [= <-]. right; right; right. split; [done |]. split; [done |].
           split; [| split; [by apply Hnin | done]].
           rewrite Ets. intros s' [= <-]. by apply Hin.
        -- intros [= <-]. right; right; left. split; [done |]. split; [done |].
           split; [| done]. exists s. rewrite Ets. split; [done | by apply Hnin].
      * destruct (existsb (String.eqb (str_or (c_type input) "improvement")) _) eqn:Ey;
          cbn [negb]; [discriminate |].
        intros [= <-]. right; right; right. split; [done |]. split; [done |].
        split; [| split; [by apply Hnin | done]].
        rewrite Ets. discriminate.
    + destruct (existsb (String.eqb (str_or (c_type input) "improvement")) _) eqn:Ey;
        cbn [negb]; [discriminate |].
      intros [= <-]. right; right; right. split; [done |]. split; [done |].
      split; [| split; [by apply Hnin | done]].
      cbn [opt_truthy]. discriminate.
  - intros [(Ht & ->) | [(Ht & Hp & ->) | [(Ht & Hp & (s & Es & Hs) & ->) |
                                            (Ht & Hp & Hs & Hy & ->)]]];
      unfold createIssue; cbv zeta; rewrite Ht; cbn [negb]; [done | |  |].
    + apply Hnin in Hp. by rewrite Hp.
    + apply Hin in Hp. rewrite Hp. cbn [negb].
      destruct (c_scope input) as [s0|]; cbn [opt_truthy] in Es; [| discriminate].
      destruct (truthy s0) eqn:E0; [| discriminate]. injection Es as <-.
      apply Hnin in Hs. by rewrite Hs.
    + apply Hin in Hp. rewrite Hp. cbn [negb]. apply Hnin in Hy.
      destruct (c_scope input) as [s0|] eqn:Es.
      * destruct (truthy s0) eqn:E0; cbn [andb].
        -- assert (Hs0 : In s0 ["small"; "medium"; "large"])
             by (apply Hs; cbn [opt_truthy]; by rewrite E0).
           apply Hin in Hs0. rewrite Hs0. cbn [negb]. by rewrite Hy.
        -- by rewrite Hy.
      * by rewrite Hy.
Qed.

Definition x_bad_input : CreateIssueInput :=
  mkCreate "Urgent fix" None None (Some "urgent") None None None None.

Lemma createIssue_errors_witness :
  createIssue x_dir x_now x_bad_input = inl "Priority must be: high, medium, or low" /\
  ((truthy (c_title x_bad_input) = false /\
    "Priority must be: high, medium, or low" = "Title is required") \/
  (truthy (c_title x_bad_input) = true /\
   ~ In (str_or (c_priority x_bad_input) "medium") ["high"; "medium"; "low"] /\
   "Priority must be: high, medium, or low" = "Priority must be: high, medium, or low") \/
  (truthy (c_title x_bad_input) = true /\
   In (str_or (c_priority x_bad_input) "medium") ["high"; "medium"; "low"] /\
   (exists s, opt_truthy (c_scope x_bad_input) = Some s /\
      ~ In s ["small"; "medium"; "large"]) /\
   "Priority must be: high, medium, or low" = "Scope must be: small, medium, or large") \/
  (truthy (c_title x_bad_input) = true /\
   In (str_or (c_priority x_bad_input) "medium") ["high"; "medium"; "low"] /\
   (forall s, opt_truthy (c_scope x_bad_input) = Some s ->
      In s ["small"; "medium"; "large"]) /\
   ~ In (str_or (c_type x_bad_input) "improvement") ["bug"; "improvement"] /\
   "Priority must be: high, medium, or low" = "Type must be: bug or improvement")).
Proof.
  assert (H : createIssue x_dir x_now x_bad_input
              = inl "Priority must be: high, medium, or low") by (vm_compute; reflexivity).
  split; [exact H | exact (proj1 (createIssue_errors _ _ _ _) H)].
Defined.

(** X17: while the next number has four digits and the free-text fields
    are single plain lines, [getIssue] reads the created issue back under
    its id with the same frontmatter; its content is then the body and a
    newline, while [createIssue] returned it with one more newline in
    front. *)
Theorem createIssue_getIssue (dir : Dir) (now : string) (input : CreateIssueInput)
    (issue : Issue) (dir' : Dir) :
  createIssue dir now input = inr (issue, dir') ->
  String.length (getNextIssueNumber dir) = 4 ->
  no_nl (c_title input) = true ->
  opt_plain (opt_truthy (c_labels input)) = true ->
  opt_plain (opt_truthy (c_order input)) = true ->
  plain_value now = true ->
  getIssue dir' (id issue) =
    Some (mkIssue (id issue) (filename issue) (frontmatter issue)
            (StoreFacts.create_body input +++ NL)) /\
  content issue = NL +++ StoreFacts.create_body input +++ NL.
Proof.
  intros H H4 Ht Hl Ho Hn. split.
  - apply (StoreFacts.createIssue_readback _ now input _ _ H H4).
    exact (StoreFacts.create_record_ok _ _ _ _ _ H Ht Hl Ho Hn).
  - by destruct (StoreFacts.createIssue_ok _ _ _ _ _ H) as (_ & _ & _ & _ & -> & _).
Qed.

Lemma createIssue_getIssue_witness :
  createIssue x_dir x_now x_input = inr x_create /\
  getIssue x_create.2 (id x_create.1) =
    Some (mkIssue (id x_create.1) (filename x_create.1) (frontmatter x_create.1)
            (StoreFacts.create_body x_input +++ NL)) /\
  content x_create.1 = NL +++ StoreFacts.create_body x_input +++ NL.
Proof.
  assert (H : createIssue x_dir x_now x_input = inr (x_create.1, x_create.2))
    by (vm_compute; reflexivity).
  split; [exact H |].
  apply (createIssue_getIssue _ _ _ _ _ H); vm_compute; reflexivity.
Defined.

Definition x_full_dir : Dir := [("9999-last.md", x_text1); ("0003-third.md", x_text2)].

Definition x_create_full : Issue * Dir :=
  match createIssue x_full_dir x_now x_input with inr r => r | inl _ => (x_dummy, []) end.

(** X18: once an issue numbered 9999 exists, [createIssue] numbers the
    new issue 10000 and writes [10000-<slug>.md], which is no issue file:
    [getIssue] does not find it, [getAllIssues] is unchanged, and the
    next number is 10000 again. *)
Theorem createIssue_after_9999 (dir : Dir) (now : string) (input : CreateIssueInput)
    (issue : Issue) (dir' : Dir) (f t : string) :
  In (f, t) dir -> is_issue_file f = true -> getIssueIdFromFilename f = "9999" ->
  createIssue dir now input = inr (issue, dir') ->
  id issue = "10000" /\ getIssue dir' (id issue) = None /\
  getAllIssues dir' = getAllIssues dir /\ getNextIssueNumber dir' = "10000".
Proof.
  intros Hin Hf Hid H.
  pose proof (StoreFacts.next_after_9999 dir f t Hin Hf Hid) as E.
  destruct (StoreFacts.createIssue_ok _ _ _ _ _ H) as (_ & _ & _ & _ & -> & ->).
  cbn [id filename].
  pose proof (StoreFacts.create_past_9999 dir (createSlug (c_title input))
    (generateFrontmatter (StoreFacts.create_record now input) +++ NL +++
       StoreFacts.create_body input +++ NL) E) as Hfiles.
  split; [exact E |]. split; [| split].
  - rewrite (ViewFacts.getIssue_files _ _ _ Hfiles). apply StoreFacts.next_free.
  - by apply ViewFacts.getAllIssues_files.
  - rewrite (ViewFacts.next_files _ _ Hfiles). exact E.
Qed.

Lemma createIssue_after_9999_witness :
  createIssue x_full_dir x_now x_input = inr x_create_full /\
  id x_create_full.1 = "10000" /\ getIssue x_create_full.2 (id x_create_full.1) = None /\
  getAllIssues x_create_full.2 = getAllIssues x_full_dir /\
  getNextIssueNumber x_create_full.2 = "10000".
Proof.
  assert (H : createIssue x_full_dir x_now x_input
              = inr (x_create_full.1, x_create_full.2)) by (vm_compute; reflexivity).
  split; [exact H |].
  apply (createIssue_after_9999 x_full_dir x_now x_input x_create_full.1 x_create_full.2
           "9999-last.md" x_text1);
    [vm_compute; left; reflexivity | vm_compute; reflexivity | vm_compute; reflexivity |
     exact H].
Defined.

(** X19: after a successful [updateIssue] whose record round-trips,
    [getIssue] reads the issue back from the rewritten file: same id,
    file and content, and the written record as frontmatter. *)
Theorem updateIssue_getIssue (dir : Dir) (now i : string) (input : UpdateIssueInput)
    (issue' : Issue) (dir' : Dir) (data : IssueFrontmatter) :
  updateIssue dir now i input = inr (issue', dir') ->
  record_of (frontmatter issue') = Some data ->
  roundtrip_ok data = true ->
  getIssue dir' i =
    Some (mkIssue (id issue') (filename issue') (fm_record_map data) (content issue')).
Proof.
  intros H Hd Hr.
  destruct (StoreLemmas.updateIssue_ok _ _ _ _ _ _ H)
    as (issue & data0 & Hg & _ & Hid & Hfile & _ & Hd0 & ->).
  rewrite Hd in Hd0. injection Hd0 as <-.
  rewrite (StoreFacts.getIssue_rewrite _ _ _ _ Hg), StoreFacts.file_roundtrip by exact Hr.
  by rewrite Hid, Hfile.
Qed.

Definition x_patch : UpdateIssueInput :=
  mkUpdate (Some "Crash on save (macOS)") None (Some "New trace") None None None
    (Some "ui") None None.

Definition x_update : Issue * Dir :=
  match updateIssue x_dir x_now "2" x_patch with inr r => r | inl _ => (x_dummy, []) end.

Definition x_update_data : IssueFrontmatter :=
  match record_of (frontmatter x_update.1) with
  | Some d => d
  | None => mkFrontmatter "" "" None "" None "" None "" None
  end.

Lemma updateIssue_getIssue_witness :
  updateIssue x_dir x_now "2" x_patch = inr x_update /\
  record_of (frontmatter x_update.1) = Some x_update_data /\
  roundtrip_ok x_update_data = true /\
  getIssue x_update.2 "2" =
    Some (mkIssue (id x_update.1) (filename x_update.1) (fm_record_map x_update_data)
            (content x_update.1)).
Proof.
  assert (H : updateIssue x_dir x_now "2" x_patch = inr (x_update.1, x_update.2))
    by (vm_compute; reflexivity).
  assert (Hd : record_of (frontmatter x_update.1) = Some x_update_data)
    by (vm_compute; reflexivity).
  assert (Hr : roundtrip_ok x_update_data = true) by (vm_compute; reflexivity).
  split; [exact H |]. split; [exact Hd |]. split; [exact Hr |].
  exact (updateIssue_getIssue _ _ _ _ _ _ _ H Hd Hr).
Defined.

Definition x_close : Issue * Dir :=
  match closeIssue x_dir x_now "1" with inr r => r | inl _ => (x_dummy, []) end.

(** X20: a successful [closeIssue] sets [status] to [closed] and
    [updated] to now, and leaves the id, the file, the content and every
    other field of the issue unchanged. *)
Theorem closeIssue_effect (dir : Dir) (now i : string) (issue' : Issue) (dir' : Dir) :
  closeIssue dir now i = inr (issue', dir') ->
  exists issue, getIssue dir i = Some issue /\
    id issue' = id issue /\ filename issue' = filename issue /\
    fm_field issue' "status" = Some "closed" /\ fm_field issue' "updated" = Some now /\
    (forall k, k <> "status" -> k <> "updated" -> fm_field issue' k = fm_field issue k) /\
    content issue' = content issue.
Proof.
  intros H.
  destruct (PatchFacts.update_status_order _ _ _ _ _ _ _ H)
    as (issue & Hg & Hid & Hf & Hu & Hk & Hs & Ho & Hc).
  exists issue. split; [done |]. split; [done |]. split; [done |].
  split; [exact Hs |]. split; [exact Hu |]. split; [| exact Hc].
  intros k Hks Hku. destruct (String.eqb_spec k "order") as [->|Hko].
  - exact Ho.
  - by apply Hk.
Qed.

Lemma closeIssue_effect_witness :
  closeIssue x_dir x_now "1" = inr x_close /\
  exists issue, getIssue x_dir "1" = Some issue /\
    id x_close.1 = id issue /\ filename x_close.1 = filename issue /\
    fm_field x_close.1 "status" = Some "closed" /\
    fm_field x_close.1 "updated" = Some x_now /\
    (forall k, k <> "status" -> k <> "updated" ->
       fm_field x_close.1 k = fm_field issue k) /\
    content x_close.1 = content issue.
Proof.
  assert (H : closeIssue x_dir x_now "1" = inr (x_close.1, x_close.2))
    by (vm_compute; reflexivity).
  split; [exact H | exact (closeIssue_effect _ _ _ _ _ H)].
Defined.

Definition x_reopen : Issue * Dir :=
  match reopenIssue x_dir x_now "2" (Some "a0") with inr r => r | inl _ => (x_dummy, []) end.

(** X21: a successful [reopenIssue] sets [status] to [open] and
    [updated] to now, sets [order] to the given key when it is non-empty
    and otherwise keeps the issue's old order, and leaves everything else
    unchanged. *)
Theorem reopenIssue_effect (dir : Dir) (now i : string) (order : option string)
    (issue' : Issue) (dir' : Dir) :
  reopenIssue dir now i order = inr (issue', dir') ->
  exists issue, getIssue dir i = Some issue /\
    id issue' = id issue /\ filename issue' = filename issue /\
    fm_field issue' "status" = Some "open" /\ fm_field issue' "updated" = Some now /\
    fm_field issue' "order" =
      match order with
      | Some o => if truthy o then Some o else fm_field issue "order"
      | None => fm_field issue "order"
      end /\
    (forall k, k <> "status" -> k <> "updated" -> k <> "order" ->
       fm_field issue' k = fm_field issue k) /\
    content issue' = content issue.
Proof.
  intros H.
  destruct (PatchFacts.update_status_order _ _ _ _ _ _ _ H)
    as (issue & Hg & Hid & Hf & Hu & Hk & Hs & Ho & Hc).
  exists issue. split; [done |]. split; [done |]. split; [done |].
  split; [exact Hs |]. split; [exact Hu |]. split; [exact Ho |]. split; [| exact Hc].
  intros k Hks Hku Hko. by apply Hk.
Qed.

Lemma reopenIssue_effect_witness :
  reopenIssue x_dir x_now "2" (Some "a0") = inr x_reopen /\
  exists issue, getIssue x_dir "2" = Some issue /\
    id x_reopen.1 = id issue /\ filename x_reopen.1 = filename issue /\
    fm_field x_reopen.1 "status" = Some "open" /\
    fm_field x_reopen.1 "updated" = Some x_now /\
    fm_field x_reopen.1 "order" =
      (if truthy "a0" then Some "a0" else fm_field issue "order") /\
    (forall k, k <> "status" -> k <> "updated" -> k <> "order" ->
       fm_field x_reopen.1 k = fm_field issue k) /\
    content x_reopen.1 = content issue.
Proof.
  assert (H : reopenIssue x_dir x_now "2" (Some "a0") = inr (x_reopen.1, x_reopen.2))
    by (vm_compute; reflexivity).
  split; [exact H | exact (reopenIssue_effect _ _ _ _ _ _ H)].
Defined.

(** X22: [deleteIssue] fails with [Issue not found: <id>] exactly when
    [getIssue] finds nothing; otherwise it removes every file named like
    the found issue's file and nothing else, and [getAllIssues] then
    returns the other issues. *)
Theorem deleteIssue_effect (dir : Dir) (i : string) :
  match deleteIssue dir i with
  | inl e => e = "Issue not found: " +++ i /\ getIssue dir i = None
  | inr dir' => exists issue, getIssue dir i = Some issue /\
      (forall fc, In fc dir' <-> In fc dir /\ fc.1 <> filename issue) /\
      getAllIssues dir' ≡ₚ
        List.filter (fun j => negb (String.eqb (filename j) (filename issue)))
          (getAllIssues dir)
  end.
Proof.
  unfold deleteIssue. destruct (getIssue dir i) as [issue|]; [| done].
  exists issue. split; [done |]. split.
  - intros fc. unfold remove_file. rewrite filter_In.
    destruct (String.eqb_spec fc.1 (filename issue)); cbn [negb]; naive_solver.
  - apply ViewFacts.getAllIssues_remove.
Qed.
